(** * VWAP tracker: rolling aggregator, strategy and paper-trading ledger

    A shallow embedding of [rolling-vwap.js], [calculate-vwap.js],
    [strategy.js], [paper-trading.js], [vwap-tracker.js], of the update
    handler of [server.js] and of the connection state of
    [coinbase-websocket.js].

    Number model.  In the general statements a JavaScript number is an
    exact rational ([Q]): the rounding of IEEE-754 doubles is not
    modelled there, and every equality between numbers is an equality of
    exact values ([==]).  What is proved over the rationals either does
    not depend on the rounding (decisions that compare the deviation of a
    snapshot with thresholds, the structure of the map and of the
    history) or holds of the source up to the rounding of the last place
    (sums, means, the cash balance).  Where the rounding decides what the
    code returns (the residue that [+=] and [-=] leave in the running
    totals, a division by zero), module [Double] embeds the same
    functions over binary64 floating-point numbers and the code is
    evaluated there on concrete inputs; the identity between the running
    totals and the sums over the retained bars, in particular, is an
    invariant of the rational model only.  A nullable number ([null] or a
    number) is an [option].  Timestamps and counts are integers ([Z]).
    [Date.now()] is an explicit argument ([nowMs], milliseconds) of every
    function that reads the clock. *)

From Stdlib Require Import QArith ZArith List Lia Lqa Qminmax Qround Qabs Bool.
From Stdlib Require Import Permutation Sorted.
From Stdlib Require String Floats.
Import ListNotations.
Local Open Scope Q_scope.

(** ** JavaScript coercions used by the sources *)

Module Js.

(** [x < y] on numbers, as a boolean. *)
Definition Qltb (x y : Q) : bool := negb (Qle_bool y x).

(** Truthiness of a nullable number: [null] and [0] are falsy. *)
Definition truthyQ (x : option Q) : bool :=
  match x with
  | Some q => negb (Qeq_bool q 0)
  | None => false
  end.

Definition truthyZ (x : option Z) : bool :=
  match x with
  | Some z => negb (z =? 0)%Z
  | None => false
  end.

(** [ToNumber]: [null] converts to [0] in arithmetic and in relational
    comparisons. *)
Definition toNumber (x : option Q) : Q :=
  match x with
  | Some q => q
  | None => 0
  end.

(** The outcome of a call: it returns, or it throws a [TypeError]
    (a method call or property read on [null] / [undefined]). *)
Inductive completion (A : Type) : Type :=
| Normal (a : A)
| TypeError.
Arguments Normal {A} a.
Arguments TypeError {A}.

(** Equality of nullable numbers up to the value of the rational. *)
Definition optQeq (a b : option Q) : Prop :=
  match a, b with
  | Some x, Some y => x == y
  | None, None => True
  | _, _ => False
  end.

(** A value read from an array or returned by [percentile]: [null],
    [undefined] (a read outside the array) or a number. *)
Inductive value : Type :=
| Null
| Undefined
| Num (q : Q).

(** [x || 0] on such a value: every falsy value gives [0]. *)
Definition orZero (x : value) : Q :=
  match x with
  | Num q => if Qeq_bool q 0 then 0 else q
  | Null | Undefined => 0
  end.

(** [x.toFixed(2)] inside a template string: a [TypeError] on [null]. *)
Definition toFixed (x : option Q) : completion unit :=
  match x with
  | Some _ => Normal tt
  | None => TypeError
  end.

End Js.

(** ** [rolling-vwap.js]: class [RollingVWAP] *)

Module RollingVWAP.
Import Js.

(** A stored candle, as built by [initialize] and [updateCandle]. *)
Record Candle := mkCandle {
  start : Z;
  high : Q;
  low : Q;
  close : Q;
  volume : Q;
  typicalPrice : Q;
  priceVolume : Q
}.

(** A candle message of the feed, after [parseInt] / [parseFloat]. *)
Record CandleMsg := mkCandleMsg {
  m_start : Z;
  m_high : Q;
  m_low : Q;
  m_close : Q;
  m_volume : Q
}.

Record DeviationSnapshot := mkSnapshot {
  timestamp : Z;
  price : Q;
  vwap : Q;
  deviation : Q;
  deviationPercent : Q
}.

(** The fields of the object.  [candles] is the [Map] keyed by start
    timestamp, kept as its entries in insertion order with unique keys. *)
Record t := mkState {
  windowHours : Q;
  deviationHistoryWindowHours : Q;
  candleIntervalSeconds : Q;
  maxCandles : Q;
  candles : list (Z * Candle);
  totalPriceVolume : Q;
  totalVolume : Q;
  currentVWAP : option Q;
  currentPrice : option Q;
  lastUpdate : option Z;
  currentCandleStart : option Z;
  deviationHistory : list DeviationSnapshot
}.

(** [constructor(productId, windowHours = 12, deviationHistoryWindowHours = 72)] *)
Definition new (windowHours deviationHistoryWindowHours : Q) : t :=
  {| windowHours := windowHours;
     deviationHistoryWindowHours := deviationHistoryWindowHours;
     candleIntervalSeconds := 300;
     maxCandles := (windowHours * 60 * 60) / 300;  (* / candleIntervalSeconds *)
     candles := [];
     totalPriceVolume := 0;
     totalVolume := 0;
     currentVWAP := None;
     currentPrice := None;
     lastUpdate := None;
     currentCandleStart := None;
     deviationHistory := [] |}.

(** *** Field updates *)

Definition with_candles (cs : list (Z * Candle)) (v : t) : t :=
  {| windowHours := windowHours v;
     deviationHistoryWindowHours := deviationHistoryWindowHours v;
     candleIntervalSeconds := candleIntervalSeconds v;
     maxCandles := maxCandles v;
     candles := cs;
     totalPriceVolume := totalPriceVolume v;
     totalVolume := totalVolume v;
     currentVWAP := currentVWAP v;
     currentPrice := currentPrice v;
     lastUpdate := lastUpdate v;
     currentCandleStart := currentCandleStart v;
     deviationHistory := deviationHistory v |}.

Definition with_totals (tpv tv : Q) (v : t) : t :=
  {| windowHours := windowHours v;
     deviationHistoryWindowHours := deviationHistoryWindowHours v;
     candleIntervalSeconds := candleIntervalSeconds v;
     maxCandles := maxCandles v;
     candles := candles v;
     totalPriceVolume := tpv;
     totalVolume := tv;
     currentVWAP := currentVWAP v;
     currentPrice := currentPrice v;
     lastUpdate := lastUpdate v;
     currentCandleStart := currentCandleStart v;
     deviationHistory := deviationHistory v |}.

Definition with_currentVWAP (w : option Q) (v : t) : t :=
  {| windowHours := windowHours v;
     deviationHistoryWindowHours := deviationHistoryWindowHours v;
     candleIntervalSeconds := candleIntervalSeconds v;
     maxCandles := maxCandles v;
     candles := candles v;
     totalPriceVolume := totalPriceVolume v;
     totalVolume := totalVolume v;
     currentVWAP := w;
     currentPrice := currentPrice v;
     lastUpdate := lastUpdate v;
     currentCandleStart := currentCandleStart v;
     deviationHistory := deviationHistory v |}.

Definition with_current (p : option Q) (cs : option Z) (lu : option Z) (v : t) : t :=
  {| windowHours := windowHours v;
     deviationHistoryWindowHours := deviationHistoryWindowHours v;
     candleIntervalSeconds := candleIntervalSeconds v;
     maxCandles := maxCandles v;
     candles := candles v;
     totalPriceVolume := totalPriceVolume v;
     totalVolume := totalVolume v;
     currentVWAP := currentVWAP v;
     currentPrice := p;
     lastUpdate := lu;
     currentCandleStart := cs;
     deviationHistory := deviationHistory v |}.

Definition with_deviationHistory (h : list DeviationSnapshot) (v : t) : t :=
  {| windowHours := windowHours v;
     deviationHistoryWindowHours := deviationHistoryWindowHours v;
     candleIntervalSeconds := candleIntervalSeconds v;
     maxCandles := maxCandles v;
     candles := candles v;
     totalPriceVolume := totalPriceVolume v;
     totalVolume := totalVolume v;
     currentVWAP := currentVWAP v;
     currentPrice := currentPrice v;
     lastUpdate := lastUpdate v;
     currentCandleStart := currentCandleStart v;
     deviationHistory := h |}.

(** *** The [Map] of candles *)

Definition mapHas (k : Z) (m : list (Z * Candle)) : bool :=
  existsb (fun e => (fst e =? k)%Z) m.

Fixpoint mapGet (k : Z) (m : list (Z * Candle)) : option Candle :=
  match m with
  | [] => None
  | (k', c) :: rest => if (k' =? k)%Z then Some c else mapGet k rest
  end.

(** [Map.prototype.set]: an existing key keeps its place in the
    insertion order, a new key goes last. *)
Fixpoint mapSet (k : Z) (c : Candle) (m : list (Z * Candle)) : list (Z * Candle) :=
  match m with
  | [] => [(k, c)]
  | (k', c') :: rest =>
      if (k' =? k)%Z then (k, c) :: rest else (k', c') :: mapSet k c rest
  end.

Definition mapDelete (k : Z) (m : list (Z * Candle)) : list (Z * Candle) :=
  filter (fun e => negb (fst e =? k)%Z) m.

(** [Math.min(...keys)]; [None] stands for [Infinity] (no key). *)
Fixpoint minKey (ks : list Z) : option Z :=
  match ks with
  | [] => None
  | k :: rest =>
      match minKey rest with
      | None => Some k
      | Some m => Some (Z.min k m)
      end
  end.

(** [Math.floor(Date.now() / 1000)] *)
Definition nowSeconds (nowMs : Z) : Z := (nowMs / 1000)%Z.

(** *** [updateStats] *)

Definition vwapOf (tpv tv : Q) : option Q :=
  if Qltb 0 tv then Some (tpv / tv) else None.

Definition updateStats (v : t) : t :=
  with_currentVWAP (vwapOf (totalPriceVolume v) (totalVolume v)) v.

(** *** [removeOldCandles] *)

(** The body of both removal loops: subtract the candle from the running
    totals and delete its key.  The subtraction is exact here; the [-=]
    of the source rounds ([Double.dropCandle]). *)
Definition dropCandle (k : Z) (c : Candle) (v : t) : t :=
  with_candles (mapDelete k (candles v))
    (with_totals (totalPriceVolume v - priceVolume c)
                 (totalVolume v - volume c) v).

(** [for (const [start, candle] of this.candles) if (start < cutoffTime) ...]
    over the entries [es] still to be visited. *)
Fixpoint evictExpired (cutoffTime : Q) (es : list (Z * Candle)) (v : t) : t :=
  match es with
  | [] => v
  | (k, c) :: rest =>
      if Qltb (inject_Z k) cutoffTime
      then evictExpired cutoffTime rest (dropCandle k c v)
      else evictExpired cutoffTime rest v
  end.

(** [while (this.candles.size > this.maxCandles) ...].  Every iteration
    deletes one key, so the size of the map bounds the number of
    iterations ([fuel]).  [None] is the [TypeError] of reading
    [oldCandle.priceVolume] when [candles.get] gave [undefined]. *)
Fixpoint enforceMaxCandles (fuel : nat) (v : t) : option t :=
  if Qltb (maxCandles v) (inject_Z (Z.of_nat (length (candles v)))) then
    match fuel with
    | O => None
    | S fuel' =>
        match minKey (map fst (candles v)) with
        | None => None
        | Some oldestStart =>
            match mapGet oldestStart (candles v) with
            | None => None
            | Some oldCandle =>
                enforceMaxCandles fuel' (dropCandle oldestStart oldCandle v)
            end
        end
    end
  else Some v.

Definition pruneHistory (cutoffTime : Q) (h : list DeviationSnapshot) :
  list DeviationSnapshot :=
  filter (fun entry => negb (Qltb (inject_Z (timestamp entry)) cutoffTime)) h.

Definition removeOldCandles (nowMs : Z) (v : t) : option t :=
  let now := nowSeconds nowMs in
  let cutoffTime := inject_Z now - windowHours v * 60 * 60 in
  let v1 := evictExpired cutoffTime (candles v) v in
  match enforceMaxCandles (length (candles v1)) v1 with
  | None => None
  | Some v2 =>
      let deviationCutoffTime :=
        inject_Z now - deviationHistoryWindowHours v2 * 60 * 60 in
      Some (with_deviationHistory
              (pruneHistory deviationCutoffTime (deviationHistory v2)) v2)
  end.

(** *** [recordDeviation] *)

(** [findIndex(d => d.timestamp === candleTimestamp)] *)
Fixpoint findIndex (ts : Z) (h : list DeviationSnapshot) : option nat :=
  match h with
  | [] => None
  | d :: rest =>
      if (timestamp d =? ts)%Z then Some O
      else option_map S (findIndex ts rest)
  end.

Fixpoint setAt {A : Type} (i : nat) (x : A) (l : list A) : list A :=
  match l, i with
  | [], _ => []
  | _ :: rest, O => x :: rest
  | y :: rest, S i' => y :: setAt i' x rest
  end.

(** [sort((a, b) => a.timestamp - b.timestamp)]: a stable sort, written
    as an insertion sort (an element stays before the later ones that
    compare equal to it). *)
Fixpoint insertByTimestamp (d : DeviationSnapshot) (l : list DeviationSnapshot) :
  list DeviationSnapshot :=
  match l with
  | [] => [d]
  | e :: rest =>
      if (timestamp d <=? timestamp e)%Z then d :: e :: rest
      else e :: insertByTimestamp d rest
  end.

Definition sortByTimestamp (l : list DeviationSnapshot) : list DeviationSnapshot :=
  fold_right insertByTimestamp [] l.

Definition recordDeviation (nowMs : Z) (v : t) : t :=
  if negb (truthyQ (currentVWAP v)) || negb (truthyQ (currentPrice v))
     || negb (truthyZ (currentCandleStart v))
  then v
  else
    match currentVWAP v, currentPrice v, currentCandleStart v with
    | Some vw, Some p, Some candleTimestamp =>
        let deviation := p - vw in
        let deviationPercent := (deviation / vw) * 100 in
        let existingIndex := findIndex candleTimestamp (deviationHistory v) in
        let snapshot :=
          {| timestamp := candleTimestamp; price := p; vwap := vw;
             deviation := deviation; deviationPercent := deviationPercent |} in
        let h1 :=
          match existingIndex with
          | Some i => setAt i snapshot (deviationHistory v)
          | None => sortByTimestamp (deviationHistory v ++ [snapshot])
          end in
        let now := nowSeconds nowMs in
        let cutoffTime := inject_Z now - deviationHistoryWindowHours v * 60 * 60 in
        with_deviationHistory (pruneHistory cutoffTime h1) v
    | _, _, _ => v
    end.

(** *** [updateCandle] *)

(** [None] is a [TypeError] of [removeOldCandles].  The additions and
    subtractions on the running totals are exact here; the [+=] and [-=]
    of the source round ([Double.updateCandle]). *)
Definition updateCandle (candle : CandleMsg) (nowMs : Z) (v : t) : option t :=
  let start := m_start candle in
  let high := m_high candle in
  let low := m_low candle in
  let close := m_close candle in
  let volume := m_volume candle in
  let typicalPrice := (high + low + close) / 3 in
  let priceVolume := typicalPrice * volume in
  let removed :=
    if mapHas start (candles v) then
      match mapGet start (candles v) with
      | Some oldCandle =>
          Some (with_totals (totalPriceVolume v - RollingVWAP.priceVolume oldCandle)
                            (totalVolume v - RollingVWAP.volume oldCandle) v)
      | None => None
      end
    else removeOldCandles nowMs v in
  match removed with
  | None => None
  | Some v1 =>
      let v2 :=
        with_candles
          (mapSet start
             {| start := start; high := high; low := low; close := close;
                volume := volume; typicalPrice := typicalPrice;
                priceVolume := priceVolume |}
             (candles v1)) v1 in
      let v3 := with_totals (totalPriceVolume v2 + priceVolume)
                            (totalVolume v2 + volume) v2 in
      let v4 := with_current (Some close) (Some start) (Some nowMs) v3 in
      let v5 := updateStats v4 in
      Some (recordDeviation nowMs v5)
  end.

(** *** [updatePrice], [getDeviation], [getDeviationPercent], [getStatus] *)

Definition updatePrice (price : Q) (nowMs : Z) (v : t) : t :=
  with_current (Some price) (currentCandleStart v) (Some nowMs) v.

Definition getDeviation (v : t) : option Q :=
  if negb (truthyQ (currentVWAP v)) || negb (truthyQ (currentPrice v)) then None
  else
    match currentVWAP v, currentPrice v with
    | Some vw, Some p => Some (p - vw)
    | _, _ => None
    end.

Definition getDeviationPercent (v : t) : option Q :=
  if negb (truthyQ (currentVWAP v)) || negb (truthyQ (currentPrice v)) then None
  else
    match currentVWAP v, currentPrice v with
    | Some vw, Some p => Some (((p - vw) / vw) * 100)
    | _, _ => None
    end.

Inductive Status := above | below.

Definition getStatus (v : t) : option Status :=
  match getDeviation v with
  | None => None
  | Some d => Some (if Qltb 0 d then above else below)
  end.

(** *** [getDeviationStats] *)

(** [[...xs].sort((a, b) => a - b)]: a stable numeric sort. *)
Fixpoint insertAscending (x : Q) (l : list Q) : list Q :=
  match l with
  | [] => [x]
  | y :: rest =>
      if Qle_bool x y then x :: y :: rest else y :: insertAscending x rest
  end.

Definition sortAscending (l : list Q) : list Q :=
  fold_right insertAscending [] l.

(** [arr[i]] for an integer index: [undefined] outside the array. *)
Definition arrayAt (arr : list Q) (i : Z) : value :=
  if (i <? 0)%Z then Undefined
  else
    match nth_error arr (Z.to_nat i) with
    | Some x => Num x
    | None => Undefined
    end.

(** The local function [percentile] of [getDeviationStats]. *)
Definition percentile (arr : list Q) (p : Q) : value :=
  if (length arr =? 0)%nat then Null
  else
    let index := Qfloor ((p / 100) * inject_Z (Z.of_nat (length arr))) in
    arrayAt arr (Z.min index (Z.of_nat (length arr) - 1)).

Record DeviationStats := mkDeviationStats {
  count : Z;
  min : Q;
  max : Q;
  minPercent : Q;
  maxPercent : Q;
  average : Q;
  averagePercent : Q;
  percentile1 : value;
  percentile5 : value;
  percentile10 : value;
  percentile90 : value;
  percentile95 : value;
  percentile99 : value;
  percentile1Percent : value;
  percentile5Percent : value;
  percentile10Percent : value;
  percentile90Percent : value;
  percentile95Percent : value;
  percentile99Percent : value;
  currentPercentile : option Q
}.

Definition sum (l : list Q) : Q := fold_left Qplus l 0.

Definition lengthQ {A : Type} (l : list A) : Q := inject_Z (Z.of_nat (length l)).

Definition getDeviationStats (v : t) : option DeviationStats :=
  match deviationHistory v with
  | [] => None
  | d0 :: ds =>
      let deviations := map deviation (deviationHistory v) in
      let deviationPercents := map deviationPercent (deviationHistory v) in
      let sortedDeviations := sortAscending deviations in
      let sortedPercentDeviations := sortAscending deviationPercents in
      let currentDeviation := getDeviation v in
      let currentPercentile :=
        match currentDeviation with
        | Some cur =>
            Some ((lengthQ (filter (fun d => Qle_bool d cur) sortedDeviations)
                   / lengthQ sortedDeviations) * 100)
        | None => None
        end in
      Some
        {| count := Z.of_nat (length (deviationHistory v));
           min := fold_left Qmin (map deviation ds) (deviation d0);
           max := fold_left Qmax (map deviation ds) (deviation d0);
           minPercent := fold_left Qmin (map deviationPercent ds) (deviationPercent d0);
           maxPercent := fold_left Qmax (map deviationPercent ds) (deviationPercent d0);
           average := sum deviations / lengthQ deviations;
           averagePercent := sum deviationPercents / lengthQ deviationPercents;
           percentile1 := percentile sortedDeviations 1;
           percentile5 := percentile sortedDeviations 5;
           percentile10 := percentile sortedDeviations 10;
           percentile90 := percentile sortedDeviations 90;
           percentile95 := percentile sortedDeviations 95;
           percentile99 := percentile sortedDeviations 99;
           percentile1Percent := percentile sortedPercentDeviations 1;
           percentile5Percent := percentile sortedPercentDeviations 5;
           percentile10Percent := percentile sortedPercentDeviations 10;
           percentile90Percent := percentile sortedPercentDeviations 90;
           percentile95Percent := percentile sortedPercentDeviations 95;
           percentile99Percent := percentile sortedPercentDeviations 99;
           currentPercentile := currentPercentile |}
  end.

(** *** [getStats] *)

Record HistoryBlock := mkHistoryBlock {
  h_count : Z;
  stats : option DeviationStats;
  data : list DeviationSnapshot
}.

(** The object returned by [getStats] (the constant [productId] is left
    out).  The field names of the source that clash with those of the
    state carry the prefix [s_]. *)
Record Stats := mkStats {
  s_vwap : option Q;
  s_currentPrice : option Q;
  s_deviation : option Q;
  s_deviationPercent : option Q;
  s_status : option Status;
  s_totalCandles : Z;
  s_totalVolume : Q;
  s_lastUpdate : option Z;
  s_windowHours : Q;
  s_deviationHistory : HistoryBlock
}.

Definition getStats (v : t) : Stats :=
  let deviationStats := getDeviationStats v in
  {| s_vwap := currentVWAP v;
     s_currentPrice := currentPrice v;
     s_deviation := getDeviation v;
     s_deviationPercent := getDeviationPercent v;
     s_status := getStatus v;
     s_totalCandles := Z.of_nat (length (candles v));
     s_totalVolume := totalVolume v;
     s_lastUpdate := lastUpdate v;
     s_windowHours := windowHours v;
     s_deviationHistory :=
       {| h_count := Z.of_nat (length (deviationHistory v));
          stats := deviationStats;
          data := deviationHistory v |} |}.

(** *** [initializeDeviationHistory] *)

(** [allCandles.sort((a, b) => a.start - b.start)] *)
Fixpoint insertByStart (c : CandleMsg) (l : list CandleMsg) : list CandleMsg :=
  match l with
  | [] => [c]
  | e :: rest =>
      if (m_start c <=? m_start e)%Z then c :: e :: rest
      else e :: insertByStart c rest
  end.

Definition sortByStart (l : list CandleMsg) : list CandleMsg :=
  fold_right insertByStart [] l.

(** The inner loop [for (j = 0; j <= i; j++)] over [sortedCandles[0..i]]:
    the sums of the candles inside the VWAP window ending at
    [candleStart]. *)
Definition windowSums (windowStart : Q) (candleStart : Z) (upTo : list CandleMsg) :
  Q * Q :=
  fold_left
    (fun (acc : Q * Q) (windowCandle : CandleMsg) =>
       let windowCandleStart := m_start windowCandle in
       if Qle_bool windowStart (inject_Z windowCandleStart)
          && (windowCandleStart <=? candleStart)%Z
       then
         let typicalPrice :=
           (m_high windowCandle + m_low windowCandle + m_close windowCandle) / 3 in
         (fst acc + typicalPrice * m_volume windowCandle,
          snd acc + m_volume windowCandle)
       else acc)
    upTo (0, 0).

(** The outer loop, at index [i = length seen], over the candles [todo]
    still to be processed; [h] is the history pushed so far.  A
    [vwapAtMoment] of [0] passes the test [!== null]; the quotient by it
    is [NaN] or an infinity in the source, which a rational cannot hold
    (the quotient is [0] here): that case is evaluated on
    [Double.backfill]. *)
Fixpoint backfill (windowHours historyStartTime : Q)
  (seen todo : list CandleMsg) (h : list DeviationSnapshot) :
  list DeviationSnapshot :=
  match todo with
  | [] => h
  | candle :: rest =>
      let candleStart := m_start candle in
      let candleClose := m_close candle in
      let upTo := seen ++ [candle] in
      if Qltb (inject_Z candleStart) historyStartTime
      then backfill windowHours historyStartTime upTo rest h
      else
        let windowStart := inject_Z candleStart - windowHours * 60 * 60 in
        let '(windowPriceVolume, windowVolume) :=
          windowSums windowStart candleStart upTo in
        let vwapAtMoment :=
          if Qltb 0 windowVolume
          then Some (windowPriceVolume / windowVolume) else None in
        match vwapAtMoment with
        | Some vw =>
            let deviation := candleClose - vw in
            let deviationPercent := (deviation / vw) * 100 in
            backfill windowHours historyStartTime upTo rest
              (h ++ [ {| timestamp := candleStart; price := candleClose;
                         vwap := vw; deviation := deviation;
                         deviationPercent := deviationPercent |} ])
        | None => backfill windowHours historyStartTime upTo rest h
        end
  end.

Definition initializeDeviationHistory (allCandles : list CandleMsg) (nowMs : Z)
  (v : t) : t :=
  let sortedCandles := sortByStart allCandles in
  let now := nowSeconds nowMs in
  let historyStartTime := inject_Z now - deviationHistoryWindowHours v * 60 * 60 in
  let h := backfill (windowHours v) historyStartTime [] sortedCandles [] in
  with_deviationHistory (sortByTimestamp h) v.

(** *** [initialize] *)

(** The body of [sortedCandles.forEach]: store the candle under its
    start and add it to the running totals. *)
Definition addHistorical (v : t) (candle : CandleMsg) : t :=
  let start := m_start candle in
  let high := m_high candle in
  let low := m_low candle in
  let close := m_close candle in
  let volume := m_volume candle in
  let typicalPrice := (high + low + close) / 3 in
  let v1 :=
    with_candles
      (mapSet start
         {| start := start; high := high; low := low; close := close;
            volume := volume; typicalPrice := typicalPrice;
            priceVolume := typicalPrice * volume |}
         (candles v)) v in
  with_totals (totalPriceVolume v1 + typicalPrice * volume)
              (totalVolume v1 + volume) v1.

Definition initialize (historical : list CandleMsg) (nowMs : Z) (v : t) : t :=
  let v0 := with_totals 0 0 (with_candles [] v) in
  let sortedCandles := sortByStart historical in
  let v1 := fold_left addHistorical sortedCandles v0 in
  let v2 :=
    match sortedCandles with
    | [] => v1
    | first :: _ =>
        let latestCandle := last sortedCandles first in
        with_current (Some (m_close latestCandle)) (Some (m_start latestCandle))
          (Some nowMs) v1
    end in
  updateStats v2.

(** *** Sequences of method calls, and the VWAP recomputed from scratch *)

(** The calls that the tracker makes on the object once it is live. *)
Inductive Call :=
| CallUpdateCandle (candle : CandleMsg) (nowMs : Z)
| CallRemoveOldCandles (nowMs : Z)
| CallUpdateStats
| CallUpdatePrice (price : Q) (nowMs : Z)
| CallRecordDeviation (nowMs : Z).

Definition call (c : Call) (v : t) : option t :=
  match c with
  | CallUpdateCandle candle nowMs => updateCandle candle nowMs v
  | CallRemoveOldCandles nowMs => removeOldCandles nowMs v
  | CallUpdateStats => Some (updateStats v)
  | CallUpdatePrice price nowMs => Some (updatePrice price nowMs v)
  | CallRecordDeviation nowMs => Some (recordDeviation nowMs v)
  end.

(** The calls of [cs] in order; [None] as soon as one of them throws. *)
Fixpoint calls (cs : list Call) (v : t) : option t :=
  match cs with
  | [] => Some v
  | c :: rest =>
      match call c v with
      | Some v' => calls rest v'
      | None => None
      end
  end.

(** The sum of [f] over the retained candles. *)
Definition sumOver (f : Candle -> Q) (m : list (Z * Candle)) : Q :=
  fold_right (fun e acc => f (snd e) + acc) 0 m.

(** The contribution of a bar, from its raw fields. *)
Definition barPriceVolume (c : Candle) : Q :=
  ((high c + low c + close c) / 3) * volume c.

(** The VWAP of the retained bars, recomputed from their raw fields. *)
Definition vwapFromScratch (m : list (Z * Candle)) : option Q :=
  vwapOf (sumOver barPriceVolume m) (sumOver volume m).

(** *** The representation invariant *)

(** Keys of the map. *)
Definition keys (m : list (Z * Candle)) : list Z := map fst m.

(** A stored candle carries the products of its own raw fields. *)
Definition wellStored (e : Z * Candle) : Prop :=
  priceVolume (snd e) == barPriceVolume (snd e).

(** The representation invariant of the object: unique keys, well-stored
    candles, and running totals equal to the sums over the retained
    candles. *)
Record Consistent (v : t) : Prop := mkConsistent {
  cons_keys : NoDup (keys (candles v));
  cons_stored : Forall wellStored (candles v);
  cons_pv : totalPriceVolume v == sumOver priceVolume (candles v);
  cons_vol : totalVolume v == sumOver volume (candles v)
}.

(** A snapshot whose VWAP is not [0]. *)
Definition nonzeroVwap (d : DeviationSnapshot) : Prop := ~ vwap d == 0.

(** The VWAP or the current price is [null] or exactly [0]. *)
Definition guarded (v : t) : Prop :=
  currentVWAP v = None \/ (exists w, currentVWAP v = Some w /\ w == 0) \/
  currentPrice v = None \/ (exists p, currentPrice v = Some p /\ p == 0).

(** *** Predicates on the window and on the deviation history *)

(** [now - hours * 60 * 60] for the clock value [nowMs]. *)
Definition cutoffTime (hours : Q) (nowMs : Z) : Q :=
  inject_Z (nowSeconds nowMs) - hours * 60 * 60.

(** The deviation history is in strictly ascending order of timestamp:
    sorted, with at most one snapshot per timestamp. *)
Definition ascendingHistory (h : list DeviationSnapshot) : Prop :=
  StronglySorted (fun a b => (timestamp a < timestamp b)%Z) h.

(** The snapshot that [recordDeviation] builds from the current fields. *)
Definition currentSnapshot (v : t) : option DeviationSnapshot :=
  match currentVWAP v, currentPrice v, currentCandleStart v with
  | Some vw, Some p, Some ts =>
      Some {| timestamp := ts; price := p; vwap := vw; deviation := p - vw;
              deviationPercent := ((p - vw) / vw) * 100 |}
  | _, _, _ => None
  end.

(** A bar with a volume that is not negative and prices whose sum is
    positive. *)
Definition positiveBar (c : CandleMsg) : Prop :=
  0 <= m_volume c /\ 0 < m_high c + m_low c + m_close c.

(** What a snapshot of the backfill at the cut-off [historyStartTime]
    satisfies when it comes from the bars [input]. *)
Definition soundSnapshot (historyStartTime : Q) (input : list CandleMsg)
  (d : DeviationSnapshot) : Prop :=
  0 < vwap d /\
  deviation d = price d - vwap d /\
  deviationPercent d = (deviation d / vwap d) * 100 /\
  historyStartTime <= inject_Z (timestamp d) /\
  exists c : CandleMsg,
    In c input /\ timestamp d = m_start c /\ price d = m_close c.

(** The sums of a list of bars, from their raw fields. *)
Definition sumBarPriceVolume (l : list CandleMsg) : Q :=
  fold_right
    (fun c acc => ((m_high c + m_low c + m_close c) / 3) * m_volume c + acc) 0 l.

Definition sumBarVolume (l : list CandleMsg) : Q :=
  fold_right (fun c acc => m_volume c + acc) 0 l.

End RollingVWAP.

(** ** [calculate-vwap.js] *)

Module CalculateVWAP.
Import Js.

(** [calculateVWAP(candles)]; [None] as argument is a missing array. *)
Definition calculateVWAP (candles : option (list RollingVWAP.CandleMsg)) : option Q :=
  match candles with
  | None => None
  | Some cs =>
      if (length cs =? 0)%nat then None
      else
        let '(totalPriceVolume, totalVolume) :=
          fold_left
            (fun (acc : Q * Q) (candle : RollingVWAP.CandleMsg) =>
               let low := RollingVWAP.m_low candle in
               let high := RollingVWAP.m_high candle in
               let close := RollingVWAP.m_close candle in
               let volume := RollingVWAP.m_volume candle in
               let typicalPrice := (high + low + close) / 3 in
               (fst acc + typicalPrice * volume, snd acc + volume))
            cs (0, 0) in
        if Qeq_bool totalVolume 0 then None
        else Some (totalPriceVolume / totalVolume)
  end.

End CalculateVWAP.

(** ** [strategy.js]: class [Strategy] *)

Module Strategy.
Import Js.

Inductive Side := long | short.
Inductive Level := Long1 | Long2 | Short1 | Short2.

(** The strings of the [action] field; the field itself is nullable. *)
Inductive Action := enter | add | close | none.
Inductive ExitType := stop_loss | take_profit | manual.

(** The [reason] template of each return statement (the formatted numbers
    are not kept). *)
Inductive Reason :=
| WaitingForNeutralReentry
| InsufficientDeviationHistory
| Short1Condition
| Long1Condition
| NoEntryConditionsMet
| Short2Condition
| Long2Condition
| NoAddConditionsMet
| NoPositionToExit
| TakeProfit
| StopLossAbsoluteShort
| StopLossAbsoluteLong
| NoExitConditionsMet
| KillSwitch
| TrackerRestart.

Record Signal := mkSignal {
  action : option Action;
  type : option Side;
  level : option Level;
  exitType : option ExitType;
  reason : Reason
}.

(** The fields of a position object that the strategy reads. *)
Record Position := mkPosition {
  p_type : option Side;
  totalContractCount : Z;
  entryLevels : list (option Level)
}.

Record t := mkStrategy {
  SHORT1_THRESHOLD_PERCENT : Q;
  SHORT2_THRESHOLD_PERCENT : Q;
  LONG1_THRESHOLD_PERCENT : Q;
  LONG2_THRESHOLD_PERCENT : Q;
  TAKE_PROFIT_THRESHOLD : Q;
  SHORT_STOP_LOSS_ABSOLUTE : Q;
  LONG_STOP_LOSS_ABSOLUTE : Q;
  NEUTRAL_MIN : Q;
  NEUTRAL_MAX : Q;
  waitingForNeutralReentry : option Side
}.

Definition new : t :=
  {| SHORT1_THRESHOLD_PERCENT := 0.6;
     SHORT2_THRESHOLD_PERCENT := 0.75;
     LONG1_THRESHOLD_PERCENT := -0.75;
     LONG2_THRESHOLD_PERCENT := -0.9;
     TAKE_PROFIT_THRESHOLD := 0.1;
     SHORT_STOP_LOSS_ABSOLUTE := 2.25;
     LONG_STOP_LOSS_ABSOLUTE := -2.4;
     NEUTRAL_MIN := -0.75;
     NEUTRAL_MAX := 0.6;
     waitingForNeutralReentry := None |}.

(** [this.waitingForNeutralReentry = w] *)
Definition with_waiting (w : option Side) (s : t) : t :=
  {| SHORT1_THRESHOLD_PERCENT := SHORT1_THRESHOLD_PERCENT s;
     SHORT2_THRESHOLD_PERCENT := SHORT2_THRESHOLD_PERCENT s;
     LONG1_THRESHOLD_PERCENT := LONG1_THRESHOLD_PERCENT s;
     LONG2_THRESHOLD_PERCENT := LONG2_THRESHOLD_PERCENT s;
     TAKE_PROFIT_THRESHOLD := TAKE_PROFIT_THRESHOLD s;
     SHORT_STOP_LOSS_ABSOLUTE := SHORT_STOP_LOSS_ABSOLUTE s;
     LONG_STOP_LOSS_ABSOLUTE := LONG_STOP_LOSS_ABSOLUTE s;
     NEUTRAL_MIN := NEUTRAL_MIN s;
     NEUTRAL_MAX := NEUTRAL_MAX s;
     waitingForNeutralReentry := w |}.

(** [deviation >= x] and [deviation <= x] for the nullable [deviation]. *)
Definition geq (deviation : option Q) (x : Q) : bool :=
  Qle_bool x (toNumber deviation).

Definition leq (deviation : option Q) (x : Q) : bool :=
  Qle_bool (toNumber deviation) x.

Definition level_eqb (a b : Level) : bool :=
  match a, b with
  | Long1, Long1 | Long2, Long2 | Short1, Short1 | Short2, Short2 => true
  | _, _ => false
  end.

(** [entryLevels.includes(l)] *)
Definition includes (l : Level) (levels : list (option Level)) : bool :=
  existsb (fun x => match x with Some y => level_eqb y l | None => false end) levels.

(** A return statement whose [reason] formats [deviation] with
    [toFixed]. *)
Definition returning (deviation : option Q) (sig : Signal) : completion Signal :=
  match toFixed deviation with
  | Normal _ => Normal sig
  | TypeError => TypeError
  end.

(** [evaluateEntry] from the test [if (!percentiles)] on: the evaluation
    proper, which does not touch the reentry flag. *)
Definition evaluateEntryNormal (st : RollingVWAP.Stats)
  (currentPosition : option Position) (s : t) : completion Signal :=
  let deviation := RollingVWAP.s_deviationPercent st in
  let percentiles := RollingVWAP.stats (RollingVWAP.s_deviationHistory st) in
  match percentiles with
  | None => Normal (mkSignal None None None None InsufficientDeviationHistory)
  | Some pc =>
      let p90 := orZero (RollingVWAP.percentile90Percent pc) in
      let p95 := orZero (RollingVWAP.percentile95Percent pc) in
      let p10 := orZero (RollingVWAP.percentile10Percent pc) in
      let p5 := orZero (RollingVWAP.percentile5Percent pc) in
      match currentPosition with
      | None =>
          let short1Threshold := Qmax p90 (SHORT1_THRESHOLD_PERCENT s) in
          if geq deviation short1Threshold then
            returning deviation
              (mkSignal (Some enter) (Some short) (Some Short1) None Short1Condition)
          else
            let long1Threshold := Qmin p10 (LONG1_THRESHOLD_PERCENT s) in
            if leq deviation long1Threshold then
              returning deviation
                (mkSignal (Some enter) (Some long) (Some Long1) None Long1Condition)
            else Normal (mkSignal None None None None NoEntryConditionsMet)
      | Some pos =>
          let noAdd := Normal (mkSignal None None None None NoAddConditionsMet) in
          match p_type pos with
          | Some short =>
              if (totalContractCount pos =? 1)%Z && includes Short1 (entryLevels pos)
              then
                let short2Threshold := Qmax p95 (SHORT2_THRESHOLD_PERCENT s) in
                if geq deviation short2Threshold then
                  returning deviation
                    (mkSignal (Some add) (Some short) (Some Short2) None Short2Condition)
                else noAdd
              else noAdd
          | Some long =>
              if (totalContractCount pos =? 1)%Z && includes Long1 (entryLevels pos)
              then
                let long2Threshold := Qmin p5 (LONG2_THRESHOLD_PERCENT s) in
                if leq deviation long2Threshold then
                  returning deviation
                    (mkSignal (Some add) (Some long) (Some Long2) None Long2Condition)
                else noAdd
              else noAdd
          | None => noAdd
          end
      end
  end.

(** [evaluateEntry(stats, currentPosition)]: the outcome of the call and
    the strategy object after it. *)
Definition evaluateEntry (st : RollingVWAP.Stats)
  (currentPosition : option Position) (s : t) : completion Signal * t :=
  let deviation := RollingVWAP.s_deviationPercent st in
  match waitingForNeutralReentry s with
  | Some _ =>
      if geq deviation (NEUTRAL_MIN s) && leq deviation (NEUTRAL_MAX s) then
        let s' := with_waiting None s in
        match toFixed deviation with
        | Normal _ => (evaluateEntryNormal st currentPosition s', s')
        | TypeError => (TypeError, s')
        end
      else
        (returning deviation
           (mkSignal (Some none) None None None WaitingForNeutralReentry), s)
  | None => (evaluateEntryNormal st currentPosition s, s)
  end.

(** [evaluateExit(stats, currentPosition)] *)
Definition evaluateExit (st : RollingVWAP.Stats)
  (currentPosition : option Position) (s : t) : completion Signal * t :=
  match currentPosition with
  | None => (Normal (mkSignal None None None None NoPositionToExit), s)
  | Some pos =>
      let deviation := RollingVWAP.s_deviationPercent st in
      let percentiles := RollingVWAP.stats (RollingVWAP.s_deviationHistory st) in
      match percentiles with
      | None => (Normal (mkSignal None None None None InsufficientDeviationHistory), s)
      | Some _ =>
          if Qltb (Qabs (toNumber deviation)) (TAKE_PROFIT_THRESHOLD s) then
            (Normal (mkSignal (Some close) None None (Some take_profit) TakeProfit), s)
          else
            let noExit := (Normal (mkSignal None None None None NoExitConditionsMet), s) in
            match p_type pos with
            | Some short =>
                let absoluteStop := geq deviation (SHORT_STOP_LOSS_ABSOLUTE s) in
                if absoluteStop then
                  (returning deviation
                     (mkSignal (Some close) None None (Some stop_loss)
                        StopLossAbsoluteShort),
                   with_waiting (Some short) s)
                else noExit
            | Some long =>
                let absoluteStop := leq deviation (LONG_STOP_LOSS_ABSOLUTE s) in
                if absoluteStop then
                  (returning deviation
                     (mkSignal (Some close) None None (Some stop_loss)
                        StopLossAbsoluteLong),
                   with_waiting (Some long) s)
                else noExit
            | None => noExit
            end
      end
  end.

(** *** Sequences of calls on one strategy object *)

Inductive Call :=
| CallEntry (st : RollingVWAP.Stats) (currentPosition : option Position)
| CallExit (st : RollingVWAP.Stats) (currentPosition : option Position).

Definition call (c : Call) (s : t) : completion Signal * t :=
  match c with
  | CallEntry st currentPosition => evaluateEntry st currentPosition s
  | CallExit st currentPosition => evaluateExit st currentPosition s
  end.

(** The outcomes of the calls of [cs] in order, and the object after the
    last one. *)
Fixpoint calls (cs : list Call) (s : t) : list (completion Signal) * t :=
  match cs with
  | [] => ([], s)
  | c :: rest =>
      let '(r, s1) := call c s in
      let '(rs, s2) := calls rest s1 in
      (r :: rs, s2)
  end.

(** The signal of a call blocked by the reentry flag. *)
Definition blocked : Signal :=
  mkSignal (Some none) None None None WaitingForNeutralReentry.

(** An [evaluateEntry] call whose deviation is a number outside the
    neutral band of the default parameters. *)
Definition outsideBand (c : Call) : Prop :=
  match c with
  | CallEntry st _ =>
      exists d : Q,
        RollingVWAP.s_deviationPercent st = Some d /\ (d < -0.75 \/ 0.6 < d)
  | CallExit _ _ => True
  end.

(** What the claim says of the outcome [r] of a call made while the flag
    is set. *)
Definition blockedOutcome (c : Call) (r : completion Signal) : Prop :=
  match c with
  | CallEntry _ _ => r = Normal blocked
  | CallExit _ _ => True
  end.

(** The signal asks the ledger for an entry or an add. *)
Definition entersOrAdds (r : completion Signal) : Prop :=
  match r with
  | Normal sig => action sig = Some enter \/ action sig = Some add
  | TypeError => False
  end.

(** *** [getStopLossLevels], [getReentryStatus] *)

Record StopLossLevels := mkStopLossLevels {
  sl_absolute : option Q;
  sl_current : option Q;
  sl_waitingForReentry : bool;
  sl_reentryNeutralRange : option (Q * Q);
  sl_lastStopType : option Side
}.

(** [x || null] on a nullable number. *)
Definition orNull (x : option Q) : option Q :=
  if truthyQ x then x else None.

Definition isSome {A : Type} (x : option A) : bool :=
  match x with
  | Some _ => true
  | None => false
  end.

Definition getStopLossLevels (st : RollingVWAP.Stats)
  (currentPosition : option Position) (s : t) : StopLossLevels :=
  match currentPosition with
  | None =>
      {| sl_absolute := None;
         sl_current := orNull (RollingVWAP.s_deviationPercent st);
         sl_waitingForReentry := isSome (waitingForNeutralReentry s);
         sl_reentryNeutralRange := Some (NEUTRAL_MIN s, NEUTRAL_MAX s);
         sl_lastStopType := waitingForNeutralReentry s |}
  | Some pos =>
      match p_type pos with
      | Some short =>
          {| sl_absolute := Some (SHORT_STOP_LOSS_ABSOLUTE s);
             sl_current := RollingVWAP.s_deviationPercent st;
             sl_waitingForReentry := false;
             sl_reentryNeutralRange := None;
             sl_lastStopType := None |}
      | _ =>
          {| sl_absolute := Some (LONG_STOP_LOSS_ABSOLUTE s);
             sl_current := RollingVWAP.s_deviationPercent st;
             sl_waitingForReentry := false;
             sl_reentryNeutralRange := None;
             sl_lastStopType := None |}
      end
  end.

Record ReentryStatus := mkReentryStatus {
  rs_waiting : bool;
  rs_lastStopType : option Side;
  rs_neutralRange : Q * Q
}.

Definition getReentryStatus (s : t) : ReentryStatus :=
  {| rs_waiting := isSome (waitingForNeutralReentry s);
     rs_lastStopType := waitingForNeutralReentry s;
     rs_neutralRange := (NEUTRAL_MIN s, NEUTRAL_MAX s) |}.

(** *** [calculateStrategyLevels] *)

(** An entry level: its price, its deviation threshold, the two
    components of the threshold and its distance from the current
    price. *)
Record EntryLevel := mkEntryLevel {
  el_price : Q;
  el_deviation : Q;
  el_percentile : Q;
  el_absolute : Q;
  el_distanceFromCurrent : option Q
}.

Record StopLevel := mkStopLevel {
  st_price : Q;
  st_deviation : Q;
  st_distanceFromCurrent : option Q
}.

Record TakeProfitLevel := mkTakeProfitLevel {
  tp_priceAbove : Q;
  tp_priceBelow : Q;
  tp_deviation : Q;
  tp_distanceFromCurrentAbove : option Q;
  tp_distanceFromCurrentBelow : option Q
}.

Record StrategyLevels := mkStrategyLevels {
  lv_vwap : Q;
  lv_currentPrice : option Q;
  short1 : EntryLevel;
  short2 : EntryLevel;
  long1 : EntryLevel;
  long2 : EntryLevel;
  shortStop : StopLevel;
  longStop : StopLevel;
  takeProfit : TakeProfitLevel
}.

(** The local function [calculateDistance]. *)
Definition calculateDistance (currentPrice : option Q) (targetPrice : Q) : option Q :=
  match currentPrice with
  | Some cp =>
      if negb (truthyQ currentPrice) || Qeq_bool cp 0 then None
      else Some (((targetPrice - cp) / cp) * 100)
  | None => None
  end.

Definition calculateStrategyLevels (st : RollingVWAP.Stats) (currentPrice : option Q)
  (s : t) : option StrategyLevels :=
  let percentiles := RollingVWAP.stats (RollingVWAP.s_deviationHistory st) in
  match RollingVWAP.s_vwap st, percentiles with
  | Some vwap, Some pc =>
      if negb (truthyQ (Some vwap)) then None
      else
        let p90 := orZero (RollingVWAP.percentile90Percent pc) in
        let p95 := orZero (RollingVWAP.percentile95Percent pc) in
        let p10 := orZero (RollingVWAP.percentile10Percent pc) in
        let p5 := orZero (RollingVWAP.percentile5Percent pc) in
        let short1Threshold := Qmax p90 (SHORT1_THRESHOLD_PERCENT s) in
        let short2Threshold := Qmax p95 (SHORT2_THRESHOLD_PERCENT s) in
        let long1Threshold := Qmin p10 (LONG1_THRESHOLD_PERCENT s) in
        let long2Threshold := Qmin p5 (LONG2_THRESHOLD_PERCENT s) in
        let short1Price := vwap * (1 + short1Threshold / 100) in
        let short2Price := vwap * (1 + short2Threshold / 100) in
        let long1Price := vwap * (1 + long1Threshold / 100) in
        let long2Price := vwap * (1 + long2Threshold / 100) in
        let shortStopPrice := vwap * (1 + SHORT_STOP_LOSS_ABSOLUTE s / 100) in
        let longStopPrice := vwap * (1 + LONG_STOP_LOSS_ABSOLUTE s / 100) in
        let takeProfitAbovePrice := vwap * (1 + TAKE_PROFIT_THRESHOLD s / 100) in
        let takeProfitBelowPrice := vwap * (1 - TAKE_PROFIT_THRESHOLD s / 100) in
        let distance := calculateDistance currentPrice in
        Some
          {| lv_vwap := vwap;
             lv_currentPrice := currentPrice;
             short1 := mkEntryLevel short1Price short1Threshold p90
                         (SHORT1_THRESHOLD_PERCENT s) (distance short1Price);
             short2 := mkEntryLevel short2Price short2Threshold p95
                         (SHORT2_THRESHOLD_PERCENT s) (distance short2Price);
             long1 := mkEntryLevel long1Price long1Threshold p10
                        (LONG1_THRESHOLD_PERCENT s) (distance long1Price);
             long2 := mkEntryLevel long2Price long2Threshold p5
                        (LONG2_THRESHOLD_PERCENT s) (distance long2Price);
             shortStop := mkStopLevel shortStopPrice (SHORT_STOP_LOSS_ABSOLUTE s)
                            (distance shortStopPrice);
             longStop := mkStopLevel longStopPrice (LONG_STOP_LOSS_ABSOLUTE s)
                           (distance longStopPrice);
             takeProfit :=
               mkTakeProfitLevel takeProfitAbovePrice takeProfitBelowPrice
                 (TAKE_PROFIT_THRESHOLD s) (distance takeProfitAbovePrice)
                 (distance takeProfitBelowPrice) |}
  | _, _ => None
  end.

End Strategy.

(** ** [paper-trading.js]: class [PaperTrading] *)

Module PaperTrading.
Import Js.
Import Strategy.

Record Entry := mkEntry {
  e_level : option Level;
  contractCount : Z;
  sizeInBTC : Q;
  entryPrice : Q;
  entryDeviation : option Q;
  entryTime : Z;
  fee : Q
}.

(** The two arrays [entryLevels] and [entries] of a position.  They are
    allocated together when the position is opened and are reached
    through a reference: the copies [{ ...this.currentPosition }] kept in
    the trade log share them with the live position. *)
Record PositionArrays := mkArrays {
  entryLevels : list (option Level);
  entries : list Entry
}.

(** The position object; [arrays] is the reference to its two arrays. *)
Record Position := mkPosition {
  p_type : option Side;
  totalContractCount : Z;
  totalSizeInBTC : Q;
  arrays : nat;
  avgEntryPrice : Q;
  totalEntryFees : Q;
  openedAt : Z
}.

Record Exit := mkExit {
  exitPrice : Q;
  exitDeviation : option Q;
  exitTime : Z;
  exitFee : Q;
  grossPnL : Q;
  netPnL : Q;
  x_entryLevels : nat;
  x_avgEntryPrice : Q;
  x_contractCount : Z;
  x_sizeInBTC : Q
}.

Inductive TradeLog :=
| EnterLog (signal : Signal) (entry : Entry) (position : Position) (timestamp : Z)
| ExitLog (exitSignal : Signal) (exit : Exit) (position : Position) (timestamp : Z).

(** The ledger object, with the store [heap] of the arrays it has
    allocated (a reference is an index into it). *)
Record t := mkLedger {
  initialBalance : Q;
  cashBalance : Q;
  currentPosition : option Position;
  tradeHistory : list TradeLog;
  totalRealizedPnL : Q;
  CONTRACT_SIZE : Q;
  TRADING_FEE : Q;
  SLIPPAGE : Q;
  heap : list PositionArrays
}.

(** [constructor(initialBalance = 10000)] *)
Definition new (initialBalance : Q) : t :=
  {| initialBalance := initialBalance;
     cashBalance := initialBalance;
     currentPosition := None;
     tradeHistory := [];
     totalRealizedPnL := 0;
     CONTRACT_SIZE := 0.01;
     TRADING_FEE := 0.00065;
     SLIPPAGE := 0.0005;
     heap := [] |}.

Definition with_state (cash : Q) (pos : option Position) (hist : list TradeLog)
  (realized : Q) (hp : list PositionArrays) (l : t) : t :=
  {| initialBalance := initialBalance l;
     cashBalance := cash;
     currentPosition := pos;
     tradeHistory := hist;
     totalRealizedPnL := realized;
     CONTRACT_SIZE := CONTRACT_SIZE l;
     TRADING_FEE := TRADING_FEE l;
     SLIPPAGE := SLIPPAGE l;
     heap := hp |}.

Definition emptyArrays : PositionArrays := mkArrays [] [].

(** Reading and writing the arrays behind a reference. *)
Definition deref (hp : list PositionArrays) (r : nat) : PositionArrays :=
  nth r hp emptyArrays.

Definition store (hp : list PositionArrays) (r : nat) (a : PositionArrays) :
  list PositionArrays :=
  RollingVWAP.setAt r a hp.

Definition isLong (ty : option Side) : bool :=
  match ty with
  | Some long => true
  | _ => false
  end.

Inductive Error := InsufficientFunds | NoPositionToClose.

Inductive EnterResult :=
| EnterFailure (error : Error) (required available : Q)
| EnterSuccess (position : Position) (entry : Entry).

Inductive CloseResult :=
| CloseFailure (error : Error)
| CloseSuccess (closedPosition : Position) (exit : Exit) (realizedPnL : Q).

(** [enterPosition(signal, currentPrice, currentDeviation)] *)
Definition enterPosition (signal : Signal) (currentPrice : Q)
  (currentDeviation : option Q) (nowMs : Z) (l : t) : EnterResult * t :=
  let contractCount := 1%Z in
  let sizeInBTC := inject_Z contractCount * CONTRACT_SIZE l in
  let slippageMultiplier :=
    if isLong (type signal) then 1 + SLIPPAGE l else 1 - SLIPPAGE l in
  let executionPrice := currentPrice * slippageMultiplier in
  let orderValue := sizeInBTC * executionPrice in
  let fee := orderValue * TRADING_FEE l in
  let totalCost := orderValue + fee in
  if isLong (type signal) && Qltb (cashBalance l) totalCost then
    (EnterFailure InsufficientFunds totalCost (cashBalance l), l)
  else
    let entry :=
      {| e_level := level signal; contractCount := contractCount;
         sizeInBTC := sizeInBTC; entryPrice := executionPrice;
         entryDeviation := currentDeviation; entryTime := nowMs; fee := fee |} in
    let cash' :=
      if isLong (type signal) then cashBalance l - totalCost
      else cashBalance l - fee in
    let '(position', heap') :=
      match currentPosition l with
      | None =>
          (* new position: two fresh arrays *)
          let r := length (heap l) in
          ({| p_type := type signal;
              totalContractCount := contractCount;
              totalSizeInBTC := sizeInBTC;
              arrays := r;
              avgEntryPrice := executionPrice;
              totalEntryFees := fee;
              openedAt := nowMs |},
           heap l ++ [mkArrays [level signal] [entry]])
      | Some p =>
          (* adding to the existing position: push onto its arrays *)
          let a := deref (heap l) (arrays p) in
          let a' := mkArrays (entryLevels a ++ [level signal]) (entries a ++ [entry]) in
          let totalContractCount' := (totalContractCount p + contractCount)%Z in
          let totalSizeInBTC' := totalSizeInBTC p + sizeInBTC in
          let totalValue :=
            fold_left (fun sum e => sum + entryPrice e * PaperTrading.sizeInBTC e)
              (entries a') 0 in
          ({| p_type := p_type p;
              totalContractCount := totalContractCount';
              totalSizeInBTC := totalSizeInBTC';
              arrays := arrays p;
              avgEntryPrice := totalValue / totalSizeInBTC';
              totalEntryFees := totalEntryFees p + fee;
              openedAt := openedAt p |},
           store (heap l) (arrays p) a')
      end in
    let tradeLog := EnterLog signal entry position' nowMs in
    (EnterSuccess position' entry,
     with_state cash' (Some position') (tradeHistory l ++ [tradeLog])
       (totalRealizedPnL l) heap' l).

(** [closePosition(exitSignal, currentPrice, currentDeviation)] *)
Definition closePosition (exitSignal : Signal) (currentPrice : Q)
  (currentDeviation : option Q) (nowMs : Z) (l : t) : CloseResult * t :=
  match currentPosition l with
  | None => (CloseFailure NoPositionToClose, l)
  | Some position =>
      let sizeInBTC := totalSizeInBTC position in
      let slippageMultiplier :=
        if isLong (p_type position) then 1 - SLIPPAGE l else 1 + SLIPPAGE l in
      let executionPrice := currentPrice * slippageMultiplier in
      let grossPnL :=
        if isLong (p_type position)
        then (executionPrice - avgEntryPrice position) * sizeInBTC
        else (avgEntryPrice position - executionPrice) * sizeInBTC in
      let exitValue := sizeInBTC * executionPrice in
      let exitFee := exitValue * TRADING_FEE l in
      let netPnL := grossPnL - totalEntryFees position - exitFee in
      let cash' :=
        if isLong (p_type position)
        then cashBalance l + (exitValue - exitFee)
        else cashBalance l + ((avgEntryPrice position * sizeInBTC) - exitFee) in
      let exit :=
        {| exitPrice := executionPrice; exitDeviation := currentDeviation;
           exitTime := nowMs; exitFee := exitFee; grossPnL := grossPnL;
           netPnL := netPnL; x_entryLevels := arrays position;
           x_avgEntryPrice := avgEntryPrice position;
           x_contractCount := totalContractCount position;
           x_sizeInBTC := sizeInBTC |} in
      let tradeLog := ExitLog exitSignal exit position nowMs in
      (CloseSuccess position exit netPnL,
       with_state cash' None (tradeHistory l ++ [tradeLog])
         (totalRealizedPnL l + netPnL) (heap l) l)
  end.

(** [getPosition()] *)
Definition getPosition (l : t) : option Position := currentPosition l.

(** The position object as the strategy reads it: its [type], its
    [totalContractCount] and the contents of its [entryLevels] array. *)
Definition view (l : t) (p : Position) : Strategy.Position :=
  {| Strategy.p_type := p_type p;
     Strategy.totalContractCount := totalContractCount p;
     Strategy.entryLevels := entryLevels (deref (heap l) (arrays p)) |}.

(** The [position.entries] array read through a trade-log record. *)
Definition logPosition (tl : TradeLog) : Position :=
  match tl with
  | EnterLog _ _ p _ => p
  | ExitLog _ _ p _ => p
  end.

Definition logEntries (l : t) (tl : TradeLog) : list Entry :=
  entries (deref (heap l) (arrays (logPosition tl))).


(** *** [updatePosition], [getTradeHistory], [getPerformance], [reset] *)



(** [getTradeHistory()] *)
Definition getTradeHistory (l : t) : list TradeLog := tradeHistory l.

(** [t.action === 'exit'], and the [exit] record of such a log. *)
Definition isExit (tl : TradeLog) : bool :=
  match tl with
  | ExitLog _ _ _ _ => true
  | EnterLog _ _ _ _ => false
  end.

Definition logNetPnL (tl : TradeLog) : Q :=
  match tl with
  | ExitLog _ x _ _ => netPnL x
  | EnterLog _ _ _ _ => 0
  end.

(** The summary returned by [getPerformance].  [totalReturn] divides by
    [initialBalance]: it is a finite number only when that balance is not
    zero, and is [None] otherwise. *)
Record Performance := mkPerformance {
  totalTrades : nat;
  winningTrades : nat;
  losingTrades : nat;
  winRate : Q;
  pf_totalRealizedPnL : Q;
  totalReturn : option Q;
  currentCashBalance : Q
}.

(** [getPerformance()] *)
Definition getPerformance (l : t) : Performance :=
  let closedTrades := filter isExit (tradeHistory l) in
  let winningTrades := filter (fun t => Qltb 0 (logNetPnL t)) closedTrades in
  let losingTrades := filter (fun t => Qle_bool (logNetPnL t) 0) closedTrades in
  {| totalTrades := length closedTrades;
     winningTrades := length winningTrades;
     losingTrades := length losingTrades;
     winRate :=
       if (0 <? length closedTrades)%nat
       then (RollingVWAP.lengthQ winningTrades / RollingVWAP.lengthQ closedTrades) * 100
       else 0;
     pf_totalRealizedPnL := totalRealizedPnL l;
     totalReturn :=
       if Qeq_bool (initialBalance l) 0 then None
       else Some ((totalRealizedPnL l / initialBalance l) * 100);
     currentCashBalance := cashBalance l |}.

(** [reset()].  The arrays of earlier positions stay in the store; no
    reference to them is left in the ledger. *)
Definition reset (l : t) : t :=
  with_state (initialBalance l) None [] 0 (heap l) l.

(** *** Sequences of calls on one ledger *)

Inductive Op :=
| OpEnter (signal : Signal) (currentPrice : Q) (currentDeviation : option Q) (nowMs : Z)
| OpClose (exitSignal : Signal) (currentPrice : Q) (currentDeviation : option Q)
    (nowMs : Z)
| OpReset.

Definition applyOp (o : Op) (l : t) : t :=
  match o with
  | OpEnter signal currentPrice currentDeviation nowMs =>
      snd (enterPosition signal currentPrice currentDeviation nowMs l)
  | OpClose exitSignal currentPrice currentDeviation nowMs =>
      snd (closePosition exitSignal currentPrice currentDeviation nowMs l)
  | OpReset => reset l
  end.

Definition applyAll (ops : list Op) (l : t) : t :=
  fold_left (fun s o => applyOp o s) ops l.

(** An entry made while a position is open goes in the direction of that
    position (the comment of the source: "Adding to existing position
    (same direction)"; the strategy returns such signals only). *)
Definition sameDirection (o : Op) (l : t) : bool :=
  match o, currentPosition l with
  | OpEnter signal _ _ _, Some p => Bool.eqb (isLong (type signal)) (isLong (p_type p))
  | _, _ => true
  end.


(** Sums over the entries of a position and over the trade log. *)
Definition sumValue (es : list Entry) : Q :=
  fold_left (fun sum e => sum + entryPrice e * sizeInBTC e) es 0.

Definition sumFees (es : list Entry) : Q :=
  fold_left (fun sum e => sum + fee e) es 0.

Definition sumNetPnL (h : list TradeLog) : Q :=
  fold_left (fun sum tl => sum + logNetPnL tl) h 0.

(** The exit notional [sizeInBTC * exitPrice] of the closed positions
    that were not long. *)
Definition shortExitValue (tl : TradeLog) : Q :=
  match tl with
  | ExitLog _ x p _ => if isLong (p_type p) then 0 else x_sizeInBTC x * exitPrice x
  | EnterLog _ _ _ _ => 0
  end.

Definition shortCredit (h : list TradeLog) : Q :=
  fold_left (fun sum tl => sum + shortExitValue tl) h 0.

(** What the open position has taken out of the cash balance: a long
    position its entry value and fees, any other its fees. *)
Definition openCost (l : t) : Q :=
  match currentPosition l with
  | None => 0
  | Some p =>
      if isLong (p_type p)
      then avgEntryPrice p * totalSizeInBTC p + totalEntryFees p
      else totalEntryFees p
  end.

(** The aggregates of the open position agree with its entries. *)
Definition soundPosition (l : t) : Prop :=
  match currentPosition l with
  | None => True
  | Some p =>
      let a := deref (heap l) (arrays p) in
      (arrays p < length (heap l))%nat /\
      entries a <> [] /\
      totalContractCount p = Z.of_nat (length (entries a)) /\
      entryLevels a = map e_level (entries a) /\
      totalSizeInBTC p == RollingVWAP.lengthQ (entries a) * CONTRACT_SIZE l /\
      avgEntryPrice p * totalSizeInBTC p == sumValue (entries a) /\
      totalEntryFees p == sumFees (entries a)
  end.

(** The cash balance accounts for the realized P&L, the open position and
    the exit value of the closed short positions. *)
Definition balanced (l : t) : Prop :=
  cashBalance l
  == initialBalance l + totalRealizedPnL l + shortCredit (tradeHistory l)
     - openCost l.

End PaperTrading.

(** ** [server.js]: the strategy and the ledger behind the tracker's
    [update] event and the algorithm endpoints *)

Module Server.
Import Js.

Record t := mkServer {
  strategy : Strategy.t;
  paperTrading : PaperTrading.t;
  algorithmRunning : bool
}.

(** [new Strategy()], [new PaperTrading(10000)], [algorithmRunning = false] *)
Definition init : t :=
  {| strategy := Strategy.new;
     paperTrading := PaperTrading.new 10000;
     algorithmRunning := false |}.

Definition actionIs (a : Strategy.Action) (sig : Strategy.Signal) : bool :=
  match Strategy.action sig, a with
  | Some Strategy.enter, Strategy.enter
  | Some Strategy.add, Strategy.add
  | Some Strategy.close, Strategy.close
  | Some Strategy.none, Strategy.none => true
  | _, _ => false
  end.

(** "First check exit conditions": [evaluateExit], then [closePosition]
    when the signal says [close]. *)
Definition checkExit (stats : RollingVWAP.Stats) (nowMs : Z) (st : t) :
  completion unit * t :=
  match PaperTrading.getPosition (paperTrading st) with
  | None => (Normal tt, st)
  | Some currentPosition =>
      let '(r, strategy') :=
        Strategy.evaluateExit stats
          (Some (PaperTrading.view (paperTrading st) currentPosition))
          (strategy st) in
      match r with
      | TypeError => (TypeError, mkServer strategy' (paperTrading st) (algorithmRunning st))
      | Normal exitSignal =>
          if actionIs Strategy.close exitSignal then
            let '(_, ledger') :=
              PaperTrading.closePosition exitSignal
                (toNumber (RollingVWAP.s_currentPrice stats))
                (RollingVWAP.s_deviationPercent stats) nowMs (paperTrading st) in
            (Normal tt, mkServer strategy' ledger' (algorithmRunning st))
          else (Normal tt, mkServer strategy' (paperTrading st) (algorithmRunning st))
      end
  end.

(** "Then check entry conditions": [evaluateEntry] on the position left by
    the exit check, then [enterPosition] for [enter] and for [add]. *)
Definition checkEntry (stats : RollingVWAP.Stats) (nowMs : Z) (st : t) :
  completion unit * t :=
  let currentPos :=
    option_map (PaperTrading.view (paperTrading st))
      (PaperTrading.getPosition (paperTrading st)) in
  let '(r, strategy') := Strategy.evaluateEntry stats currentPos (strategy st) in
  match r with
  | TypeError => (TypeError, mkServer strategy' (paperTrading st) (algorithmRunning st))
  | Normal entrySignal =>
      if actionIs Strategy.enter entrySignal || actionIs Strategy.add entrySignal then
        let '(_, ledger') :=
          PaperTrading.enterPosition entrySignal
            (toNumber (RollingVWAP.s_currentPrice stats))
            (RollingVWAP.s_deviationPercent stats) nowMs (paperTrading st) in
        (Normal tt, mkServer strategy' ledger' (algorithmRunning st))
      else (Normal tt, mkServer strategy' (paperTrading st) (algorithmRunning st))
  end.

(** The handler of [vwapTracker.on('update', ...)], as far as it changes
    the strategy and the ledger.  An exception leaves the handler with the
    changes made so far. *)
Definition onUpdate (stats : RollingVWAP.Stats) (nowMs : Z) (st : t) :
  completion unit * t :=
  if algorithmRunning st then
    match checkExit stats nowMs st with
    | (Normal _, st1) => checkEntry stats nowMs st1
    | (TypeError, st1) => (TypeError, st1)
    end
  else (Normal tt, st).

(** [POST /api/algorithm/start] *)
Definition startAlgorithm (st : t) : t :=
  mkServer (strategy st) (paperTrading st) true.

(** The kill switch shared by [POST /api/algorithm/stop] and
    [POST /api/restart]: close the open position, stop the algorithm. *)
Definition killSwitch (why : Strategy.Reason) (stats : RollingVWAP.Stats)
  (nowMs : Z) (st : t) : t :=
  let ledger' :=
    match PaperTrading.getPosition (paperTrading st) with
    | Some _ =>
        let exitSignal :=
          Strategy.mkSignal (Some Strategy.close) None None
            (Some Strategy.manual) why in
        snd (PaperTrading.closePosition exitSignal
               (toNumber (RollingVWAP.s_currentPrice stats))
               (RollingVWAP.s_deviationPercent stats) nowMs (paperTrading st))
    | None => paperTrading st
    end in
  mkServer (strategy st) ledger' false.

(** What reaches the strategy and the ledger. *)
Inductive Event :=
| Update (stats : RollingVWAP.Stats) (nowMs : Z)
| Start
| Stop (stats : RollingVWAP.Stats) (nowMs : Z)
| Restart (stats : RollingVWAP.Stats) (nowMs : Z).

Definition step (e : Event) (st : t) : t :=
  match e with
  | Update stats nowMs => snd (onUpdate stats nowMs st)
  | Start => startAlgorithm st
  | Stop stats nowMs => killSwitch Strategy.KillSwitch stats nowMs st
  | Restart stats nowMs => killSwitch Strategy.TrackerRestart stats nowMs st
  end.

Definition run (es : list Event) (st : t) : t :=
  fold_left (fun s e => step e s) es st.

(** The invariant of the data model on the position of the ledger: its
    arrays exist, [totalContractCount] is the number of its entries, and
    that number is 1 or 2. *)
Definition positionInvariant (l : PaperTrading.t) : Prop :=
  match PaperTrading.currentPosition l with
  | None => True
  | Some p =>
      (PaperTrading.arrays p < length (PaperTrading.heap l))%nat /\
      PaperTrading.totalContractCount p
      = Z.of_nat
          (length
             (PaperTrading.entries
                (PaperTrading.deref (PaperTrading.heap l) (PaperTrading.arrays p)))) /\
      (1 <= PaperTrading.totalContractCount p <= 2)%Z
  end.

(** The shape of a position opened and added to on the signals of the
    strategy: its type, and the levels of its entries in order. *)
Definition positionShape (l : PaperTrading.t) (p : PaperTrading.Position) : Prop :=
  let levels :=
    PaperTrading.entryLevels
      (PaperTrading.deref (PaperTrading.heap l) (PaperTrading.arrays p)) in
  (PaperTrading.p_type p = Some Strategy.short /\
   (levels = [Some Strategy.Short1] \/
    levels = [Some Strategy.Short1; Some Strategy.Short2])) \/
  (PaperTrading.p_type p = Some Strategy.long /\
   (levels = [Some Strategy.Long1] \/
    levels = [Some Strategy.Long1; Some Strategy.Long2])).

(** What holds of the strategy and the ledger in every state the server
    reaches: the parameters are those of the constructors, the ledger
    keeps its books ([soundPosition], [balanced], the realized P&L), and
    an open position has one of the four shapes and finds the reentry
    flag clear. *)
Definition reachableInvariant (st : t) : Prop :=
  (exists w : option Strategy.Side,
      strategy st = Strategy.with_waiting w Strategy.new) /\
  PaperTrading.CONTRACT_SIZE (paperTrading st) = 0.01 /\
  PaperTrading.initialBalance (paperTrading st) = 10000 /\
  PaperTrading.soundPosition (paperTrading st) /\
  PaperTrading.balanced (paperTrading st) /\
  PaperTrading.totalRealizedPnL (paperTrading st)
  == PaperTrading.sumNetPnL (PaperTrading.tradeHistory (paperTrading st)) /\
  forall p : PaperTrading.Position,
    PaperTrading.currentPosition (paperTrading st) = Some p ->
    Strategy.waitingForNeutralReentry (strategy st) = None /\
    positionShape (paperTrading st) p.

End Server.

(** ** [vwap-tracker.js]: class [VWAPTracker] *)

Module VWAPTracker.
Import Js.

(** *** [fetchHistoricalCandles] *)

(** What a call of [coinbase.getCandles] does: it throws, or it returns a
    response whose [candles] field may be missing. *)
Inductive Response :=
| Throws
| Returns (candles : option (list RollingVWAP.CandleMsg)).

(** The REST client, as the function that gives the outcome of the call
    number [k] for the window [start .. end] it is asked. *)
Definition Api : Type := nat -> Q -> Q -> Response.

(** [response.candles || []] *)
Definition candlesOf (r : option (list RollingVWAP.CandleMsg)) :
  list RollingVWAP.CandleMsg :=
  match r with
  | Some cs => cs
  | None => []
  end.

(** The requests made, in order, and the array returned. *)
Record Fetch := mkFetch {
  requests : list (Q * Q);
  allCandles : list RollingVWAP.CandleMsg
}.

Definition COINBASE_CANDLE_LIMIT : Q := 350.
Definition candlesPerHour : Q := 12.

(** [Math.floor(COINBASE_CANDLE_LIMIT / candlesPerHour)] *)
Definition hoursForThisCall : Q :=
  inject_Z (Qfloor (COINBASE_CANDLE_LIMIT / candlesPerHour)).

(** [while (currentStart < end) ...]; [fuel] bounds the number of
    iterations, and [None] is a loop that has not ended when the fuel is
    spent.  A call that throws ends the loop ([break]). *)
Fixpoint fetchBatches (fuel : nat) (api : Api) (callNumber : nat)
  (currentStart end_ : Q) (acc : Fetch) : option Fetch :=
  if Qltb currentStart end_ then
    match fuel with
    | O => None
    | S fuel' =>
        let currentEnd := Qmin (currentStart + hoursForThisCall * 60 * 60) end_ in
        let asked := requests acc ++ [(currentStart, currentEnd)] in
        match api callNumber currentStart currentEnd with
        | Returns r =>
            fetchBatches fuel' api (S callNumber) currentEnd end_
              (mkFetch asked (allCandles acc ++ candlesOf r))
        | Throws => Some (mkFetch asked (allCandles acc))
        end
    end
  else Some acc.

(** The number of iterations that a span of [hours] hours needs. *)
Definition batchesFor (hours : Q) : nat :=
  Z.to_nat (Qceiling ((hours * 60 * 60) / (hoursForThisCall * 60 * 60))).

(** [fetchHistoricalCandles(hours)] *)
Definition fetchHistoricalCandles (hours : Q) (nowMs : Z) (api : Api) : option Fetch :=
  let totalCandlesNeeded := hours * candlesPerHour in
  let end_ := inject_Z (RollingVWAP.nowSeconds nowMs) in
  let start := end_ - hours * 60 * 60 in
  if Qle_bool totalCandlesNeeded COINBASE_CANDLE_LIMIT then
    match api 1%nat start end_ with
    | Returns r => Some (mkFetch [(start, end_)] (candlesOf r))
    | Throws => Some (mkFetch [(start, end_)] [])
    end
  else fetchBatches (batchesFor hours) api 1%nat start end_ (mkFetch [] []).

(** *** The tracker object *)

(** The fields of the object that the handlers use, and the [update]
    events emitted so far, in order. *)
Record t := mkTracker {
  productId : String.string;
  windowHours : Q;
  rollingVWAP : RollingVWAP.t;
  emitted : list RollingVWAP.Stats
}.

(** [constructor(productId, windowHours = 12)] *)
Definition new (productId : String.string) (windowHours : Q) : t :=
  {| productId := productId;
     windowHours := windowHours;
     rollingVWAP := RollingVWAP.new windowHours 72;
     emitted := [] |}.

Definition with_rollingVWAP (v : RollingVWAP.t) (tr : t) : t :=
  {| productId := productId tr;
     windowHours := windowHours tr;
     rollingVWAP := v;
     emitted := emitted tr |}.

(** [emitUpdate()] *)
Definition emitUpdate (tr : t) : t :=
  {| productId := productId tr;
     windowHours := windowHours tr;
     rollingVWAP := rollingVWAP tr;
     emitted := emitted tr ++ [RollingVWAP.getStats (rollingVWAP tr)] |}.

(** The messages of the websocket client. *)
Record Ticker := mkTicker {
  t_product_id : String.string;
  t_price : Q
}.

Record CandleEvent := mkCandleEvent {
  c_product_id : String.string;
  c_candle : RollingVWAP.CandleMsg
}.

(** The handler of [ws.on('ticker', ...)] *)
Definition onTicker (ticker : Ticker) (nowMs : Z) (tr : t) : t :=
  if String.eqb (t_product_id ticker) (productId tr) then
    emitUpdate
      (with_rollingVWAP (RollingVWAP.updatePrice (t_price ticker) nowMs (rollingVWAP tr))
         tr)
  else tr.

(** The handler of [ws.on('candle', ...)]; [None] when [updateCandle]
    throws. *)
Definition onCandle (candle : CandleEvent) (nowMs : Z) (tr : t) : option t :=
  if String.eqb (c_product_id candle) (productId tr) then
    match RollingVWAP.updateCandle (c_candle candle) nowMs (rollingVWAP tr) with
    | Some v => Some (emitUpdate (with_rollingVWAP v tr))
    | None => None
    end
  else Some tr.

(** The callback of the cleanup interval. *)
Definition cleanup (nowMs : Z) (tr : t) : option t :=
  match RollingVWAP.removeOldCandles nowMs (rollingVWAP tr) with
  | Some v => Some (emitUpdate (with_rollingVWAP (RollingVWAP.updateStats v) tr))
  | None => None
  end.

(** [start()], from the array that [fetchHistoricalCandles(144)] has
    returned on.  The clock is read three times: by
    [initializeDeviationHistory], by [start] itself and by
    [initialize]. *)
Definition start (allHistoricalCandles : list RollingVWAP.CandleMsg)
  (nowMs1 nowMs2 nowMs3 : Z) (tr : t) : t :=
  if (0 <? length allHistoricalCandles)%nat then
    let v1 :=
      RollingVWAP.initializeDeviationHistory allHistoricalCandles nowMs1
        (rollingVWAP tr) in
    let now := RollingVWAP.nowSeconds nowMs2 in
    let vwapStartTime := inject_Z now - windowHours tr * 60 * 60 in
    let recentCandles :=
      filter (fun candle => Qle_bool vwapStartTime (inject_Z (RollingVWAP.m_start candle)))
        allHistoricalCandles in
    if (0 <? length recentCandles)%nat then
      emitUpdate (with_rollingVWAP (RollingVWAP.initialize recentCandles nowMs3 v1) tr)
    else with_rollingVWAP v1 tr
  else tr.

(** *** What reaches a started tracker *)

Inductive Event :=
| TickerEvent (ticker : Ticker) (nowMs : Z)
| CandleUpdate (candle : CandleEvent) (nowMs : Z)
| Cleanup (nowMs : Z).

Definition handle (e : Event) (tr : t) : option t :=
  match e with
  | TickerEvent ticker nowMs => Some (onTicker ticker nowMs tr)
  | CandleUpdate candle nowMs => onCandle candle nowMs tr
  | Cleanup nowMs => cleanup nowMs tr
  end.

Fixpoint handleAll (es : list Event) (tr : t) : option t :=
  match es with
  | [] => Some tr
  | e :: rest =>
      match handle e tr with
      | Some tr' => handleAll rest tr'
      | None => None
      end
  end.

(** The event is one that the tracker acts on: a tick of the cleanup
    interval, or a message for its product. *)
Definition handled (tr : t) (e : Event) : bool :=
  match e with
  | TickerEvent ticker _ => String.eqb (t_product_id ticker) (productId tr)
  | CandleUpdate candle _ => String.eqb (c_product_id candle) (productId tr)
  | Cleanup _ => true
  end.

(** *** Predicates on the requests and on the REST client *)

(** What the client returned for the requests [ws], numbered from [k], up
    to the first one that threw. *)
Fixpoint collected (api : Api) (k : nat) (ws : list (Q * Q)) :
  list RollingVWAP.CandleMsg :=
  match ws with
  | [] => []
  | w :: rest =>
      match api k (fst w) (snd w) with
      | Returns r => candlesOf r ++ collected api (S k) rest
      | Throws => []
      end
  end.

(** The last of the requests [ws], numbered from [k], threw. *)
Definition lastThrew (api : Api) (k : nat) (ws : list (Q * Q)) : Prop :=
  exists (ws' : list (Q * Q)) (w : Q * Q),
    ws = ws' ++ [w] /\ api (k + length ws')%nat (fst w) (snd w) = Throws.

(** The requests are contiguous from [a] to [b]: each starts where the
    one before ended. *)
Fixpoint contiguous (a : Q) (ws : list (Q * Q)) (b : Q) : Prop :=
  match ws with
  | [] => a == b
  | w :: rest => fst w == a /\ contiguous (snd w) rest b
  end.

(** A request spans more than nothing and at most 29 hours, that is 348
    candles of five minutes. *)
Definition withinLimit (w : Q * Q) : Prop :=
  fst w < snd w /\ snd w - fst w <= 29 * 60 * 60 /\
  (snd w - fst w) / 300 <= COINBASE_CANDLE_LIMIT.

(** The client answers a request with candles that start inside the
    window asked, each start once. *)
Definition answersWindow (api : Api) : Prop :=
  forall (k : nat) (a b : Q) (cs : list RollingVWAP.CandleMsg),
    api k a b = Returns (Some cs) ->
    NoDup (map RollingVWAP.m_start cs) /\
    Forall (fun c => a <= inject_Z (RollingVWAP.m_start c) /\
                     inject_Z (RollingVWAP.m_start c) <= b) cs.

(** The test of [start()] for the candles that go to [initialize]:
    [start >= vwapStartTime]. *)
Definition recent (vwapStartTime : Q) (candle : RollingVWAP.CandleMsg) : bool :=
  Qle_bool vwapStartTime (inject_Z (RollingVWAP.m_start candle)).

(** The VWAP held is the one of the running totals. *)
Definition freshVWAP (v : RollingVWAP.t) : Prop :=
  RollingVWAP.currentVWAP v
  = RollingVWAP.vwapOf (RollingVWAP.totalPriceVolume v) (RollingVWAP.totalVolume v).

End VWAPTracker.

(** ** [coinbase-websocket.js]: the connection state of class
    [CoinbaseWebSocket] *)

Module CoinbaseWebSocket.

(** The fields that [connect], [reconnect], [disconnect] and the socket
    handlers read and write; [ws] says whether [this.ws] holds a
    socket. *)
Record t := mkClient {
  reconnectDelay : Q;
  maxReconnectDelay : Q;
  isConnecting : bool;
  isConnected : bool;
  ws : bool
}.

Inductive Emitted := connected | disconnected.

(** What a method or handler does besides writing the fields. *)
Inductive Effect :=
| NewWebSocket
| Subscribe
| Emit (event : Emitted)
| SetTimeout (delayMs : Q)
| CloseSocket.

(** [constructor(productId)] *)
Definition new : t :=
  {| reconnectDelay := 1000;
     maxReconnectDelay := 30000;
     isConnecting := false;
     isConnected := false;
     ws := false |}.

(** [connect()] *)
Definition connect (c : t) : t * list Effect :=
  if isConnecting c || isConnected c then (c, [])
  else
    ({| reconnectDelay := reconnectDelay c;
        maxReconnectDelay := maxReconnectDelay c;
        isConnecting := true;
        isConnected := isConnected c;
        ws := true |},
     [NewWebSocket]).

(** The handler of the socket's [open] event. *)
Definition onOpen (c : t) : t * list Effect :=
  ({| reconnectDelay := 1000;
      maxReconnectDelay := maxReconnectDelay c;
      isConnecting := false;
      isConnected := true;
      ws := ws c |},
   [Subscribe; Emit connected]).

(** [reconnect()]: the timer it sets, if any. *)
Definition reconnect (c : t) : t * list Effect :=
  if isConnecting c then (c, [])
  else (c, [SetTimeout (reconnectDelay c)]).

(** The handler of the socket's [close] event. *)
Definition onClose (c : t) : t * list Effect :=
  let c1 :=
    {| reconnectDelay := reconnectDelay c;
       maxReconnectDelay := maxReconnectDelay c;
       isConnecting := isConnecting c;
       isConnected := false;
       ws := ws c |} in
  let '(c2, effects) := reconnect c1 in
  (c2, Emit disconnected :: effects).

(** The callback of the timer set by [reconnect]. *)
Definition onReconnectTimer (c : t) : t * list Effect :=
  connect
    {| reconnectDelay := Qmin (reconnectDelay c * 2) (maxReconnectDelay c);
       maxReconnectDelay := maxReconnectDelay c;
       isConnecting := isConnecting c;
       isConnected := isConnected c;
       ws := ws c |}.

(** [disconnect()] *)
Definition disconnect (c : t) : t * list Effect :=
  ({| reconnectDelay := reconnectDelay c;
      maxReconnectDelay := maxReconnectDelay c;
      isConnecting := false;
      isConnected := false;
      ws := false |},
   if ws c then [CloseSocket] else []).

(** What happens to the client: calls of its methods, events of its
    sockets, and the timer. *)
Inductive Event :=
| CallConnect
| SocketOpen
| SocketClose
| TimerFires
| CallDisconnect.

Definition step (e : Event) (c : t) : t * list Effect :=
  match e with
  | CallConnect => connect c
  | SocketOpen => onOpen c
  | SocketClose => onClose c
  | TimerFires => onReconnectTimer c
  | CallDisconnect => disconnect c
  end.

(** The events of [es] in order: the client after them and the effects
    they had, in order. *)
Fixpoint run (es : list Event) (c : t) : t * list Effect :=
  match es with
  | [] => (c, [])
  | e :: rest =>
      let '(c1, effects1) := step e c in
      let '(c2, effects2) := run rest c1 in
      (c2, effects1 ++ effects2)
  end.

(** Neither the [open] event nor a call of [disconnect]. *)
Definition keepsConnecting (e : Event) : Prop :=
  e = CallConnect \/ e = SocketClose \/ e = TimerFires.

(** The effect opens no socket and sets no timer. *)
Definition noAttempt (x : Effect) : Prop :=
  x = Emit disconnected.

End CoinbaseWebSocket.

(** ** [rolling-vwap.js] in double precision

    The aggregator once more, over binary64 floating-point numbers (the
    numbers of JavaScript) instead of rationals: [+], [-], [*] and [/]
    round to nearest, ties to even; a division by zero gives an infinity
    or [NaN]; every comparison with [NaN] is false.  Timestamps and the
    clock stay integers, and [ofZ] converts them where the source mixes
    them with other numbers (the conversion is exact below 2^53).  These
    definitions are evaluated on concrete inputs, where the rounding
    decides what the code returns. *)

Module Double.
Import Floats.
Local Open Scope float_scope.
Local Set Warnings "-inexact-float".

(** An integer as a number. *)
Definition ofZ (z : Z) : float :=
  if (z <? 0)%Z then - of_uint63 (Uint63.of_Z (- z)) else of_uint63 (Uint63.of_Z z).

(** Truthiness of a nullable number: [null], [0], [-0] and [NaN] are
    falsy. *)
Definition truthy (x : option float) : bool :=
  match x with
  | Some f => negb (f =? 0) && negb (is_nan f)
  | None => false
  end.

Record Candle := mkCandle {
  start : Z;
  high : float;
  low : float;
  close : float;
  volume : float;
  typicalPrice : float;
  priceVolume : float
}.

(** A candle message of the feed, after [parseInt] / [parseFloat]. *)
Record CandleMsg := mkCandleMsg {
  m_start : Z;
  m_high : float;
  m_low : float;
  m_close : float;
  m_volume : float
}.

Record DeviationSnapshot := mkSnapshot {
  timestamp : Z;
  price : float;
  vwap : float;
  deviation : float;
  deviationPercent : float
}.

Record t := mkState {
  windowHours : float;
  deviationHistoryWindowHours : float;
  candleIntervalSeconds : float;
  maxCandles : float;
  candles : list (Z * Candle);
  totalPriceVolume : float;
  totalVolume : float;
  currentVWAP : option float;
  currentPrice : option float;
  lastUpdate : option Z;
  currentCandleStart : option Z;
  deviationHistory : list DeviationSnapshot
}.

(** [constructor(productId, windowHours = 12, deviationHistoryWindowHours = 72)] *)
Definition new (windowHours deviationHistoryWindowHours : float) : t :=
  {| windowHours := windowHours;
     deviationHistoryWindowHours := deviationHistoryWindowHours;
     candleIntervalSeconds := 300;
     maxCandles := (windowHours * 60 * 60) / 300;  (* / candleIntervalSeconds *)
     candles := [];
     totalPriceVolume := 0;
     totalVolume := 0;
     currentVWAP := None;
     currentPrice := None;
     lastUpdate := None;
     currentCandleStart := None;
     deviationHistory := [] |}.

(** *** Field updates *)

Definition with_candles (cs : list (Z * Candle)) (v : t) : t :=
  mkState (windowHours v) (deviationHistoryWindowHours v) (candleIntervalSeconds v)
    (maxCandles v) cs (totalPriceVolume v) (totalVolume v) (currentVWAP v)
    (currentPrice v) (lastUpdate v) (currentCandleStart v) (deviationHistory v).

Definition with_totals (tpv tv : float) (v : t) : t :=
  mkState (windowHours v) (deviationHistoryWindowHours v) (candleIntervalSeconds v)
    (maxCandles v) (candles v) tpv tv (currentVWAP v)
    (currentPrice v) (lastUpdate v) (currentCandleStart v) (deviationHistory v).

Definition with_currentVWAP (w : option float) (v : t) : t :=
  mkState (windowHours v) (deviationHistoryWindowHours v) (candleIntervalSeconds v)
    (maxCandles v) (candles v) (totalPriceVolume v) (totalVolume v) w
    (currentPrice v) (lastUpdate v) (currentCandleStart v) (deviationHistory v).

Definition with_current (p : option float) (cs : option Z) (lu : option Z) (v : t) : t :=
  mkState (windowHours v) (deviationHistoryWindowHours v) (candleIntervalSeconds v)
    (maxCandles v) (candles v) (totalPriceVolume v) (totalVolume v) (currentVWAP v)
    p lu cs (deviationHistory v).

Definition with_deviationHistory (h : list DeviationSnapshot) (v : t) : t :=
  mkState (windowHours v) (deviationHistoryWindowHours v) (candleIntervalSeconds v)
    (maxCandles v) (candles v) (totalPriceVolume v) (totalVolume v) (currentVWAP v)
    (currentPrice v) (lastUpdate v) (currentCandleStart v) h.

(** *** The [Map] of candles *)

Definition mapHas (k : Z) (m : list (Z * Candle)) : bool :=
  existsb (fun e => (fst e =? k)%Z) m.

Fixpoint mapGet (k : Z) (m : list (Z * Candle)) : option Candle :=
  match m with
  | [] => None
  | (k', c) :: rest => if (k' =? k)%Z then Some c else mapGet k rest
  end.

(** [Map.prototype.set]: an existing key keeps its place in the
    insertion order, a new key goes last. *)
Fixpoint mapSet (k : Z) (c : Candle) (m : list (Z * Candle)) : list (Z * Candle) :=
  match m with
  | [] => [(k, c)]
  | (k', c') :: rest =>
      if (k' =? k)%Z then (k, c) :: rest else (k', c') :: mapSet k c rest
  end.

Definition mapDelete (k : Z) (m : list (Z * Candle)) : list (Z * Candle) :=
  filter (fun e => negb (fst e =? k)%Z) m.

(** *** [updateStats] *)

Definition updateStats (v : t) : t :=
  if 0 <? totalVolume v
  then with_currentVWAP (Some (totalPriceVolume v / totalVolume v)) v
  else with_currentVWAP None v.

(** *** [removeOldCandles] *)

(** The body of both removal loops. *)
Definition dropCandle (k : Z) (c : Candle) (v : t) : t :=
  with_candles (mapDelete k (candles v))
    (with_totals (totalPriceVolume v - priceVolume c)
                 (totalVolume v - volume c) v).

(** [for (const [start, candle] of this.candles) if (start < cutoffTime) ...]
    over the entries [es] still to be visited. *)
Fixpoint evictExpired (cutoffTime : float) (es : list (Z * Candle)) (v : t) : t :=
  match es with
  | [] => v
  | (k, c) :: rest =>
      if ofZ k <? cutoffTime
      then evictExpired cutoffTime rest (dropCandle k c v)
      else evictExpired cutoffTime rest v
  end.

(** [while (this.candles.size > this.maxCandles) ...], with the size of
    the map as [fuel]; [None] is the [TypeError] of reading
    [oldCandle.priceVolume] when [candles.get] gave [undefined]. *)
Fixpoint enforceMaxCandles (fuel : nat) (v : t) : option t :=
  if maxCandles v <? ofZ (Z.of_nat (length (candles v))) then
    match fuel with
    | O => None
    | S fuel' =>
        match RollingVWAP.minKey (map fst (candles v)) with
        | None => None
        | Some oldestStart =>
            match mapGet oldestStart (candles v) with
            | None => None
            | Some oldCandle =>
                enforceMaxCandles fuel' (dropCandle oldestStart oldCandle v)
            end
        end
    end
  else Some v.

(** [filter(entry => entry.timestamp >= cutoffTime)] *)
Definition pruneHistory (cutoffTime : float) (h : list DeviationSnapshot) :
  list DeviationSnapshot :=
  filter (fun entry => cutoffTime <=? ofZ (timestamp entry)) h.

Definition removeOldCandles (nowMs : Z) (v : t) : option t :=
  let now := RollingVWAP.nowSeconds nowMs in
  let cutoffTime := ofZ now - windowHours v * 60 * 60 in
  let v1 := evictExpired cutoffTime (candles v) v in
  match enforceMaxCandles (length (candles v1)) v1 with
  | None => None
  | Some v2 =>
      let deviationCutoffTime :=
        ofZ now - deviationHistoryWindowHours v2 * 60 * 60 in
      Some (with_deviationHistory
              (pruneHistory deviationCutoffTime (deviationHistory v2)) v2)
  end.

(** *** [recordDeviation] *)

Fixpoint findIndex (ts : Z) (h : list DeviationSnapshot) : option nat :=
  match h with
  | [] => None
  | d :: rest =>
      if (timestamp d =? ts)%Z then Some O
      else option_map S (findIndex ts rest)
  end.

(** [sort((a, b) => a.timestamp - b.timestamp)], a stable sort. *)
Fixpoint insertByTimestamp (d : DeviationSnapshot) (l : list DeviationSnapshot) :
  list DeviationSnapshot :=
  match l with
  | [] => [d]
  | e :: rest =>
      if (timestamp d <=? timestamp e)%Z then d :: e :: rest
      else e :: insertByTimestamp d rest
  end.

Definition sortByTimestamp (l : list DeviationSnapshot) : list DeviationSnapshot :=
  fold_right insertByTimestamp [] l.

Definition recordDeviation (nowMs : Z) (v : t) : t :=
  if negb (truthy (currentVWAP v)) || negb (truthy (currentPrice v))
     || negb (Js.truthyZ (currentCandleStart v))
  then v
  else
    match currentVWAP v, currentPrice v, currentCandleStart v with
    | Some vw, Some p, Some candleTimestamp =>
        let deviation := p - vw in
        let deviationPercent := (deviation / vw) * 100 in
        let existingIndex := findIndex candleTimestamp (deviationHistory v) in
        let snapshot :=
          {| timestamp := candleTimestamp; price := p; vwap := vw;
             deviation := deviation; deviationPercent := deviationPercent |} in
        let h1 :=
          match existingIndex with
          | Some i => RollingVWAP.setAt i snapshot (deviationHistory v)
          | None => sortByTimestamp (deviationHistory v ++ [snapshot])
          end in
        let now := RollingVWAP.nowSeconds nowMs in
        let cutoffTime := ofZ now - deviationHistoryWindowHours v * 60 * 60 in
        with_deviationHistory (pruneHistory cutoffTime h1) v
    | _, _, _ => v
    end.

(** *** [updateCandle] *)

Definition updateCandle (candle : CandleMsg) (nowMs : Z) (v : t) : option t :=
  let start := m_start candle in
  let high := m_high candle in
  let low := m_low candle in
  let close := m_close candle in
  let volume := m_volume candle in
  let typicalPrice := (high + low + close) / 3 in
  let priceVolume := typicalPrice * volume in
  let removed :=
    if mapHas start (candles v) then
      match mapGet start (candles v) with
      | Some oldCandle =>
          Some (with_totals (totalPriceVolume v - Double.priceVolume oldCandle)
                            (totalVolume v - Double.volume oldCandle) v)
      | None => None
      end
    else removeOldCandles nowMs v in
  match removed with
  | None => None
  | Some v1 =>
      let v2 :=
        with_candles
          (mapSet start
             {| start := start; high := high; low := low; close := close;
                volume := volume; typicalPrice := typicalPrice;
                priceVolume := priceVolume |}
             (candles v1)) v1 in
      let v3 := with_totals (totalPriceVolume v2 + priceVolume)
                            (totalVolume v2 + volume) v2 in
      let v4 := with_current (Some close) (Some start) (Some nowMs) v3 in
      let v5 := updateStats v4 in
      Some (recordDeviation nowMs v5)
  end.

(** *** [updatePrice], [getDeviation], [getDeviationPercent] *)

Definition updatePrice (price : float) (nowMs : Z) (v : t) : t :=
  with_current (Some price) (currentCandleStart v) (Some nowMs) v.

Definition getDeviation (v : t) : option float :=
  if negb (truthy (currentVWAP v)) || negb (truthy (currentPrice v)) then None
  else
    match currentVWAP v, currentPrice v with
    | Some vw, Some p => Some (p - vw)
    | _, _ => None
    end.

Definition getDeviationPercent (v : t) : option float :=
  if negb (truthy (currentVWAP v)) || negb (truthy (currentPrice v)) then None
  else
    match currentVWAP v, currentPrice v with
    | Some vw, Some p => Some (((p - vw) / vw) * 100)
    | _, _ => None
    end.

(** *** [initializeDeviationHistory] *)

(** [allCandles.sort((a, b) => a.start - b.start)] *)
Fixpoint insertByStart (c : CandleMsg) (l : list CandleMsg) : list CandleMsg :=
  match l with
  | [] => [c]
  | e :: rest =>
      if (m_start c <=? m_start e)%Z then c :: e :: rest
      else e :: insertByStart c rest
  end.

Definition sortByStart (l : list CandleMsg) : list CandleMsg :=
  fold_right insertByStart [] l.

(** The inner loop [for (j = 0; j <= i; j++)] over [sortedCandles[0..i]]. *)
Definition windowSums (windowStart : float) (candleStart : Z) (upTo : list CandleMsg) :
  float * float :=
  fold_left
    (fun (acc : float * float) (windowCandle : CandleMsg) =>
       let windowCandleStart := m_start windowCandle in
       if (windowStart <=? ofZ windowCandleStart)
          && (windowCandleStart <=? candleStart)%Z
       then
         let typicalPrice :=
           (m_high windowCandle + m_low windowCandle + m_close windowCandle) / 3 in
         (fst acc + typicalPrice * m_volume windowCandle,
          snd acc + m_volume windowCandle)
       else acc)
    upTo (0, 0).

(** The outer loop, at index [i = length seen], over the candles [todo]
    still to be processed; [h] is the history pushed so far. *)
Fixpoint backfill (windowHours historyStartTime : float)
  (seen todo : list CandleMsg) (h : list DeviationSnapshot) :
  list DeviationSnapshot :=
  match todo with
  | [] => h
  | candle :: rest =>
      let candleStart := m_start candle in
      let candleClose := m_close candle in
      let upTo := seen ++ [candle] in
      if ofZ candleStart <? historyStartTime
      then backfill windowHours historyStartTime upTo rest h
      else
        let windowStart := ofZ candleStart - windowHours * 60 * 60 in
        let '(windowPriceVolume, windowVolume) :=
          windowSums windowStart candleStart upTo in
        let vwapAtMoment :=
          if 0 <? windowVolume
          then Some (windowPriceVolume / windowVolume) else None in
        match vwapAtMoment with
        | Some vw =>
            let deviation := candleClose - vw in
            let deviationPercent := (deviation / vw) * 100 in
            backfill windowHours historyStartTime upTo rest
              (h ++ [ {| timestamp := candleStart; price := candleClose;
                         vwap := vw; deviation := deviation;
                         deviationPercent := deviationPercent |} ])
        | None => backfill windowHours historyStartTime upTo rest h
        end
  end.

Definition initializeDeviationHistory (allCandles : list CandleMsg) (nowMs : Z)
  (v : t) : t :=
  let sortedCandles := sortByStart allCandles in
  let now := RollingVWAP.nowSeconds nowMs in
  let historyStartTime := ofZ now - deviationHistoryWindowHours v * 60 * 60 in
  let h := backfill (windowHours v) historyStartTime [] sortedCandles [] in
  with_deviationHistory (sortByTimestamp h) v.

(** *** Sequences of method calls, and the VWAP recomputed from scratch *)

Inductive Call :=
| CallUpdateCandle (candle : CandleMsg) (nowMs : Z)
| CallRemoveOldCandles (nowMs : Z)
| CallUpdateStats
| CallUpdatePrice (price : float) (nowMs : Z)
| CallRecordDeviation (nowMs : Z).

Definition call (c : Call) (v : t) : option t :=
  match c with
  | CallUpdateCandle candle nowMs => updateCandle candle nowMs v
  | CallRemoveOldCandles nowMs => removeOldCandles nowMs v
  | CallUpdateStats => Some (updateStats v)
  | CallUpdatePrice price nowMs => Some (updatePrice price nowMs v)
  | CallRecordDeviation nowMs => Some (recordDeviation nowMs v)
  end.

(** The calls of [cs] in order; [None] as soon as one of them throws. *)
Fixpoint calls (cs : list Call) (v : t) : option t :=
  match cs with
  | [] => Some v
  | c :: rest =>
      match call c v with
      | Some v' => calls rest v'
      | None => None
      end
  end.

(** The VWAP of the retained bars, recomputed from their raw fields in
    the order of the map, as [initialize] and [updateStats] compute it
    from bars. *)
Definition vwapFromScratch (m : list (Z * Candle)) : option float :=
  let '(totalPriceVolume, totalVolume) :=
    fold_left
      (fun (acc : float * float) (e : Z * Candle) =>
         let c := snd e in
         let typicalPrice := (high c + low c + close c) / 3 in
         (fst acc + typicalPrice * volume c, snd acc + volume c))
      m (0, 0) in
  if 0 <? totalVolume then Some (totalPriceVolume / totalVolume) else None.

End Double.

(** * Properties *)

(** ** Facts about the coercions *)

Module JsFacts.
Import Js.

Lemma Qltb_iff (x y : Q) : Qltb x y = true <-> x < y.
Proof.
  unfold Qltb. rewrite negb_true_iff. split.
  - intros H. apply Qnot_le_lt. intros Hle.
    apply Qle_bool_iff in Hle. congruence.
  - intros H. destruct (Qle_bool y x) eqn:E; [|reflexivity].
    apply Qle_bool_iff in E. apply Qlt_not_le in H. contradiction.
Qed.

Lemma Qltb_false_iff (x y : Q) : Qltb x y = false <-> y <= x.
Proof.
  unfold Qltb. rewrite negb_false_iff. apply Qle_bool_iff.
Qed.

Lemma Qltb_comp (x x' y y' : Q) :
  x == x' -> y == y' -> Qltb x y = Qltb x' y'.
Proof.
  intros Hx Hy. unfold Qltb. f_equal. apply Qleb_comp; assumption.
Qed.

Lemma truthyQ_Some (x : option Q) :
  truthyQ x = true <-> exists q, x = Some q /\ ~ q == 0.
Proof.
  destruct x as [q|]; simpl.
  - rewrite negb_true_iff. split.
    + intros H. exists q. split; [reflexivity|].
      intros E. apply Qeq_bool_iff in E. congruence.
    + intros [q' [E H]]. injection E as <-.
      destruct (Qeq_bool q 0) eqn:B; [|reflexivity].
      apply Qeq_bool_iff in B. contradiction.
  - split; [discriminate|]. intros [q [E _]]. discriminate.
Qed.

Lemma truthyQ_false (x : option Q) :
  truthyQ x = false <-> x = None \/ exists q, x = Some q /\ q == 0.
Proof.
  destruct x as [q|]; simpl.
  - rewrite negb_false_iff, Qeq_bool_iff. split.
    + intros H. right. exists q. split; [reflexivity | assumption].
    + intros [H | [q' [E H]]]; [discriminate|]. injection E as <-. assumption.
  - split; [intros _; left; reflexivity | reflexivity].
Qed.

Lemma optQeq_refl (a : option Q) : optQeq a a.
Proof. destruct a; simpl; [reflexivity | exact I]. Qed.


Lemma orZero_Num (q : Q) : orZero (Num q) == q.
Proof.
  unfold orZero. destruct (Qeq_bool q 0) eqn:E; [|reflexivity].
  apply Qeq_bool_iff in E. symmetry. exact E.
Qed.

End JsFacts.

(** ** The rolling window: running totals *)

Module RollingVWAPFacts.
Import Js JsFacts RollingVWAP.

Lemma sumOver_app (f : Candle -> Q) (m1 m2 : list (Z * Candle)) :
  sumOver f (m1 ++ m2) == sumOver f m1 + sumOver f m2.
Proof.
  induction m1 as [|e m1 IH]; simpl.
  - lra.
  - rewrite IH. lra.
Qed.

Lemma mapDelete_absent (k : Z) (m : list (Z * Candle)) :
  ~ In k (keys m) -> mapDelete k m = m.
Proof.
  induction m as [|[k' c'] m IH]; simpl; intros H; [reflexivity|].
  destruct (Z.eqb_spec k' k) as [->|Hne]; simpl.
  - exfalso. apply H. left. reflexivity.
  - f_equal. apply IH. intros Hin. apply H. right. assumption.
Qed.

Lemma keys_mapDelete_incl (k x : Z) (m : list (Z * Candle)) :
  In x (keys (mapDelete k m)) -> In x (keys m) /\ x <> k.
Proof.
  unfold keys, mapDelete. rewrite in_map_iff.
  intros [[k' c'] [E Hin]]. simpl in E. subst k'.
  apply filter_In in Hin. destruct Hin as [Hin Hb]. simpl in Hb.
  split.
  - apply in_map_iff. exists (x, c'). split; [reflexivity | assumption].
  - intros ->. rewrite Z.eqb_refl in Hb. discriminate.
Qed.

Lemma NoDup_keys_mapDelete (k : Z) (m : list (Z * Candle)) :
  NoDup (keys m) -> NoDup (keys (mapDelete k m)).
Proof.
  induction m as [|[k' c'] m IH]; simpl; intros H; [constructor|].
  inversion H as [|? ? Hnotin Hnd]; subst.
  destruct (Z.eqb_spec k' k) as [->|Hne]; simpl.
  - apply IH. assumption.
  - constructor; [|apply IH; assumption].
    intros Hin. apply keys_mapDelete_incl in Hin. tauto.
Qed.

Lemma In_mapDelete (k : Z) (e : Z * Candle) (m : list (Z * Candle)) :
  In e m -> fst e <> k -> In e (mapDelete k m).
Proof.
  intros Hin Hne. unfold mapDelete. apply filter_In. split; [assumption|].
  destruct (Z.eqb_spec (fst e) k); [contradiction | reflexivity].
Qed.

Lemma Forall_mapDelete (P : Z * Candle -> Prop) (k : Z) (m : list (Z * Candle)) :
  Forall P m -> Forall P (mapDelete k m).
Proof.
  intros H. apply Forall_forall. intros e Hin.
  unfold mapDelete in Hin. apply filter_In in Hin.
  rewrite Forall_forall in H. apply H. tauto.
Qed.

(** Deleting a key of a map with unique keys removes exactly the
    contribution of its candle. *)
Lemma sumOver_mapDelete (f : Candle -> Q) (k : Z) (c : Candle) (m : list (Z * Candle)) :
  NoDup (keys m) -> In (k, c) m ->
  sumOver f (mapDelete k m) == sumOver f m - f c.
Proof.
  induction m as [|[k' c'] m IH]; simpl; intros Hnd Hin; [contradiction|].
  inversion Hnd as [|? ? Hnotin Hnd']; subst.
  destruct Hin as [E | Hin].
  - injection E as -> ->. rewrite Z.eqb_refl. simpl.
    rewrite (mapDelete_absent k m Hnotin). lra.
  - destruct (Z.eqb_spec k' k) as [->|Hne]; simpl.
    + exfalso. apply Hnotin. apply in_map_iff. exists (k, c). tauto.
    + rewrite (IH Hnd' Hin). lra.
Qed.

Lemma length_mapDelete (k : Z) (c : Candle) (m : list (Z * Candle)) :
  NoDup (keys m) -> In (k, c) m ->
  S (length (mapDelete k m)) = length m.
Proof.
  induction m as [|[k' c'] m IH]; simpl; intros Hnd Hin; [contradiction|].
  inversion Hnd as [|? ? Hnotin Hnd']; subst.
  destruct Hin as [E | Hin].
  - injection E as -> ->. rewrite Z.eqb_refl. simpl.
    rewrite (mapDelete_absent k m Hnotin). reflexivity.
  - destruct (Z.eqb_spec k' k) as [->|Hne]; simpl.
    + exfalso. apply Hnotin. apply in_map_iff. exists (k, c). tauto.
    + rewrite (IH Hnd' Hin). reflexivity.
Qed.

Lemma mapGet_In (k : Z) (c : Candle) (m : list (Z * Candle)) :
  mapGet k m = Some c -> In (k, c) m.
Proof.
  induction m as [|[k' c'] m IH]; simpl; [discriminate|].
  destruct (Z.eqb_spec k' k) as [->|Hne].
  - intros E. injection E as ->. left. reflexivity.
  - intros E. right. apply IH. assumption.
Qed.

Lemma mapGet_of_key (k : Z) (m : list (Z * Candle)) :
  In k (keys m) -> exists c, mapGet k m = Some c.
Proof.
  induction m as [|[k' c'] m IH]; simpl; [contradiction|].
  intros [->|Hin].
  - rewrite Z.eqb_refl. eexists. reflexivity.
  - destruct (k' =? k)%Z; [eexists; reflexivity | apply IH; assumption].
Qed.

Lemma mapHas_keys (k : Z) (m : list (Z * Candle)) :
  mapHas k m = true <-> In k (keys m).
Proof.
  unfold mapHas, keys. rewrite existsb_exists, in_map_iff. split.
  - intros [e [Hin Hb]]. exists e. apply Z.eqb_eq in Hb. tauto.
  - intros [e [E Hin]]. exists e. rewrite E, Z.eqb_refl. tauto.
Qed.

Lemma minKey_In (ks : list Z) (k : Z) : minKey ks = Some k -> In k ks.
Proof.
  revert k. induction ks as [|x ks IH]; simpl; intros k; [discriminate|].
  destruct (minKey ks) as [m|] eqn:E.
  - intros H. injection H as <-.
    destruct (Z.min_spec x m) as [[_ ->] | [_ ->]]; [left; reflexivity|].
    right. apply IH. reflexivity.
  - intros H. injection H as <-. left. reflexivity.
Qed.

Lemma minKey_nonempty (ks : list Z) : ks <> [] -> exists k, minKey ks = Some k.
Proof.
  destruct ks as [|x ks]; [congruence|]. intros _. simpl.
  destruct (minKey ks); eexists; reflexivity.
Qed.

(** *** The two removal loops *)

Lemma dropCandle_consistent (k : Z) (c : Candle) (v : t) :
  Consistent v -> In (k, c) (candles v) -> Consistent (dropCandle k c v).
Proof.
  intros [Hk Hs Hpv Hvol] Hin. constructor; simpl.
  - apply NoDup_keys_mapDelete. assumption.
  - apply Forall_mapDelete. assumption.
  - rewrite (sumOver_mapDelete priceVolume k c _ Hk Hin). rewrite Hpv. reflexivity.
  - rewrite (sumOver_mapDelete volume k c _ Hk Hin). rewrite Hvol. reflexivity.
Qed.

Lemma evictExpired_consistent (cutoffTime : Q) (es : list (Z * Candle)) :
  forall v : t,
    Consistent v -> NoDup (keys es) -> incl es (candles v) ->
    Consistent (evictExpired cutoffTime es v).
Proof.
  induction es as [|[k c] es IH]; simpl; intros v Hc Hnd Hincl; [assumption|].
  inversion Hnd as [|? ? Hnotin Hnd']; subst.
  assert (Hin : In (k, c) (candles v)) by (apply Hincl; left; reflexivity).
  assert (Hrest : incl es (candles v)) by (intros e He; apply Hincl; right; assumption).
  destruct (Qltb (inject_Z k) cutoffTime).
  - apply IH; [apply dropCandle_consistent; assumption | assumption |].
    intros e He. simpl. apply In_mapDelete; [apply Hrest; assumption|].
    intros E. apply Hnotin. subst k. apply in_map. assumption.
  - apply IH; assumption.
Qed.

Lemma evictExpired_maxCandles (cutoffTime : Q) (es : list (Z * Candle)) :
  forall v : t, maxCandles (evictExpired cutoffTime es v) = maxCandles v.
Proof.
  induction es as [|[k c] es IH]; simpl; intros v; [reflexivity|].
  destruct (Qltb (inject_Z k) cutoffTime); rewrite IH; reflexivity.
Qed.

(** The [while] loop keeps the invariant whenever it returns. *)
Lemma enforceMaxCandles_consistent (fuel : nat) :
  forall v v' : t,
    Consistent v -> enforceMaxCandles fuel v = Some v' -> Consistent v'.
Proof.
  induction fuel as [|fuel IH]; simpl; intros v v' Hc H.
  - destruct (Qltb _ _); [discriminate|]. injection H as <-. assumption.
  - destruct (Qltb _ _); [|injection H as <-; assumption].
    destruct (minKey (map fst (candles v))) as [k|] eqn:Ek; [|discriminate].
    destruct (mapGet k (candles v)) as [c|] eqn:Eg; [|discriminate].
    apply (IH _ _ (dropCandle_consistent k c v Hc (mapGet_In _ _ _ Eg)) H).
Qed.

(** With a budget that is not negative the loop never throws, and the
    size of the map is enough fuel. *)
Lemma enforceMaxCandles_total (fuel : nat) :
  forall v : t,
    Consistent v -> 0 <= maxCandles v -> (length (candles v) <= fuel)%nat ->
    exists v', enforceMaxCandles fuel v = Some v'.
Proof.
  induction fuel as [|fuel IH]; simpl; intros v Hc Hmax Hlen.
  - destruct (Qltb (maxCandles v) _) eqn:E; [|eexists; reflexivity].
    apply Qltb_iff in E. exfalso.
    assert (length (candles v) = 0)%nat as L by lia.
    rewrite L in E. change (inject_Z (Z.of_nat 0)) with 0 in E. lra.
  - destruct (Qltb (maxCandles v) _) eqn:E; [|eexists; reflexivity].
    apply Qltb_iff in E.
    assert (Hne : map fst (candles v) <> []).
    { destruct (candles v); [|simpl; discriminate].
      change (inject_Z (Z.of_nat (length (@nil (Z * Candle))))) with 0 in E. lra. }
    destruct (minKey_nonempty _ Hne) as [k Ek]. rewrite Ek.
    destruct (mapGet_of_key k (candles v) (minKey_In _ _ Ek)) as [c Eg].
    rewrite Eg.
    apply IH.
    + apply dropCandle_consistent; [assumption | apply mapGet_In; assumption].
    + exact Hmax.
    + simpl.
      pose proof (length_mapDelete k c (candles v) (cons_keys v Hc) (mapGet_In _ _ _ Eg)).
      lia.
Qed.

Lemma enforceMaxCandles_maxCandles (fuel : nat) :
  forall v v' : t, enforceMaxCandles fuel v = Some v' -> maxCandles v' = maxCandles v.
Proof.
  induction fuel as [|fuel IH]; simpl; intros v v' H.
  - destruct (Qltb _ _); [discriminate|]. injection H as <-. reflexivity.
  - destruct (Qltb _ _); [|injection H as <-; reflexivity].
    destruct (minKey (map fst (candles v))) as [k|]; [|discriminate].
    destruct (mapGet k (candles v)) as [c|]; [|discriminate].
    rewrite (IH _ _ H). reflexivity.
Qed.

Lemma removeOldCandles_consistent (nowMs : Z) (v v' : t) :
  Consistent v -> removeOldCandles nowMs v = Some v' ->
  Consistent v' /\ maxCandles v' = maxCandles v.
Proof.
  intros Hc. unfold removeOldCandles.
  set (cutoff := inject_Z (nowSeconds nowMs) - windowHours v * 60 * 60).
  assert (H1 : Consistent (evictExpired cutoff (candles v) v)).
  { apply evictExpired_consistent; [assumption | apply (cons_keys v Hc) | apply incl_refl]. }
  destruct (enforceMaxCandles _ _) as [v2|] eqn:E; [|discriminate].
  intros H. injection H as <-.
  pose proof (enforceMaxCandles_consistent _ _ _ H1 E) as [Hk Hs Hpv Hvol].
  split.
  - constructor; simpl; assumption.
  - simpl. rewrite (enforceMaxCandles_maxCandles _ _ _ E).
    apply evictExpired_maxCandles.
Qed.

Lemma removeOldCandles_total (nowMs : Z) (v : t) :
  Consistent v -> 0 <= maxCandles v -> exists v', removeOldCandles nowMs v = Some v'.
Proof.
  intros Hc Hmax. unfold removeOldCandles.
  set (cutoff := inject_Z (nowSeconds nowMs) - windowHours v * 60 * 60).
  assert (H1 : Consistent (evictExpired cutoff (candles v) v)).
  { apply evictExpired_consistent; [assumption | apply (cons_keys v Hc) | apply incl_refl]. }
  destruct (enforceMaxCandles_total (length (candles (evictExpired cutoff (candles v) v)))
              _ H1) as [v2 E].
  - rewrite evictExpired_maxCandles. assumption.
  - apply Nat.le_refl.
  - rewrite E. eexists. reflexivity.
Qed.

Lemma incl_mapDelete (k : Z) (m : list (Z * Candle)) : incl (mapDelete k m) m.
Proof. intros e He. unfold mapDelete in He. apply filter_In in He. tauto. Qed.

Lemma evictExpired_incl (cutoffTime : Q) (es : list (Z * Candle)) :
  forall v : t, incl (candles (evictExpired cutoffTime es v)) (candles v).
Proof.
  induction es as [|[k c] es IH]; simpl; intros v; [apply incl_refl|].
  destruct (Qltb (inject_Z k) cutoffTime); [|apply IH].
  eapply incl_tran; [apply IH|]. simpl. apply incl_mapDelete.
Qed.

Lemma enforceMaxCandles_incl (fuel : nat) :
  forall v v' : t, enforceMaxCandles fuel v = Some v' -> incl (candles v') (candles v).
Proof.
  induction fuel as [|fuel IH]; simpl; intros v v' H.
  - destruct (Qltb _ _); [discriminate|]. injection H as <-. apply incl_refl.
  - destruct (Qltb _ _); [|injection H as <-; apply incl_refl].
    destruct (minKey (map fst (candles v))) as [k|]; [|discriminate].
    destruct (mapGet k (candles v)) as [c|]; [|discriminate].
    eapply incl_tran; [apply (IH _ _ H)|]. simpl. apply incl_mapDelete.
Qed.

Lemma removeOldCandles_incl (nowMs : Z) (v v' : t) :
  removeOldCandles nowMs v = Some v' -> incl (candles v') (candles v).
Proof.
  unfold removeOldCandles.
  destruct (enforceMaxCandles _ _) as [v2|] eqn:E; [|discriminate].
  intros H. injection H as <-. simpl.
  eapply incl_tran; [apply (enforceMaxCandles_incl _ _ _ E)|].
  apply evictExpired_incl.
Qed.

(** *** [Map.prototype.set] *)

Lemma mapSet_new (k : Z) (c : Candle) (m : list (Z * Candle)) :
  ~ In k (keys m) -> mapSet k c m = m ++ [(k, c)].
Proof.
  induction m as [|[k' c'] m IH]; simpl; intros H; [reflexivity|].
  destruct (Z.eqb_spec k' k) as [->|Hne].
  - exfalso. apply H. left. reflexivity.
  - f_equal. apply IH. intros Hin. apply H. right. assumption.
Qed.

Lemma keys_mapSet_existing (k : Z) (c : Candle) (m : list (Z * Candle)) :
  In k (keys m) -> keys (mapSet k c m) = keys m.
Proof.
  induction m as [|[k' c'] m IH]; simpl; intros H; [contradiction|].
  destruct (Z.eqb_spec k' k) as [->|Hne]; simpl; [reflexivity|].
  f_equal. apply IH. destruct H as [E|H]; [contradiction | assumption].
Qed.

Lemma NoDup_keys_mapSet (k : Z) (c : Candle) (m : list (Z * Candle)) :
  NoDup (keys m) -> NoDup (keys (mapSet k c m)).
Proof.
  intros Hnd. destruct (in_dec Z.eq_dec k (keys m)) as [Hin|Hnotin].
  - rewrite keys_mapSet_existing; assumption.
  - rewrite mapSet_new by assumption. unfold keys. rewrite map_app. simpl.
    apply NoDup_app; [assumption | repeat constructor; simpl; tauto |].
    intros x Hx [<-|[]]. contradiction.
Qed.

Lemma Forall_mapSet (P : Z * Candle -> Prop) (k : Z) (c : Candle) (m : list (Z * Candle)) :
  Forall P m -> P (k, c) -> Forall P (mapSet k c m).
Proof.
  induction m as [|[k' c'] m IH]; simpl; intros H Hp.
  - constructor; [assumption | constructor].
  - inversion H; subst. destruct (k' =? k)%Z; constructor; auto.
Qed.

(** Replacing the candle of an existing key exchanges its contribution. *)
Lemma sumOver_mapSet_existing (f : Candle -> Q) (k : Z) (c old : Candle)
  (m : list (Z * Candle)) :
  mapGet k m = Some old ->
  sumOver f (mapSet k c m) == sumOver f m - f old + f c.
Proof.
  induction m as [|[k' c'] m IH]; simpl; [discriminate|].
  destruct (Z.eqb_spec k' k) as [->|Hne]; simpl.
  - intros E. injection E as ->. lra.
  - intros E. rewrite (IH E). lra.
Qed.

Lemma sumOver_mapSet_new (f : Candle -> Q) (k : Z) (c : Candle) (m : list (Z * Candle)) :
  ~ In k (keys m) -> sumOver f (mapSet k c m) == sumOver f m + f c.
Proof.
  intros H. rewrite mapSet_new by assumption. rewrite sumOver_app. simpl. lra.
Qed.

(** *** The calls keep the invariant *)

Lemma Consistent_frame (v v' : t) :
  candles v' = candles v -> totalPriceVolume v' = totalPriceVolume v ->
  totalVolume v' = totalVolume v -> Consistent v -> Consistent v'.
Proof.
  intros Ec Ep Ev [Hk Hs Hpv Hvol].
  constructor; rewrite ?Ec, ?Ep, ?Ev; assumption.
Qed.

Lemma recordDeviation_frame (nowMs : Z) (v : t) :
  candles (recordDeviation nowMs v) = candles v /\
  totalPriceVolume (recordDeviation nowMs v) = totalPriceVolume v /\
  totalVolume (recordDeviation nowMs v) = totalVolume v /\
  maxCandles (recordDeviation nowMs v) = maxCandles v.
Proof.
  unfold recordDeviation.
  destruct (_ || _); [tauto|].
  destruct (currentVWAP v), (currentPrice v), (currentCandleStart v); simpl; tauto.
Qed.

Lemma updateCandle_consistent (candle : CandleMsg) (nowMs : Z) (v v' : t) :
  Consistent v -> updateCandle candle nowMs v = Some v' ->
  Consistent v' /\ maxCandles v' = maxCandles v.
Proof.
  intros Hc. unfold updateCandle.
  set (new := {| start := m_start candle; high := m_high candle;
                 low := m_low candle; close := m_close candle;
                 volume := m_volume candle;
                 typicalPrice := (m_high candle + m_low candle + m_close candle) / 3;
                 priceVolume :=
                   (m_high candle + m_low candle + m_close candle) / 3
                   * m_volume candle |}).
  assert (Hnew : wellStored (m_start candle, new)).
  { unfold wellStored, barPriceVolume. simpl. reflexivity. }
  destruct (mapHas (m_start candle) (candles v)) eqn:Eh.
  - (* revision of a bar already in the window *)
    destruct (mapGet (m_start candle) (candles v)) as [old|] eqn:Eg; [|discriminate].
    intros H. injection H as <-.
    match goal with
    | |- Consistent (recordDeviation ?n ?x) /\ _ =>
        destruct (recordDeviation_frame n x) as (Ec & Ep & Ev & Em)
    end.
    simpl in Ec, Ep, Ev, Em.
    split; [|exact Em].
    destruct Hc as [Hk Hs Hpv Hvol].
    constructor.
    + rewrite Ec. apply NoDup_keys_mapSet. assumption.
    + rewrite Ec. apply Forall_mapSet; assumption.
    + rewrite Ec, Ep. rewrite (sumOver_mapSet_existing _ _ _ _ _ Eg). rewrite Hpv.
      reflexivity.
    + rewrite Ec, Ev. rewrite (sumOver_mapSet_existing _ _ _ _ _ Eg). rewrite Hvol.
      reflexivity.
  - (* a new bar: the expired ones go first *)
    destruct (removeOldCandles nowMs v) as [v1|] eqn:Er; [|discriminate].
    intros H. injection H as <-.
    destruct (removeOldCandles_consistent _ _ _ Hc Er) as [[Hk Hs Hpv Hvol] Hm].
    assert (Hfresh : ~ In (m_start candle) (keys (candles v1))).
    { intros Hin. apply in_map_iff in Hin. destruct Hin as [e [E Hin]].
      apply (removeOldCandles_incl _ _ _ Er) in Hin.
      assert (mapHas (m_start candle) (candles v) = true) as Ht.
      { apply mapHas_keys. apply in_map_iff. exists e. tauto. }
      congruence. }
    match goal with
    | |- Consistent (recordDeviation ?n ?x) /\ _ =>
        destruct (recordDeviation_frame n x) as (Ec & Ep & Ev & Em)
    end.
    simpl in Ec, Ep, Ev, Em.
    split; [|rewrite <- Hm; exact Em].
    constructor.
    + rewrite Ec. apply NoDup_keys_mapSet. assumption.
    + rewrite Ec. apply Forall_mapSet; assumption.
    + rewrite Ec, Ep. rewrite (sumOver_mapSet_new _ _ _ _ Hfresh). rewrite Hpv.
      reflexivity.
    + rewrite Ec, Ev. rewrite (sumOver_mapSet_new _ _ _ _ Hfresh). rewrite Hvol.
      reflexivity.
Qed.

Lemma updateCandle_total (candle : CandleMsg) (nowMs : Z) (v : t) :
  Consistent v -> 0 <= maxCandles v -> exists v', updateCandle candle nowMs v = Some v'.
Proof.
  intros Hc Hmax. unfold updateCandle.
  destruct (mapHas (m_start candle) (candles v)) eqn:Eh.
  - apply mapHas_keys in Eh. destruct (mapGet_of_key _ _ Eh) as [old Eg].
    rewrite Eg. eexists. reflexivity.
  - destruct (removeOldCandles_total nowMs v Hc Hmax) as [v1 Er]. rewrite Er.
    eexists. reflexivity.
Qed.

Lemma call_consistent (c : Call) (v : t) :
  Consistent v -> 0 <= maxCandles v ->
  exists v', call c v = Some v' /\ Consistent v' /\ 0 <= maxCandles v'.
Proof.
  intros Hc Hmax. destruct c as [candle nowMs | nowMs | | price nowMs | nowMs]; simpl.
  - destruct (updateCandle_total candle nowMs v Hc Hmax) as [v' E].
    exists v'. destruct (updateCandle_consistent _ _ _ _ Hc E) as [H1 H2].
    rewrite H2. tauto.
  - destruct (removeOldCandles_total nowMs v Hc Hmax) as [v' E].
    exists v'. destruct (removeOldCandles_consistent _ _ _ Hc E) as [H1 H2].
    rewrite H2. tauto.
  - eexists. split; [reflexivity|]. split; [|exact Hmax].
    apply (Consistent_frame v); auto.
  - eexists. split; [reflexivity|]. split; [|exact Hmax].
    apply (Consistent_frame v); auto.
  - eexists. split; [reflexivity|].
    destruct (recordDeviation_frame nowMs v) as (Ec & Ep & Ev & Em).
    split; [apply (Consistent_frame v); auto | rewrite Em; exact Hmax].
Qed.

Lemma calls_consistent (cs : list Call) :
  forall v : t,
    Consistent v -> 0 <= maxCandles v ->
    exists v', calls cs v = Some v' /\ Consistent v'.
Proof.
  induction cs as [|c cs IH]; simpl; intros v Hc Hmax.
  - exists v. tauto.
  - destruct (call_consistent c v Hc Hmax) as (v1 & E & Hc1 & Hmax1).
    rewrite E. apply IH; assumption.
Qed.

Lemma new_consistent (wh dh : Q) : Consistent (new wh dh).
Proof.
  constructor; simpl; [constructor | constructor | reflexivity | reflexivity].
Qed.

Lemma new_maxCandles (wh dh : Q) : 0 <= wh -> 0 <= maxCandles (new wh dh).
Proof.
  intros H. simpl.
  assert (E : wh * 60 * 60 / 300 == wh * 12) by (field; discriminate).
  rewrite E. lra.
Qed.

Lemma sumOver_wellStored (m : list (Z * Candle)) :
  Forall wellStored m -> sumOver priceVolume m == sumOver barPriceVolume m.
Proof.
  induction 1 as [|e m He Hm IH]; simpl; [reflexivity|].
  unfold wellStored in He. rewrite He, IH. reflexivity.
Qed.

Lemma vwapOf_comp (a a' b b' : Q) :
  a == a' -> b == b' -> optQeq (vwapOf a b) (vwapOf a' b').
Proof.
  intros Ha Hb. unfold vwapOf.
  rewrite (Qltb_comp 0 0 b b' (Qeq_refl 0) Hb).
  destruct (Qltb 0 b'); simpl; [|exact I].
  rewrite Ha, Hb. reflexivity.
Qed.

(** The VWAP of the running totals of a consistent object is the VWAP of
    its retained bars. *)
Lemma consistent_vwap (v : t) :
  Consistent v ->
  optQeq (vwapOf (totalPriceVolume v) (totalVolume v)) (vwapFromScratch (candles v)).
Proof.
  intros [Hk Hs Hpv Hvol]. unfold vwapFromScratch.
  apply vwapOf_comp; [|assumption].
  rewrite Hpv. apply sumOver_wellStored. assumption.
Qed.

(** The bookkeeping of the running totals is right in exact arithmetic.
    With rationals for numbers, from the object as constructed every
    sequence of [updateCandle], [removeOldCandles], [updateStats],
    [updatePrice] and [recordDeviation] calls runs to completion, and
    afterwards the running totals are the sums over the candles retained
    in the map, so that the VWAP computed from
    [totalPriceVolume / totalVolume] equals the VWAP recomputed from the
    raw fields of exactly the retained bars.  The doubles of the source
    round every [+=] and [-=], and the equality is lost, as module
    [DoubleFacts] below shows on three bars. *)
Lemma running_totals_exact (windowHours deviationHistoryWindowHours : Q)
  (cs : list Call) :
  0 <= windowHours ->
  exists v : t,
    calls cs (new windowHours deviationHistoryWindowHours) = Some v /\
    totalPriceVolume v == sumOver barPriceVolume (candles v) /\
    totalVolume v == sumOver volume (candles v) /\
    NoDup (keys (candles v)) /\
    optQeq (vwapOf (totalPriceVolume v) (totalVolume v))
           (vwapFromScratch (candles v)).
Proof.
  intros Hwh.
  destruct (calls_consistent cs (new windowHours deviationHistoryWindowHours)
              (new_consistent _ _) (new_maxCandles _ _ Hwh)) as (v & E & Hc).
  exists v. split; [exact E|].
  pose proof (consistent_vwap v Hc) as Hv.
  destruct Hc as [Hk Hs Hpv Hvol].
  repeat split; try assumption.
  rewrite Hpv. apply sumOver_wellStored. assumption.
Qed.

(** An instance: a window of ten minutes (a budget of two bars) that
    sees a revision, an eviction by the budget, a pruning pass that
    empties the window, and a new bar. *)
Lemma running_totals_exact_witness :
  0 <= 1 / 6 /\
  exists v : t,
    calls [CallUpdateCandle (mkCandleMsg 1000 100 100 100 2) 1000000;
           CallUpdateCandle (mkCandleMsg 1000 110 110 110 3) 1001000;
           CallUpdateCandle (mkCandleMsg 1001 120 120 120 1) 1001000;
           CallUpdateCandle (mkCandleMsg 1002 90 90 90 4) 1002000;
           CallUpdateCandle (mkCandleMsg 1003 90 90 90 4) 1003000;
           CallRemoveOldCandles 1700000;
           CallUpdateCandle (mkCandleMsg 1700 80 80 80 5) 1700000]
          (new (1 / 6) 72) = Some v /\
    totalPriceVolume v == sumOver barPriceVolume (candles v) /\
    totalVolume v == sumOver volume (candles v) /\
    NoDup (keys (candles v)) /\
    optQeq (vwapOf (totalPriceVolume v) (totalVolume v))
           (vwapFromScratch (candles v)).
Proof.
  split.
  - unfold Qle. simpl. lia.
  - apply (running_totals_exact (1 / 6) 72). unfold Qle. simpl. lia.
Defined.

(** The same run, step by step: the keys retained and the running totals
    after the revision, after the fourth new bar (the budget of two bars
    evicts the oldest before the insertion) and after the pruning pass. *)
Example running_totals_trace :
  let demo :=
    [CallUpdateCandle (mkCandleMsg 1000 100 100 100 2) 1000000;
     CallUpdateCandle (mkCandleMsg 1000 110 110 110 3) 1001000;
     CallUpdateCandle (mkCandleMsg 1001 120 120 120 1) 1001000;
     CallUpdateCandle (mkCandleMsg 1002 90 90 90 4) 1002000;
     CallUpdateCandle (mkCandleMsg 1003 90 90 90 4) 1003000;
     CallRemoveOldCandles 1700000] in
  let show (o : option t) :=
    option_map
      (fun v => (keys (candles v), Qred (totalPriceVolume v), Qred (totalVolume v)))
      o in
  show (calls (firstn 2 demo) (new (1 / 6) 72)) = Some ([1000%Z], 330, 3) /\
  show (calls (firstn 5 demo) (new (1 / 6) 72))
    = Some ([1001%Z; 1002%Z; 1003%Z], 840, 9) /\
  show (calls demo (new (1 / 6) 72)) = Some ([], 0, 0).
Proof. vm_compute. repeat split. Qed.

(** *** The historical initialization *)

Lemma insertByStart_perm (c : CandleMsg) (l : list CandleMsg) :
  Permutation (insertByStart c l) (c :: l).
Proof.
  induction l as [|e l IH]; simpl; [apply Permutation_refl|].
  destruct (m_start c <=? m_start e)%Z; [apply Permutation_refl|].
  eapply Permutation_trans; [apply perm_skip; exact IH | apply perm_swap].
Qed.

Lemma sortByStart_perm (l : list CandleMsg) : Permutation (sortByStart l) l.
Proof.
  unfold sortByStart. induction l as [|c l IH]; simpl; [apply Permutation_refl|].
  eapply Permutation_trans; [apply insertByStart_perm|].
  apply perm_skip. exact IH.
Qed.

Lemma addHistorical_consistent (v : t) (c : CandleMsg) :
  Consistent v -> ~ In (m_start c) (keys (candles v)) ->
  Consistent (addHistorical v c) /\
  keys (candles (addHistorical v c)) = keys (candles v) ++ [m_start c] /\
  maxCandles (addHistorical v c) = maxCandles v.
Proof.
  intros [Hk Hs Hpv Hvol] Hfresh. unfold addHistorical. simpl.
  split; [|split; [|reflexivity]].
  - constructor; simpl.
    + apply NoDup_keys_mapSet. assumption.
    + apply Forall_mapSet; [assumption|].
      unfold wellStored, barPriceVolume. simpl. reflexivity.
    + rewrite (sumOver_mapSet_new _ _ _ _ Hfresh). simpl. rewrite Hpv. reflexivity.
    + rewrite (sumOver_mapSet_new _ _ _ _ Hfresh). simpl. rewrite Hvol. reflexivity.
  - rewrite mapSet_new by assumption. unfold keys. rewrite map_app. reflexivity.
Qed.

Lemma fold_addHistorical_consistent (l : list CandleMsg) :
  forall v : t,
    Consistent v -> NoDup (map m_start l) ->
    (forall c, In c l -> ~ In (m_start c) (keys (candles v))) ->
    Consistent (fold_left addHistorical l v) /\
    maxCandles (fold_left addHistorical l v) = maxCandles v.
Proof.
  induction l as [|c l IH]; simpl; intros v Hc Hnd Hfresh; [tauto|].
  inversion Hnd as [|? ? Hnotin Hnd']; subst.
  destruct (addHistorical_consistent v c Hc (Hfresh c (or_introl eq_refl)))
    as (Hc1 & Hkeys & Hmax).
  destruct (IH (addHistorical v c) Hc1 Hnd') as [H1 H2].
  - intros c' Hin. rewrite Hkeys. intros Hk. apply in_app_or in Hk.
    destruct Hk as [Hk | [Hk | []]].
    + apply (Hfresh c' (or_intror Hin) Hk).
    + apply Hnotin. rewrite Hk. apply in_map. assumption.
  - split; [exact H1 | rewrite H2; exact Hmax].
Qed.

(** Historical bars with distinct start timestamps establish the
    invariant, whatever the object held before. *)
Lemma initialize_consistent (historical : list CandleMsg) (nowMs : Z) (v : t) :
  NoDup (map m_start historical) ->
  Consistent (initialize historical nowMs v) /\
  maxCandles (initialize historical nowMs v) = maxCandles v.
Proof.
  intros Hnd. unfold initialize.
  assert (Hnd' : NoDup (map m_start (sortByStart historical))).
  { eapply Permutation_NoDup; [|exact Hnd].
    apply Permutation_map. apply Permutation_sym. apply sortByStart_perm. }
  destruct (fold_addHistorical_consistent (sortByStart historical)
              (with_totals 0 0 (with_candles [] v))) as [Hc Hmax].
  - constructor; simpl; [constructor | constructor | reflexivity | reflexivity].
  - exact Hnd'.
  - intros c _ [].
  - destruct (sortByStart historical) as [|first rest] eqn:Es.
    + split; [|exact Hmax].
      eapply Consistent_frame; [| | |exact Hc]; reflexivity.
    + split; [|exact Hmax].
      eapply Consistent_frame; [| | |exact Hc]; reflexivity.
Qed.

(** [initialize] itself has no test for a start already stored: two
    historical bars with the same start are both added to the totals while
    the map keeps the second. *)
Example initialize_duplicate_start :
  let v := initialize [mkCandleMsg 1000 100 100 100 2; mkCandleMsg 1000 110 110 110 3]
             1000000 (new 12 72) in
  keys (candles v) = [1000%Z] /\
  totalVolume v == 5 /\ sumOver volume (candles v) == 3.
Proof. vm_compute. repeat split. Qed.

(** *** The nearest-rank percentile *)

Lemma percentile_index_bounds (n : nat) (p : Q) :
  (0 < n)%nat -> 0 <= p ->
  (0 <= Z.min (Qfloor ((p / 100) * inject_Z (Z.of_nat n))) (Z.of_nat n - 1)
   < Z.of_nat n)%Z.
Proof.
  intros Hn Hp.
  assert (H0 : (0 <= Qfloor ((p / 100) * inject_Z (Z.of_nat n)))%Z).
  { rewrite <- (Qfloor_Z 0). apply Qfloor_resp_le.
    apply Qmult_le_0_compat.
    - apply Qle_shift_div_l; [reflexivity | lra].
    - change 0 with (inject_Z 0). rewrite <- Zle_Qle. lia. }
  lia.
Qed.

(** C4. [percentile] is [null] on an empty array; on any other array it
    reads the array at index [floor(p/100 * n)] clamped to [n - 1], which
    for [p >= 0] is an index of the array, so that the result is the
    element standing there (nearest rank, no interpolation).  On
    [[-0.9, -0.75, 0.7, 0.85]] with [p = 90] the index is
    [floor(0.9 * 4) = 3] and the result is [0.85]. *)
Theorem percentile_nearest_rank :
  (forall p : Q, percentile [] p = Null) /\
  (forall (arr : list Q) (p : Q),
      arr <> [] ->
      percentile arr p
      = arrayAt arr (Z.min (Qfloor ((p / 100) * inject_Z (Z.of_nat (length arr))))
                           (Z.of_nat (length arr) - 1))) /\
  (forall (arr : list Q) (p : Q),
      arr <> [] -> 0 <= p ->
      exists x : Q,
        nth_error arr
          (Z.to_nat (Z.min (Qfloor ((p / 100) * inject_Z (Z.of_nat (length arr))))
                           (Z.of_nat (length arr) - 1))) = Some x /\
        percentile arr p = Num x) /\
  Z.min (Qfloor ((90 / 100) * 4)) (4 - 1) = 3%Z /\
  percentile [-0.9; -0.75; 0.7; 0.85] 90 = Num 0.85.
Proof.
  split; [reflexivity|].
  assert (Hgen : forall (arr : list Q) (p : Q),
             arr <> [] ->
             percentile arr p
             = arrayAt arr
                 (Z.min (Qfloor ((p / 100) * inject_Z (Z.of_nat (length arr))))
                        (Z.of_nat (length arr) - 1))).
  { intros arr p Hne. unfold percentile.
    destruct arr as [|x arr]; [congruence | reflexivity]. }
  split; [exact Hgen|].
  split; [|split; reflexivity].
  intros arr p Hne Hp. rewrite (Hgen arr p Hne).
  assert (Hn : (0 < length arr)%nat).
  { destruct arr; [congruence | simpl; lia]. }
  pose proof (percentile_index_bounds (length arr) p Hn Hp) as [Hlo Hhi].
  unfold arrayAt.
  destruct (Z.ltb_spec
              (Z.min (Qfloor ((p / 100) * inject_Z (Z.of_nat (length arr))))
                     (Z.of_nat (length arr) - 1)) 0); [lia|].
  destruct (nth_error arr _) as [x|] eqn:E.
  - exists x. split; reflexivity.
  - apply nth_error_None in E. lia.
Qed.

(** Witness of C4 at the array of the example and [p = 10]. *)
Lemma percentile_nearest_rank_witness :
  [-0.9; -0.75; 0.7; 0.85] <> [] /\ 0 <= 10 /\
  exists x : Q,
    nth_error [-0.9; -0.75; 0.7; 0.85]
      (Z.to_nat (Z.min (Qfloor ((10 / 100) * inject_Z (Z.of_nat 4))) (Z.of_nat 4 - 1)))
    = Some x /\
    percentile [-0.9; -0.75; 0.7; 0.85] 10 = Num x.
Proof.
  assert (Hne : [-0.9; -0.75; 0.7; 0.85] <> []) by discriminate.
  assert (Hp : 0 <= 10) by (unfold Qle; simpl; lia).
  split; [exact Hne|]. split; [exact Hp|].
  exact (proj1 (proj2 (proj2 percentile_nearest_rank))
           [-0.9; -0.75; 0.7; 0.85] 10 Hne Hp).
Defined.

(** A negative [p] reads before the array: the result is [undefined]. *)
Example percentile_negative_rank :
  percentile [-0.9; -0.75; 0.7; 0.85] (-10) = Undefined.
Proof. reflexivity. Qed.

(** *** The falsiness guards and the deviation history *)

Lemma Forall_setAt {A : Type} (P : A -> Prop) (i : nat) (x : A) (l : list A) :
  Forall P l -> P x -> Forall P (setAt i x l).
Proof.
  revert i. induction l as [|y l IH]; intros i Hl Hx.
  - destruct i; simpl; constructor.
  - inversion Hl; subst. destruct i; simpl; constructor; auto.
Qed.

Lemma Forall_insertByTimestamp (P : DeviationSnapshot -> Prop)
  (d : DeviationSnapshot) (l : list DeviationSnapshot) :
  Forall P l -> P d -> Forall P (insertByTimestamp d l).
Proof.
  induction l as [|e l IH]; simpl; intros Hl Hd.
  - constructor; [assumption | constructor].
  - inversion Hl; subst.
    destruct (timestamp d <=? timestamp e)%Z; constructor; auto.
Qed.

Lemma Forall_sortByTimestamp (P : DeviationSnapshot -> Prop)
  (l : list DeviationSnapshot) :
  Forall P l -> Forall P (sortByTimestamp l).
Proof.
  unfold sortByTimestamp. induction 1 as [|d l Hd Hl IH]; simpl; [constructor|].
  apply Forall_insertByTimestamp; assumption.
Qed.

Lemma Forall_pruneHistory (P : DeviationSnapshot -> Prop) (cutoffTime : Q)
  (l : list DeviationSnapshot) :
  Forall P l -> Forall P (pruneHistory cutoffTime l).
Proof.
  intros H. apply Forall_forall. intros d Hd.
  unfold pruneHistory in Hd. apply filter_In in Hd.
  rewrite Forall_forall in H. apply H. tauto.
Qed.

Lemma guarded_falsy (v : t) :
  guarded v -> negb (truthyQ (currentVWAP v)) || negb (truthyQ (currentPrice v)) = true.
Proof.
  intros H. apply orb_true_iff. rewrite !negb_true_iff, !truthyQ_false.
  unfold guarded in H. tauto.
Qed.

Lemma recordDeviation_history (nowMs : Z) (v : t) :
  Forall nonzeroVwap (deviationHistory v) ->
  Forall nonzeroVwap (deviationHistory (recordDeviation nowMs v)).
Proof.
  intros H. unfold recordDeviation.
  destruct (truthyQ (currentVWAP v)) eqn:Ev; simpl; [|assumption].
  destruct (truthyQ (currentPrice v)) eqn:Ep; simpl; [|assumption].
  destruct (truthyZ (currentCandleStart v)) eqn:Es; simpl; [|assumption].
  apply truthyQ_Some in Ev. destruct Ev as [vw [Ev Hvw]]. rewrite Ev.
  destruct (currentPrice v) as [p|]; [|assumption].
  destruct (currentCandleStart v) as [ts|]; [|assumption].
  simpl. apply Forall_pruneHistory.
  destruct (findIndex ts (deviationHistory v)).
  - apply Forall_setAt; [assumption | exact Hvw].
  - apply Forall_sortByTimestamp. apply Forall_app. split; [assumption|].
    constructor; [exact Hvw | constructor].
Qed.

Lemma evictExpired_history (cutoffTime : Q) (es : list (Z * Candle)) :
  forall v : t, deviationHistory (evictExpired cutoffTime es v) = deviationHistory v.
Proof.
  induction es as [|[k c] es IH]; simpl; intros v; [reflexivity|].
  destruct (Qltb (inject_Z k) cutoffTime); rewrite IH; reflexivity.
Qed.

Lemma enforceMaxCandles_history (fuel : nat) :
  forall v v' : t,
    enforceMaxCandles fuel v = Some v' -> deviationHistory v' = deviationHistory v.
Proof.
  induction fuel as [|fuel IH]; simpl; intros v v' H.
  - destruct (Qltb _ _); [discriminate|]. injection H as <-. reflexivity.
  - destruct (Qltb _ _); [|injection H as <-; reflexivity].
    destruct (minKey (map fst (candles v))) as [k|]; [|discriminate].
    destruct (mapGet k (candles v)) as [c|]; [|discriminate].
    rewrite (IH _ _ H). reflexivity.
Qed.

Lemma removeOldCandles_history (nowMs : Z) (v v' : t) :
  removeOldCandles nowMs v = Some v' ->
  Forall nonzeroVwap (deviationHistory v) ->
  Forall nonzeroVwap (deviationHistory v').
Proof.
  unfold removeOldCandles.
  destruct (enforceMaxCandles _ _) as [v2|] eqn:E; [|discriminate].
  intros H Hh. injection H as <-. simpl. apply Forall_pruneHistory.
  rewrite (enforceMaxCandles_history _ _ _ E), evictExpired_history. assumption.
Qed.

Lemma updateCandle_history (candle : CandleMsg) (nowMs : Z) (v v' : t) :
  updateCandle candle nowMs v = Some v' ->
  Forall nonzeroVwap (deviationHistory v) ->
  Forall nonzeroVwap (deviationHistory v').
Proof.
  unfold updateCandle. intros H Hh.
  destruct (mapHas (m_start candle) (candles v)).
  - destruct (mapGet (m_start candle) (candles v)); [|discriminate].
    injection H as <-. apply recordDeviation_history. simpl. assumption.
  - destruct (removeOldCandles nowMs v) as [v1|] eqn:Er; [|discriminate].
    injection H as <-. apply recordDeviation_history. simpl.
    apply (removeOldCandles_history _ _ _ Er Hh).
Qed.

Lemma calls_history (cs : list Call) :
  forall v v' : t,
    calls cs v = Some v' ->
    Forall nonzeroVwap (deviationHistory v) ->
    Forall nonzeroVwap (deviationHistory v').
Proof.
  induction cs as [|c cs IH]; simpl; intros v v' H Hh.
  - injection H as <-. assumption.
  - destruct (call c v) as [v1|] eqn:E; [|discriminate].
    apply (IH _ _ H).
    destruct c as [candle nowMs | nowMs | | price nowMs | nowMs]; simpl in E.
    + apply (updateCandle_history _ _ _ _ E Hh).
    + apply (removeOldCandles_history _ _ _ E Hh).
    + injection E as <-. assumption.
    + injection E as <-. assumption.
    + injection E as <-. apply recordDeviation_history. assumption.
Qed.

(** X31. The falsiness guards of the live path.  [getDeviation] and
    [getDeviationPercent] return [null] when the VWAP or the current price
    is [null] or exactly [0], so the division of [getDeviationPercent] has
    a divisor that is not [0]; under the same condition [recordDeviation]
    changes nothing; and no snapshot with a zero VWAP enters the deviation
    history through [recordDeviation], whatever live calls are made on
    the object.  (The backfill [initializeDeviationHistory] has no such
    guard, as module [DoubleFacts] below shows on a bar of price [0].) *)
Theorem deviation_guards (v : t) :
  (guarded v -> getDeviation v = None /\ getDeviationPercent v = None) /\
  (forall d : Q,
      getDeviationPercent v = Some d ->
      exists w p : Q,
        currentVWAP v = Some w /\ currentPrice v = Some p /\ ~ w == 0 /\
        d = ((p - w) / w) * 100) /\
  (forall nowMs : Z, guarded v -> recordDeviation nowMs v = v) /\
  (forall nowMs : Z,
      Forall nonzeroVwap (deviationHistory v) ->
      Forall nonzeroVwap (deviationHistory (recordDeviation nowMs v))) /\
  (forall (cs : list Call) (v' : t),
      Forall nonzeroVwap (deviationHistory v) ->
      calls cs v = Some v' ->
      Forall nonzeroVwap (deviationHistory v')).
Proof.
  split; [|split; [|split; [|split]]].
  - intros Hg. unfold getDeviation, getDeviationPercent.
    rewrite (guarded_falsy v Hg). split; reflexivity.
  - intros d. unfold getDeviationPercent.
    destruct (truthyQ (currentVWAP v)) eqn:Ev; simpl; [|discriminate].
    destruct (truthyQ (currentPrice v)) eqn:Ep; simpl; [|discriminate].
    apply truthyQ_Some in Ev. destruct Ev as [w [Ev Hw]]. rewrite Ev.
    destruct (currentPrice v) as [p|]; [|discriminate].
    intros E. injection E as <-. exists w, p. tauto.
  - intros nowMs Hg. unfold recordDeviation.
    rewrite (guarded_falsy v Hg). reflexivity.
  - intros nowMs. apply recordDeviation_history.
  - intros cs v' Hh E. apply (calls_history cs v v' E Hh).
Qed.

(** Witness of X31.  A bar of volume 1 whose prices are all [0] is
    received and then a tick at the price 100: the VWAP is [0], the
    guards refuse it, and nothing has been recorded.  An object with the
    VWAP 100, the price 101 and a current candle records a snapshot whose
    VWAP is not [0]. *)
Lemma deviation_guards_witness :
  let v2 :=
    with_current (Some 101) (Some 1000%Z) (Some 2000%Z)
      (with_currentVWAP (Some 100) (new 12 72)) in
  (exists v : t,
      calls [CallUpdateCandle (mkCandleMsg 1000 0 0 0 1) 1000000;
             CallUpdatePrice 100 1000001] (new 12 72) = Some v /\
      (exists w : Q, currentVWAP v = Some w /\ w == 0) /\
      currentPrice v = Some 100 /\
      guarded v /\
      getDeviation v = None /\ getDeviationPercent v = None /\
      recordDeviation 1000002 v = v /\
      deviationHistory v = []) /\
  (getDeviationPercent v2 = Some (((101 - 100) / 100) * 100) /\
   exists w p : Q,
     currentVWAP v2 = Some w /\ currentPrice v2 = Some p /\ ~ w == 0 /\
     ((101 - 100) / 100) * 100 = ((p - w) / w) * 100) /\
  (Forall nonzeroVwap (deviationHistory v2) /\
   calls [CallRecordDeviation 3000] v2 = Some (recordDeviation 3000 v2) /\
   length (deviationHistory (recordDeviation 3000 v2)) = 1%nat /\
   Forall nonzeroVwap (deviationHistory (recordDeviation 3000 v2))).
Proof.
  intros v2.
  assert (Hd : getDeviationPercent v2 = Some (((101 - 100) / 100) * 100))
    by reflexivity.
  assert (Hh : Forall nonzeroVwap (deviationHistory v2)) by constructor.
  assert (Hc : calls [CallRecordDeviation 3000] v2 = Some (recordDeviation 3000 v2))
    by reflexivity.
  pose proof (deviation_guards v2) as (_ & H2 & _ & _ & H5).
  split; [|split].
  - destruct (calls [CallUpdateCandle (mkCandleMsg 1000 0 0 0 1) 1000000;
                     CallUpdatePrice 100 1000001] (new 12 72)) as [v|] eqn:E;
      [|vm_compute in E; discriminate E].
    exists v. split; [reflexivity|].
    assert (Hw : exists w : Q, currentVWAP v = Some w /\ w == 0).
    { vm_compute in E. injection E as <-. eexists. split; reflexivity. }
    assert (Hg : guarded v) by (right; left; exact Hw).
    pose proof (deviation_guards v) as (H1 & _ & H3 & _).
    split; [exact Hw|].
    split; [vm_compute in E; injection E as <-; reflexivity|].
    split; [exact Hg|].
    split; [exact (proj1 (H1 Hg))|].
    split; [exact (proj2 (H1 Hg))|].
    split; [exact (H3 1000002%Z Hg)|].
    vm_compute in E. injection E as <-. reflexivity.
  - split; [exact Hd | exact (H2 _ Hd)].
  - split; [exact Hh|]. split; [exact Hc|]. split; [reflexivity|].
    exact (H5 _ _ Hh Hc).
Defined.

(** ** More on the rolling window *)

(** *** The shape of the results of the removal loops *)

Lemma evictExpired_shape (cutoff : Q) (es : list (Z * Candle)) :
  forall v : t,
  exists cs tpv tv, evictExpired cutoff es v = with_candles cs (with_totals tpv tv v).
Proof.
  induction es as [|[k c] es IH]; simpl; intros v.
  - exists (candles v), (totalPriceVolume v), (totalVolume v). destruct v; reflexivity.
  - destruct (Qltb (inject_Z k) cutoff); [|apply IH].
    destruct (IH (dropCandle k c v)) as (cs & tpv & tv & E).
    exists cs, tpv, tv. rewrite E. reflexivity.
Qed.

Lemma enforceMaxCandles_shape (fuel : nat) :
  forall v v' : t,
    enforceMaxCandles fuel v = Some v' ->
    exists cs tpv tv, v' = with_candles cs (with_totals tpv tv v).
Proof.
  induction fuel as [|fuel IH]; simpl; intros v v' H.
  - destruct (Qltb _ _); [discriminate|]. injection H as <-.
    exists (candles v), (totalPriceVolume v), (totalVolume v). destruct v; reflexivity.
  - destruct (Qltb _ _).
    + destruct (minKey (map fst (candles v))) as [k|]; [|discriminate].
      destruct (mapGet k (candles v)) as [c|]; [|discriminate].
      destruct (IH _ _ H) as (cs & tpv & tv & E).
      exists cs, tpv, tv. rewrite E. reflexivity.
    + injection H as <-.
      exists (candles v), (totalPriceVolume v), (totalVolume v). destruct v; reflexivity.
Qed.

Lemma removeOldCandles_shape (nowMs : Z) (v v' : t) :
  removeOldCandles nowMs v = Some v' ->
  exists cs tpv tv,
    v' = with_deviationHistory
           (pruneHistory (cutoffTime (deviationHistoryWindowHours v) nowMs)
              (deviationHistory v))
           (with_candles cs (with_totals tpv tv v)).
Proof.
  unfold removeOldCandles. intros H.
  destruct (evictExpired_shape
              (inject_Z (nowSeconds nowMs) - windowHours v * 60 * 60) (candles v) v)
    as (cs1 & tpv1 & tv1 & E1).
  rewrite E1 in H.
  destruct (enforceMaxCandles _ _) as [v2|] eqn:E2; [|discriminate].
  injection H as <-.
  destruct (enforceMaxCandles_shape _ _ _ E2) as (cs & tpv & tv & ->).
  exists cs, tpv, tv. reflexivity.
Qed.

(** An entry is expired when its key is before the cut-off. *)
Lemma evictExpired_none_left (cutoff : Q) (es : list (Z * Candle)) :
  forall v : t,
    (forall e, In e (candles v) -> inject_Z (fst e) < cutoff ->
               In (fst e) (keys es)) ->
    Forall (fun e => cutoff <= inject_Z (fst e)) (candles (evictExpired cutoff es v)).
Proof.
  induction es as [|[k c] es IH]; simpl; intros v H.
  - apply Forall_forall. intros e He.
    destruct (Qlt_le_dec (inject_Z (fst e)) cutoff) as [Hlt|Hle]; [|exact Hle].
    destruct (H e He Hlt).
  - destruct (Qltb (inject_Z k) cutoff) eqn:Ek.
    + apply IH. simpl. intros e He Hlt.
      unfold mapDelete in He. apply filter_In in He. destruct He as [He Hb].
      destruct (H e He Hlt) as [Hk|Hk]; [|exact Hk].
      simpl in Hk. subst k. rewrite Z.eqb_refl in Hb. discriminate.
    + apply IH. intros e He Hlt.
      destruct (H e He Hlt) as [Hk|Hk]; [|exact Hk].
      simpl in Hk. subst k. apply Qltb_iff in Hlt. congruence.
Qed.

Lemma evictExpired_noop (cutoff : Q) (es : list (Z * Candle)) (v : t) :
  Forall (fun e => cutoff <= inject_Z (fst e)) es -> evictExpired cutoff es v = v.
Proof.
  induction 1 as [|[k c] es Hk Hes IH]; simpl; [reflexivity|].
  simpl in Hk. apply Qltb_false_iff in Hk. rewrite Hk. exact IH.
Qed.

Lemma enforceMaxCandles_within (fuel : nat) :
  forall v v' : t,
    enforceMaxCandles fuel v = Some v' ->
    Qltb (maxCandles v') (inject_Z (Z.of_nat (length (candles v')))) = false.
Proof.
  induction fuel as [|fuel IH]; simpl; intros v v' H.
  - destruct (Qltb _ _) eqn:E; [discriminate|]. injection H as <-. exact E.
  - destruct (Qltb _ _) eqn:E; [|injection H as <-; exact E].
    destruct (minKey (map fst (candles v))) as [k|]; [|discriminate].
    destruct (mapGet k (candles v)) as [c|]; [|discriminate].
    apply (IH _ _ H).
Qed.

Lemma enforceMaxCandles_noop (fuel : nat) (v : t) :
  Qltb (maxCandles v) (inject_Z (Z.of_nat (length (candles v)))) = false ->
  enforceMaxCandles fuel v = Some v.
Proof.
  intros H. destruct fuel; simpl; rewrite H; reflexivity.
Qed.

Lemma pruneHistory_idempotent (cutoff : Q) (h : list DeviationSnapshot) :
  pruneHistory cutoff (pruneHistory cutoff h) = pruneHistory cutoff h.
Proof.
  unfold pruneHistory. induction h as [|d h IH]; simpl; [reflexivity|].
  destruct (negb (Qltb (inject_Z (timestamp d)) cutoff)) eqn:E; simpl.
  - rewrite E, IH. reflexivity.
  - exact IH.
Qed.

Lemma pruneHistory_within (cutoff : Q) (h : list DeviationSnapshot) :
  Forall (fun d => cutoff <= inject_Z (timestamp d)) (pruneHistory cutoff h).
Proof.
  apply Forall_forall. intros d Hd. unfold pruneHistory in Hd.
  apply filter_In in Hd. destruct Hd as [_ Hb].
  apply negb_true_iff in Hb. apply Qltb_false_iff in Hb. exact Hb.
Qed.

Lemma removeOldCandles_post (nowMs : Z) (v v' : t) :
  removeOldCandles nowMs v = Some v' ->
  Forall (fun e => cutoffTime (windowHours v) nowMs <= inject_Z (fst e)) (candles v') /\
  inject_Z (Z.of_nat (length (candles v'))) <= maxCandles v /\
  Qltb (maxCandles v') (inject_Z (Z.of_nat (length (candles v')))) = false.
Proof.
  intros H.
  assert (Hc : Forall (fun e => cutoffTime (windowHours v) nowMs <= inject_Z (fst e))
                 (candles v') /\
               Qltb (maxCandles v') (inject_Z (Z.of_nat (length (candles v')))) = false).
  { unfold removeOldCandles in H.
    destruct (enforceMaxCandles _ _) as [v2|] eqn:E2; [|discriminate].
    injection H as <-. simpl. split.
    - apply Forall_forall. intros e He.
      apply (enforceMaxCandles_incl _ _ _ E2) in He.
      pose proof (evictExpired_none_left (cutoffTime (windowHours v) nowMs)
                    (candles v) v) as Hn.
      rewrite Forall_forall in Hn. apply Hn; [|exact He].
      intros e' He' _. apply in_map. exact He'.
    - apply (enforceMaxCandles_within _ _ _ E2). }
  destruct Hc as [Hc1 Hc2].
  destruct (removeOldCandles_shape _ _ _ H) as (cs & tpv & tv & E).
  assert (Em : maxCandles v' = maxCandles v) by (rewrite E; reflexivity).
  split; [exact Hc1|]. split; [|exact Hc2].
  rewrite <- Em. apply Qltb_false_iff. exact Hc2.
Qed.

(** X1. A pruning pass that returns leaves no bar older than the window,
    at most [maxCandles] bars and no deviation snapshot older than the
    history window; a second pass at the same clock value changes
    nothing. *)
Theorem removeOldCandles_prunes (nowMs : Z) (v v' : t) :
  removeOldCandles nowMs v = Some v' ->
  Forall (fun e => cutoffTime (windowHours v) nowMs <= inject_Z (fst e)) (candles v') /\
  inject_Z (Z.of_nat (length (candles v'))) <= maxCandles v /\
  Forall (fun d => cutoffTime (deviationHistoryWindowHours v) nowMs
                   <= inject_Z (timestamp d))
         (deviationHistory v') /\
  removeOldCandles nowMs v' = Some v'.
Proof.
  intros H.
  destruct (removeOldCandles_post nowMs v v' H) as (Hc1 & Hle & Hc2).
  destruct (removeOldCandles_shape _ _ _ H) as (cs & tpv & tv & E).
  assert (Ew : windowHours v' = windowHours v) by (rewrite E; reflexivity).
  assert (Ed : deviationHistoryWindowHours v' = deviationHistoryWindowHours v)
    by (rewrite E; reflexivity).
  split; [exact Hc1|]. split; [exact Hle|]. split.
  { rewrite E. simpl. apply pruneHistory_within. }
  unfold removeOldCandles. rewrite Ew. unfold cutoffTime in Hc1.
  rewrite (evictExpired_noop _ (candles v') v' Hc1).
  rewrite (enforceMaxCandles_noop _ v' Hc2). rewrite Ed.
  f_equal. rewrite E. simpl.
  unfold with_deviationHistory, cutoffTime. simpl.
  rewrite pruneHistory_idempotent. reflexivity.
Qed.

(** Witness of X1: a window of ten minutes holding three bars, pruned
    when the oldest has left the window and the budget is two bars. *)
Lemma removeOldCandles_prunes_witness :
  let v := with_totals 33 3
             (with_candles
                [(1000%Z, mkCandle 1000 10 10 10 1 10 10);
                 (1500%Z, mkCandle 1500 11 11 11 1 11 11);
                 (1800%Z, mkCandle 1800 12 12 12 1 12 12)]
                (new (1 / 6) 72)) in
  exists v' : t,
    removeOldCandles 1900000 v = Some v' /\
    keys (candles v') = [1500%Z; 1800%Z] /\
    removeOldCandles 1900000 v' = Some v'.
Proof.
  intros v.
  assert (E : removeOldCandles 1900000 v
              = Some (with_candles [(1500%Z, mkCandle 1500 11 11 11 1 11 11);
                                    (1800%Z, mkCandle 1800 12 12 12 1 12 12)]
                        (with_totals (33 - 10) (3 - 1) v))) by reflexivity.
  eexists. split; [exact E|]. split; [reflexivity|].
  exact (proj2 (proj2 (proj2 (removeOldCandles_prunes 1900000 v _ E)))).
Defined.

(** *** Which bars a pruning pass drops *)

Lemma minKey_le (ks : list Z) (m x : Z) :
  minKey ks = Some m -> In x ks -> (m <= x)%Z.
Proof.
  revert m. induction ks as [|k ks IH]; simpl; intros m Hm Hx; [contradiction|].
  destruct (minKey ks) as [m'|] eqn:E.
  - injection Hm as <-. destruct Hx as [->|Hx]; [lia|].
    specialize (IH m' eq_refl Hx). lia.
  - injection Hm as <-. destruct Hx as [->|Hx]; [lia|].
    destruct ks; [contradiction|]. simpl in E.
    destruct (minKey ks); discriminate.
Qed.

Lemma evictExpired_keeps (cutoff : Q) (es : list (Z * Candle)) :
  forall (v : t) (e : Z * Candle),
    In e (candles v) -> cutoff <= inject_Z (fst e) ->
    In e (candles (evictExpired cutoff es v)).
Proof.
  induction es as [|[k c] es IH]; simpl; intros v e He Hle; [exact He|].
  destruct (Qltb (inject_Z k) cutoff) eqn:Ek; [|apply IH; assumption].
  apply IH; [|exact Hle]. simpl. apply In_mapDelete; [exact He|].
  intros E. rewrite E in Hle. apply Qltb_iff in Ek. lra.
Qed.

Lemma In_mapDelete_inv (k : Z) (e : Z * Candle) (m : list (Z * Candle)) :
  In e m -> ~ In e (mapDelete k m) -> fst e = k.
Proof.
  intros He Hn. destruct (Z.eq_dec (fst e) k) as [E|E]; [exact E|].
  destruct (Hn (In_mapDelete k e m He E)).
Qed.

Lemma mapDelete_not_key (k : Z) (e : Z * Candle) (m : list (Z * Candle)) :
  In e (mapDelete k m) -> fst e <> k.
Proof.
  unfold mapDelete. intros He. apply filter_In in He. destruct He as [_ Hb].
  intros E. rewrite E, Z.eqb_refl in Hb. discriminate.
Qed.

Lemma enforceMaxCandles_oldest (fuel : nat) :
  forall (v v' : t) (e e' : Z * Candle),
    enforceMaxCandles fuel v = Some v' ->
    In e (candles v) -> ~ In e (candles v') -> In e' (candles v') ->
    (fst e < fst e')%Z.
Proof.
  induction fuel as [|fuel IH]; simpl; intros v v' e e' H He Hn He'.
  - destruct (Qltb _ _); [discriminate|]. injection H as <-. contradiction.
  - destruct (Qltb _ _); [|injection H as <-; contradiction].
    destruct (minKey (map fst (candles v))) as [k|] eqn:Ek; [|discriminate].
    destruct (mapGet k (candles v)) as [c|] eqn:Eg; [|discriminate].
    destruct (Z.eq_dec (fst e) k) as [E|E].
    + pose proof (enforceMaxCandles_incl _ _ _ H e' He') as He1. simpl in He1.
      pose proof (mapDelete_not_key _ _ _ He1) as Hne.
      assert (In (fst e') (map fst (candles v))) as Hin.
      { apply in_map. apply (incl_mapDelete k). exact He1. }
      pose proof (minKey_le _ _ _ Ek Hin). lia.
    + apply (IH _ _ e e' H); [|exact Hn | exact He'].
      simpl. apply In_mapDelete; assumption.
Qed.

(** X2. A pruning pass drops the oldest bars: every bar it removes has a
    start before the start of every bar it keeps, whether it is removed
    for its age or for the budget. *)
Theorem removeOldCandles_drops_oldest (nowMs : Z) (v v' : t) (e e' : Z * Candle) :
  removeOldCandles nowMs v = Some v' ->
  In e (candles v) -> ~ In e (candles v') -> In e' (candles v') ->
  (fst e < fst e')%Z.
Proof.
  intros H He Hn He'.
  pose proof (removeOldCandles_post nowMs v v' H) as Hp.
  unfold removeOldCandles in H.
  destruct (enforceMaxCandles _ _) as [v2|] eqn:E2; [|discriminate].
  injection H as <-. simpl in Hn, He'.
  destruct (Qlt_le_dec (inject_Z (fst e))
              (inject_Z (nowSeconds nowMs) - windowHours v * 60 * 60)) as [Hlt|Hle].
  - destruct Hp as [Hp _]. rewrite Forall_forall in Hp.
    specialize (Hp e' He'). unfold cutoffTime in Hp.
    rewrite Zlt_Qlt. lra.
  - apply (enforceMaxCandles_oldest _ _ _ e e' E2); [|exact Hn | exact He'].
    apply evictExpired_keeps; assumption.
Qed.

(** Witness of X2: of three bars the first is too old and the second is
    over the budget of one bar. *)
Lemma removeOldCandles_drops_oldest_witness :
  let b1 := (1000%Z, mkCandle 1000 10 10 10 1 10 10) in
  let b2 := (1500%Z, mkCandle 1500 11 11 11 1 11 11) in
  let b3 := (1800%Z, mkCandle 1800 12 12 12 1 12 12) in
  let v := with_totals 33 3 (with_candles [b1; b2; b3] (new (1 / 12) 72)) in
  let v' := with_candles [b3] (with_totals (33 - 10 - 11) (3 - 1 - 1) v) in
  removeOldCandles 1900000 v = Some v' /\
  (fst b1 < fst b3)%Z /\ (fst b2 < fst b3)%Z.
Proof.
  intros b1 b2 b3 v v'.
  assert (E : removeOldCandles 1900000 v = Some v') by reflexivity.
  assert (H1 : In b1 (candles v)) by (simpl; tauto).
  assert (H2 : In b2 (candles v)) by (simpl; tauto).
  assert (H3 : In b3 (candles v')) by (simpl; tauto).
  assert (N1 : ~ In b1 (candles v')).
  { simpl. intros [F|[]]. discriminate F. }
  assert (N2 : ~ In b2 (candles v')).
  { simpl. intros [F|[]]. discriminate F. }
  split; [exact E|]. split.
  - exact (removeOldCandles_drops_oldest 1900000 v v' b1 b3 E H1 N1 H3).
  - exact (removeOldCandles_drops_oldest 1900000 v v' b2 b3 E H2 N2 H3).
Defined.

(** *** The size of the window *)

Lemma length_mapSet (k : Z) (c : Candle) (m : list (Z * Candle)) :
  length (mapSet k c m) = if mapHas k m then length m else S (length m).
Proof.
  induction m as [|[k' c'] m IH]; simpl; [reflexivity|].
  unfold mapHas in *. simpl.
  destruct (k' =? k)%Z; simpl; [reflexivity|].
  rewrite IH. destruct (existsb _ m); reflexivity.
Qed.

Lemma lengthQ_S {A : Type} (l : list A) :
  inject_Z (Z.of_nat (S (length l))) == inject_Z (Z.of_nat (length l)) + 1.
Proof.
  rewrite Nat2Z.inj_succ. unfold Z.succ. rewrite inject_Z_plus. reflexivity.
Qed.

Lemma call_size (c : Call) (v v' : t) :
  call c v = Some v' ->
  inject_Z (Z.of_nat (length (candles v))) <= maxCandles v + 1 ->
  maxCandles v' = maxCandles v /\
  inject_Z (Z.of_nat (length (candles v'))) <= maxCandles v' + 1.
Proof.
  intros H Hs. destruct c as [candle nowMs | nowMs | | price nowMs | nowMs];
    simpl in H.
  - unfold updateCandle in H.
    destruct (mapHas (m_start candle) (candles v)) eqn:Eh.
    + destruct (mapGet (m_start candle) (candles v)); [|discriminate].
      injection H as <-.
      match goal with
      | |- maxCandles (recordDeviation ?n ?x) = _ /\ _ =>
          destruct (recordDeviation_frame n x) as (Ec & _ & _ & Em)
      end.
      rewrite Ec, Em. simpl. rewrite length_mapSet, Eh. tauto.
    + destruct (removeOldCandles nowMs v) as [v1|] eqn:Er; [|discriminate].
      injection H as <-.
      destruct (removeOldCandles_post _ _ _ Er) as (_ & Hle & _).
      destruct (removeOldCandles_shape _ _ _ Er) as (cs & tpv & tv & E).
      assert (Em1 : maxCandles v1 = maxCandles v) by (rewrite E; reflexivity).
      match goal with
      | |- maxCandles (recordDeviation ?n ?x) = _ /\ _ =>
          destruct (recordDeviation_frame n x) as (Ec & _ & _ & Em)
      end.
      rewrite Ec, Em. simpl. rewrite Em1. split; [reflexivity|].
      rewrite length_mapSet.
      destruct (mapHas (m_start candle) (candles v1)).
      * lra.
      * rewrite lengthQ_S. lra.
  - destruct (removeOldCandles_post _ _ _ H) as (_ & Hle & _).
    destruct (removeOldCandles_shape _ _ _ H) as (cs & tpv & tv & E).
    assert (Em1 : maxCandles v' = maxCandles v) by (rewrite E; reflexivity).
    rewrite Em1. split; [reflexivity | lra].
  - injection H as <-. simpl. tauto.
  - injection H as <-. simpl. tauto.
  - injection H as <-.
    destruct (recordDeviation_frame nowMs v) as (Ec & _ & _ & Em).
    rewrite Ec, Em. tauto.
Qed.

(** X3. Along every sequence of live calls on the object as constructed
    the map never holds more than [maxCandles + 1] bars: the budget is
    enforced before a new bar is inserted, so one bar above the budget is
    possible, and it is reached. *)
Theorem window_size_bound (windowHours deviationHistoryWindowHours : Q)
  (cs : list Call) (v : t) :
  0 <= windowHours ->
  calls cs (new windowHours deviationHistoryWindowHours) = Some v ->
  inject_Z (Z.of_nat (length (candles v))) <= maxCandles v + 1 /\
  maxCandles v == windowHours * 12 /\
  exists (cs3 : list Call) (v3 : t),
    calls cs3 (new (1 / 6) 72) = Some v3 /\
    maxCandles v3 == 2 /\ length (candles v3) = 3%nat.
Proof.
  intros Hwh H.
  assert (Hgen : forall (l : list Call) (a b : t),
             calls l a = Some b ->
             inject_Z (Z.of_nat (length (candles a))) <= maxCandles a + 1 ->
             maxCandles b = maxCandles a /\
             inject_Z (Z.of_nat (length (candles b))) <= maxCandles b + 1).
  { induction l as [|c l IH]; simpl; intros a b Hc Hs.
    - injection Hc as <-. tauto.
    - destruct (call c a) as [a1|] eqn:E; [|discriminate].
      destruct (call_size c a a1 E Hs) as [Hm Hs1].
      destruct (IH a1 b Hc Hs1) as [Hm2 Hs2].
      split; [congruence | exact Hs2]. }
  pose proof (new_maxCandles windowHours deviationHistoryWindowHours Hwh) as Hmax.
  destruct (Hgen cs _ v H) as [Hm Hs].
  { change (inject_Z (Z.of_nat (length (candles
              (new windowHours deviationHistoryWindowHours))))) with 0. lra. }
  split; [exact Hs|]. split.
  - rewrite Hm. simpl. field.
  - exists [CallUpdateCandle (mkCandleMsg 1000 100 100 100 2) 1000000;
            CallUpdateCandle (mkCandleMsg 1001 120 120 120 1) 1001000;
            CallUpdateCandle (mkCandleMsg 1002 90 90 90 4) 1002000].
    eexists. split; [vm_compute; reflexivity|]. split; reflexivity.
Qed.

(** Witness of X3: the run of three new bars in a window whose budget is
    two. *)
Lemma window_size_bound_witness :
  0 <= 1 / 6 /\
  exists v : t,
    calls [CallUpdateCandle (mkCandleMsg 1000 100 100 100 2) 1000000;
           CallUpdateCandle (mkCandleMsg 1001 120 120 120 1) 1001000;
           CallUpdateCandle (mkCandleMsg 1002 90 90 90 4) 1002000]
      (new (1 / 6) 72) = Some v /\
    inject_Z (Z.of_nat (length (candles v))) <= maxCandles v + 1.
Proof.
  assert (H0 : 0 <= 1 / 6) by (unfold Qle; simpl; lia).
  split; [exact H0|].
  remember (calls [CallUpdateCandle (mkCandleMsg 1000 100 100 100 2) 1000000;
                   CallUpdateCandle (mkCandleMsg 1001 120 120 120 1) 1001000;
                   CallUpdateCandle (mkCandleMsg 1002 90 90 90 4) 1002000]
              (new (1 / 6) 72)) as o eqn:E.
  destruct o as [v|]; [|vm_compute in E; discriminate E].
  exists v. split; [reflexivity|].
  exact (proj1 (window_size_bound (1 / 6) 72 _ v H0 (eq_sym E))).
Defined.

(** *** The order of the deviation history *)

Lemma insertByTimestamp_In (d x : DeviationSnapshot) (l : list DeviationSnapshot) :
  In x (insertByTimestamp d l) <-> x = d \/ In x l.
Proof.
  induction l as [|e l IH]; simpl.
  - intuition.
  - destruct (timestamp d <=? timestamp e)%Z; simpl; [intuition|].
    rewrite IH. intuition.
Qed.

Lemma sortByTimestamp_In (x : DeviationSnapshot) (l : list DeviationSnapshot) :
  In x (sortByTimestamp l) <-> In x l.
Proof.
  unfold sortByTimestamp. induction l as [|d l IH]; simpl; [tauto|].
  rewrite insertByTimestamp_In, IH. intuition.
Qed.

Lemma insertByTimestamp_ascending (d : DeviationSnapshot) (l : list DeviationSnapshot) :
  ascendingHistory l ->
  (forall e, In e l -> timestamp e <> timestamp d) ->
  ascendingHistory (insertByTimestamp d l).
Proof.
  unfold ascendingHistory.
  induction l as [|e l IH]; simpl; intros Hs Hne.
  - constructor; constructor.
  - inversion Hs as [|? ? Hs' Hall]; subst.
    assert (He : timestamp e <> timestamp d) by (apply Hne; left; reflexivity).
    destruct (Z.leb_spec (timestamp d) (timestamp e)).
    + constructor; [exact Hs|].
      constructor; [lia|].
      rewrite Forall_forall in Hall |- *. intros x Hx. specialize (Hall x Hx). lia.
    + constructor.
      * apply IH; [exact Hs'|]. intros x Hx. apply Hne. right. exact Hx.
      * apply Forall_forall. intros x Hx. apply insertByTimestamp_In in Hx.
        destruct Hx as [->|Hx]; [lia|].
        rewrite Forall_forall in Hall. apply Hall. exact Hx.
Qed.

Lemma sortByTimestamp_ascending (l : list DeviationSnapshot) :
  NoDup (map timestamp l) -> ascendingHistory (sortByTimestamp l).
Proof.
  unfold sortByTimestamp. induction l as [|d l IH]; simpl; intros Hnd.
  - constructor.
  - inversion Hnd as [|? ? Hnotin Hnd']; subst.
    apply insertByTimestamp_ascending; [apply IH; exact Hnd'|].
    intros e He E. apply Hnotin. rewrite <- E.
    apply in_map. apply (sortByTimestamp_In e l). exact He.
Qed.

Lemma ascendingHistory_map (h : list DeviationSnapshot) :
  ascendingHistory h <-> StronglySorted Z.lt (map timestamp h).
Proof.
  unfold ascendingHistory. induction h as [|d h IH]; simpl.
  - split; constructor.
  - split; intros H; inversion H as [|? ? Hs Hall]; subst; constructor.
    + apply IH. exact Hs.
    + rewrite Forall_forall in Hall |- *. intros x Hx.
      apply in_map_iff in Hx. destruct Hx as [e [<- He]]. apply Hall. exact He.
    + apply IH. exact Hs.
    + rewrite Forall_forall in Hall |- *. intros x Hx.
      apply Hall. apply in_map. exact Hx.
Qed.

Lemma ascendingHistory_NoDup (h : list DeviationSnapshot) :
  ascendingHistory h -> NoDup (map timestamp h).
Proof.
  unfold ascendingHistory. induction 1 as [|d h Hs IH Hall]; simpl; constructor.
  - intros Hin. apply in_map_iff in Hin. destruct Hin as [e [E He]].
    rewrite Forall_forall in Hall. specialize (Hall e He). lia.
  - exact IH.
Qed.

Lemma ascendingHistory_unique (h : list DeviationSnapshot) (a b : DeviationSnapshot) :
  ascendingHistory h -> In a h -> In b h -> timestamp a = timestamp b -> a = b.
Proof.
  unfold ascendingHistory. induction 1 as [|d h Hs IH Hall]; simpl; [contradiction|].
  rewrite Forall_forall in Hall.
  intros [->|Ha] [->|Hb] E; auto.
  - specialize (Hall b Hb). lia.
  - specialize (Hall a Ha). lia.
Qed.

Lemma findIndex_None (ts : Z) (h : list DeviationSnapshot) :
  findIndex ts h = None -> forall e, In e h -> timestamp e <> ts.
Proof.
  induction h as [|d h IH]; simpl; [contradiction|].
  destruct (Z.eqb_spec (timestamp d) ts); [discriminate|].
  destruct (findIndex ts h); [discriminate|].
  intros _ e [->|He]; [assumption | apply IH; [reflexivity | exact He]].
Qed.

Lemma findIndex_setAt_timestamps (ts : Z) (s : DeviationSnapshot) :
  forall (h : list DeviationSnapshot) (i : nat),
    findIndex ts h = Some i -> timestamp s = ts ->
    map timestamp (setAt i s h) = map timestamp h.
Proof.
  induction h as [|d h IH]; simpl; intros i H Es; [discriminate|].
  destruct (Z.eqb_spec (timestamp d) ts) as [E|E].
  - injection H as <-. simpl. congruence.
  - destruct (findIndex ts h) as [j|]; [|discriminate].
    injection H as <-. simpl. f_equal. apply IH; [reflexivity | exact Es].
Qed.

Lemma findIndex_setAt_In (ts : Z) (s : DeviationSnapshot) :
  forall (h : list DeviationSnapshot) (i : nat),
    findIndex ts h = Some i ->
    In s (setAt i s h) /\
    forall d, timestamp d <> ts -> (In d (setAt i s h) <-> (d = s \/ In d h)).
Proof.
  induction h as [|e h IH]; simpl; intros i H; [discriminate|].
  destruct (Z.eqb_spec (timestamp e) ts) as [E|E].
  - injection H as <-. simpl. split; [left; reflexivity|].
    intros d Hd. split.
    + intros [->|Hin]; auto.
    + intros [->|[->|Hin]]; auto. congruence.
  - destruct (findIndex ts h) as [j|]; [|discriminate].
    injection H as <-. simpl. destruct (IH j eq_refl) as [H1 H2].
    split; [right; exact H1|].
    intros d Hd. rewrite (H2 d Hd). intuition.
Qed.

Lemma pruneHistory_ascending (cutoff : Q) (h : list DeviationSnapshot) :
  ascendingHistory h -> ascendingHistory (pruneHistory cutoff h).
Proof.
  unfold ascendingHistory, pruneHistory.
  induction 1 as [|d h Hs IH Hall]; simpl; [constructor|].
  destruct (negb _); [|exact IH].
  constructor; [exact IH|].
  apply Forall_forall. intros x Hx. apply filter_In in Hx.
  rewrite Forall_forall in Hall. apply Hall. tauto.
Qed.

Lemma pruneHistory_In (cutoff : Q) (h : list DeviationSnapshot) (d : DeviationSnapshot) :
  In d (pruneHistory cutoff h) <-> In d h /\ cutoff <= inject_Z (timestamp d).
Proof.
  unfold pruneHistory. rewrite filter_In, negb_true_iff, Qltb_false_iff. tauto.
Qed.

(** The history that [recordDeviation] leaves when it does not return
    early. *)
Lemma recordDeviation_unfold (nowMs : Z) (v : t) (s : DeviationSnapshot) :
  truthyQ (currentVWAP v) = true -> truthyQ (currentPrice v) = true ->
  truthyZ (currentCandleStart v) = true -> currentSnapshot v = Some s ->
  deviationHistory (recordDeviation nowMs v)
  = pruneHistory (cutoffTime (deviationHistoryWindowHours v) nowMs)
      (match findIndex (timestamp s) (deviationHistory v) with
       | Some i => setAt i s (deviationHistory v)
       | None => sortByTimestamp (deviationHistory v ++ [s])
       end).
Proof.
  intros H1 H2 H3 Hs. unfold recordDeviation, currentSnapshot in *.
  rewrite H1, H2, H3. simpl.
  destruct (currentVWAP v); [|discriminate].
  destruct (currentPrice v); [|discriminate].
  destruct (currentCandleStart v); [|discriminate].
  injection Hs as <-. reflexivity.
Qed.

Lemma recorded_ascending (s : DeviationSnapshot) (h : list DeviationSnapshot) :
  ascendingHistory h ->
  ascendingHistory
    (match findIndex (timestamp s) h with
     | Some i => setAt i s h
     | None => sortByTimestamp (h ++ [s])
     end).
Proof.
  intros Ha. destruct (findIndex (timestamp s) h) as [i|] eqn:Ef.
  - apply ascendingHistory_map.
    rewrite (findIndex_setAt_timestamps _ s h i Ef eq_refl).
    apply ascendingHistory_map. exact Ha.
  - apply sortByTimestamp_ascending. rewrite map_app. simpl.
    apply NoDup_app; [apply ascendingHistory_NoDup; exact Ha
                     | repeat constructor; simpl; tauto |].
    intros x Hx [<-|[]]. apply in_map_iff in Hx. destruct Hx as [e [E He]].
    apply (findIndex_None _ _ Ef e He E).
Qed.

Lemma recordDeviation_ascending (nowMs : Z) (v : t) :
  ascendingHistory (deviationHistory v) ->
  ascendingHistory (deviationHistory (recordDeviation nowMs v)).
Proof.
  intros Ha.
  destruct (truthyQ (currentVWAP v)) eqn:E1;
    [|unfold recordDeviation; rewrite E1; exact Ha].
  destruct (truthyQ (currentPrice v)) eqn:E2;
    [|unfold recordDeviation; rewrite E1, E2; exact Ha].
  destruct (truthyZ (currentCandleStart v)) eqn:E3;
    [|unfold recordDeviation; rewrite E1, E2, E3; exact Ha].
  destruct (currentSnapshot v) as [s|] eqn:Es.
  - rewrite (recordDeviation_unfold nowMs v s E1 E2 E3 Es).
    apply pruneHistory_ascending. apply recorded_ascending. exact Ha.
  - unfold recordDeviation, currentSnapshot in *. rewrite E1, E2, E3. simpl.
    destruct (currentVWAP v); [|exact Ha].
    destruct (currentPrice v); [|exact Ha].
    destruct (currentCandleStart v); [discriminate | exact Ha].
Qed.

Lemma call_ascending (c : Call) (v v' : t) :
  call c v = Some v' ->
  ascendingHistory (deviationHistory v) -> ascendingHistory (deviationHistory v').
Proof.
  intros H Ha. destruct c as [candle nowMs | nowMs | | price nowMs | nowMs];
    simpl in H.
  - unfold updateCandle in H.
    destruct (mapHas (m_start candle) (candles v)).
    + destruct (mapGet (m_start candle) (candles v)); [|discriminate].
      injection H as <-. apply recordDeviation_ascending. exact Ha.
    + destruct (removeOldCandles nowMs v) as [v1|] eqn:Er; [|discriminate].
      injection H as <-. apply recordDeviation_ascending. simpl.
      destruct (removeOldCandles_shape _ _ _ Er) as (cs & tpv & tv & ->).
      simpl. apply pruneHistory_ascending. exact Ha.
  - destruct (removeOldCandles_shape _ _ _ H) as (cs & tpv & tv & ->).
    simpl. apply pruneHistory_ascending. exact Ha.
  - injection H as <-. exact Ha.
  - injection H as <-. exact Ha.
  - injection H as <-. apply recordDeviation_ascending. exact Ha.
Qed.

Lemma calls_ascending (cs : list Call) :
  forall v v' : t,
    calls cs v = Some v' ->
    ascendingHistory (deviationHistory v) -> ascendingHistory (deviationHistory v').
Proof.
  induction cs as [|c cs IH]; simpl; intros v v' H Ha.
  - injection H as <-. exact Ha.
  - destruct (call c v) as [v1|] eqn:E; [|discriminate].
    apply (IH _ _ H). apply (call_ascending c v v1 E Ha).
Qed.

(** X4. The live calls keep the deviation history in strictly ascending
    order of timestamp: it stays sorted and never holds two snapshots of
    the same bar. *)
Theorem deviation_history_ascending (cs : list Call) (v v' : t) :
  ascendingHistory (deviationHistory v) ->
  calls cs v = Some v' ->
  ascendingHistory (deviationHistory v') /\
  NoDup (map timestamp (deviationHistory v')).
Proof.
  intros Ha H. pose proof (calls_ascending cs v v' H Ha) as Ha'.
  split; [exact Ha' | apply ascendingHistory_NoDup; exact Ha'].
Qed.

(** Witness of X4: two bars and a revision of the first one, which
    arrives late. *)
Lemma deviation_history_ascending_witness :
  exists v' : t,
    calls [CallUpdateCandle (mkCandleMsg 1000 100 100 100 2) 1000000;
           CallUpdateCandle (mkCandleMsg 1300 120 120 120 1) 1300000;
           CallUpdateCandle (mkCandleMsg 1000 110 110 110 3) 1301000]
      (new 12 72) = Some v' /\
    map timestamp (deviationHistory v') = [1000%Z; 1300%Z] /\
    ascendingHistory (deviationHistory v').
Proof.
  remember (calls [CallUpdateCandle (mkCandleMsg 1000 100 100 100 2) 1000000;
                   CallUpdateCandle (mkCandleMsg 1300 120 120 120 1) 1300000;
                   CallUpdateCandle (mkCandleMsg 1000 110 110 110 3) 1301000]
              (new 12 72)) as o eqn:E.
  destruct o as [v'|]; [|vm_compute in E; discriminate E].
  exists v'. split; [reflexivity|]. split.
  - vm_compute in E. injection E as ->. reflexivity.
  - assert (H0 : ascendingHistory (deviationHistory (new 12 72))) by constructor.
    exact (proj1 (deviation_history_ascending _ _ v' H0 (eq_sym E))).
Defined.

(** X5. A call of [recordDeviation] that does not return early records
    the current bar once: the snapshot built from the current price and
    VWAP is in the history when its timestamp is inside the history
    window, it is the only snapshot with that timestamp, and the snapshots
    of the other bars are the former ones that are inside the window. *)
Theorem recordDeviation_overwrites (nowMs : Z) (v : t) (s : DeviationSnapshot) :
  ascendingHistory (deviationHistory v) ->
  truthyQ (currentVWAP v) = true -> truthyQ (currentPrice v) = true ->
  truthyZ (currentCandleStart v) = true -> currentSnapshot v = Some s ->
  let h' := deviationHistory (recordDeviation nowMs v) in
  let cutoff := cutoffTime (deviationHistoryWindowHours v) nowMs in
  (cutoff <= inject_Z (timestamp s) -> In s h') /\
  (forall d, In d h' -> timestamp d = timestamp s -> d = s) /\
  (forall d, timestamp d <> timestamp s ->
             (In d h' <-> In d (deviationHistory v) /\ cutoff <= inject_Z (timestamp d))).
Proof.
  intros Ha H1 H2 H3 Hs h' cutoff. unfold h'.
  rewrite (recordDeviation_unfold nowMs v s H1 H2 H3 Hs). fold cutoff.
  pose proof (recorded_ascending s (deviationHistory v) Ha) as Hasc.
  assert (Hin : In s (match findIndex (timestamp s) (deviationHistory v) with
                      | Some i => setAt i s (deviationHistory v)
                      | None => sortByTimestamp (deviationHistory v ++ [s])
                      end) /\
                forall d, timestamp d <> timestamp s ->
                  (In d (match findIndex (timestamp s) (deviationHistory v) with
                         | Some i => setAt i s (deviationHistory v)
                         | None => sortByTimestamp (deviationHistory v ++ [s])
                         end) <-> In d (deviationHistory v))).
  { destruct (findIndex (timestamp s) (deviationHistory v)) as [i|] eqn:Ef.
    - destruct (findIndex_setAt_In _ s _ i Ef) as [Hi Ho].
      split; [exact Hi|]. intros d Hd. rewrite (Ho d Hd).
      split; [intros [->|H]; [congruence | exact H] | auto].
    - split.
      + apply sortByTimestamp_In. apply in_or_app. right. left. reflexivity.
      + intros d Hd. rewrite sortByTimestamp_In, in_app_iff. simpl.
        split; [intros [H|[->|[]]]; [exact H | congruence] | auto]. }
  destruct Hin as [Hin Hother].
  split; [|split].
  - intros Hc. apply pruneHistory_In. tauto.
  - intros d Hd E. apply pruneHistory_In in Hd.
    apply (ascendingHistory_unique _ d s Hasc); tauto.
  - intros d Hd. rewrite pruneHistory_In, (Hother d Hd). tauto.
Qed.

(** Witness of X5: the bar of start 1000 is recorded a second time, at a
    new price. *)
Lemma recordDeviation_overwrites_witness :
  let old := mkSnapshot 1000 101 100 1 1 in
  let v := with_deviationHistory [old]
             (with_current (Some 102) (Some 1000%Z) (Some 2000%Z)
                (with_currentVWAP (Some 100) (new 12 72))) in
  let s := mkSnapshot 1000 102 100 (102 - 100) (((102 - 100) / 100) * 100) in
  currentSnapshot v = Some s /\
  deviationHistory (recordDeviation 3000 v) = [s] /\
  In s (deviationHistory (recordDeviation 3000 v)).
Proof.
  intros old v s.
  assert (Hs : currentSnapshot v = Some s) by reflexivity.
  assert (Ha : ascendingHistory (deviationHistory v)) by (repeat constructor).
  split; [exact Hs|]. split; [reflexivity|].
  apply (proj1 (recordDeviation_overwrites 3000 v s Ha eq_refl eq_refl eq_refl Hs)).
  unfold Qle. simpl. lia.
Defined.

(** *** The statistics of the deviation history *)

Lemma insertAscending_In (x y : Q) (l : list Q) :
  In y (insertAscending x l) <-> y = x \/ In y l.
Proof.
  induction l as [|e l IH]; simpl.
  - intuition.
  - destruct (Qle_bool x e); simpl; [intuition|]. rewrite IH. intuition.
Qed.

Lemma sortAscending_In (y : Q) (l : list Q) : In y (sortAscending l) <-> In y l.
Proof.
  unfold sortAscending. induction l as [|x l IH]; simpl; [tauto|].
  rewrite insertAscending_In, IH. intuition.
Qed.

Lemma insertAscending_length (x : Q) (l : list Q) :
  length (insertAscending x l) = S (length l).
Proof.
  induction l as [|e l IH]; simpl; [reflexivity|].
  destruct (Qle_bool x e); simpl; [reflexivity | rewrite IH; reflexivity].
Qed.

Lemma sortAscending_length (l : list Q) : length (sortAscending l) = length l.
Proof.
  unfold sortAscending. induction l as [|x l IH]; simpl; [reflexivity|].
  rewrite insertAscending_length, IH. reflexivity.
Qed.

Lemma insertAscending_sorted (x : Q) (l : list Q) :
  StronglySorted Qle l -> StronglySorted Qle (insertAscending x l).
Proof.
  induction l as [|e l IH]; simpl; intros Hs.
  - constructor; constructor.
  - inversion Hs as [|? ? Hs' Hall]; subst.
    destruct (Qle_bool x e) eqn:E.
    + apply Qle_bool_iff in E. constructor; [exact Hs|].
      constructor; [exact E|].
      rewrite Forall_forall in Hall |- *. intros y Hy.
      apply (Qle_trans _ e); [exact E | apply Hall; exact Hy].
    + assert (Hlt : e <= x).
      { destruct (Qlt_le_dec e x) as [H|H]; [apply Qlt_le_weak; exact H|].
        apply Qle_bool_iff in H. congruence. }
      constructor; [apply IH; exact Hs'|].
      apply Forall_forall. intros y Hy. apply insertAscending_In in Hy.
      destruct Hy as [->|Hy]; [exact Hlt|].
      rewrite Forall_forall in Hall. apply Hall. exact Hy.
Qed.

Lemma sortAscending_sorted (l : list Q) : StronglySorted Qle (sortAscending l).
Proof.
  unfold sortAscending. induction l as [|x l IH]; simpl; [constructor|].
  apply insertAscending_sorted. exact IH.
Qed.

Lemma sorted_nth_error_le (l : list Q) :
  StronglySorted Qle l ->
  forall (i j : nat) (a b : Q),
    (i <= j)%nat -> nth_error l i = Some a -> nth_error l j = Some b -> a <= b.
Proof.
  induction 1 as [|x l Hs IH Hall]; intros i j a b Hij Ha Hb.
  - destruct i; discriminate.
  - destruct i as [|i]; destruct j as [|j]; simpl in Ha, Hb.
    + injection Ha as <-. injection Hb as <-. apply Qle_refl.
    + injection Ha as <-. rewrite Forall_forall in Hall. apply Hall.
      apply (nth_error_In _ _ Hb).
    + lia.
    + apply (IH i j); [lia | exact Ha | exact Hb].
Qed.

Lemma percentile_index_mono (n : nat) (p q : Q) :
  p <= q ->
  (Z.min (Qfloor ((p / 100) * inject_Z (Z.of_nat n))) (Z.of_nat n - 1)
   <= Z.min (Qfloor ((q / 100) * inject_Z (Z.of_nat n))) (Z.of_nat n - 1))%Z.
Proof.
  intros Hpq. apply Z.min_le_compat_r. apply Qfloor_resp_le.
  apply Qmult_le_compat_r.
  - apply Qmult_le_compat_r; [exact Hpq|]. unfold Qle. simpl. lia.
  - change 0 with (inject_Z 0). rewrite <- Zle_Qle. lia.
Qed.

Lemma percentile_Num (arr : list Q) (p : Q) :
  arr <> [] -> 0 <= p ->
  exists x : Q,
    percentile arr p = Num x /\
    nth_error arr
      (Z.to_nat (Z.min (Qfloor ((p / 100) * inject_Z (Z.of_nat (length arr))))
                       (Z.of_nat (length arr) - 1))) = Some x.
Proof.
  intros Hne Hp.
  assert (Hn : (0 < length arr)%nat) by (destruct arr; [congruence | simpl; lia]).
  pose proof (percentile_index_bounds (length arr) p Hn Hp) as [Hlo Hhi].
  unfold percentile. destruct arr as [|a arr']; [congruence|].
  set (arr := a :: arr') in *.
  change (length arr =? 0)%nat with false. cbv iota.
  unfold arrayAt.
  destruct (Z.ltb_spec
              (Z.min (Qfloor ((p / 100) * inject_Z (Z.of_nat (length arr))))
                     (Z.of_nat (length arr) - 1)) 0); [lia|].
  destruct (nth_error arr _) as [x|] eqn:E.
  - exists x. split; reflexivity.
  - apply nth_error_None in E. lia.
Qed.

(** On one series of values: the percentiles of its sorted copy are
    values of the series, in the order of their ranks. *)
Lemma percentiles_of_series (l : list Q) (p q : Q) :
  l <> [] -> 0 <= p -> p <= q ->
  exists a b : Q,
    percentile (sortAscending l) p = Num a /\
    percentile (sortAscending l) q = Num b /\
    a <= b /\ In a l /\ In b l.
Proof.
  intros Hne Hp Hpq.
  assert (Hne' : sortAscending l <> []).
  { intros E. apply (f_equal (@length Q)) in E.
    rewrite sortAscending_length in E. destruct l; [congruence | discriminate]. }
  assert (Hq : 0 <= q) by lra.
  destruct (percentile_Num _ p Hne' Hp) as (a & Ea & Na).
  destruct (percentile_Num _ q Hne' Hq) as (b & Eb & Nb).
  exists a, b. split; [exact Ea|]. split; [exact Eb|]. split; [|split].
  - refine (sorted_nth_error_le _ (sortAscending_sorted l) _ _ a b _ Na Nb).
    pose proof (percentile_index_mono (length (sortAscending l)) p q Hpq).
    lia.
  - apply sortAscending_In. apply (nth_error_In _ _ Na).
  - apply sortAscending_In. apply (nth_error_In _ _ Nb).
Qed.

Lemma fold_Qmin_le (l : list Q) :
  forall x : Q,
    fold_left Qmin l x <= x /\ forall y, In y l -> fold_left Qmin l x <= y.
Proof.
  induction l as [|e l IH]; simpl; intros x.
  - split; [apply Qle_refl | contradiction].
  - destruct (IH (Qmin x e)) as [H1 H2]. split.
    + apply (Qle_trans _ (Qmin x e)); [exact H1 | apply Q.le_min_l].
    + intros y [->|Hy]; [|apply H2; exact Hy].
      apply (Qle_trans _ (Qmin x y)); [exact H1 | apply Q.le_min_r].
Qed.

Lemma fold_Qmax_le (l : list Q) :
  forall x : Q,
    x <= fold_left Qmax l x /\ forall y, In y l -> y <= fold_left Qmax l x.
Proof.
  induction l as [|e l IH]; simpl; intros x.
  - split; [apply Qle_refl | contradiction].
  - destruct (IH (Qmax x e)) as [H1 H2]. split.
    + apply (Qle_trans _ (Qmax x e)); [apply Q.le_max_l | exact H1].
    + intros y [->|Hy]; [|apply H2; exact Hy].
      apply (Qle_trans _ (Qmax x y)); [apply Q.le_max_r | exact H1].
Qed.

(** X6. The statistics exist exactly when the deviation history is not
    empty.  Their percent percentiles are numbers, each the percent
    deviation of a recorded snapshot, ordered by rank,
    [p1 <= p5 <= p10 <= p90 <= p95 <= p99], and lying between
    [minPercent] and [maxPercent]; [count] is the length of the
    history. *)
Theorem deviation_stats_ordered (v : t) :
  (getDeviationStats v = None <-> deviationHistory v = []) /\
  forall ds : DeviationStats,
    getDeviationStats v = Some ds ->
    count ds = Z.of_nat (length (deviationHistory v)) /\
    exists p1 p5 p10 p90 p95 p99 : Q,
      percentile1Percent ds = Num p1 /\ percentile5Percent ds = Num p5 /\
      percentile10Percent ds = Num p10 /\ percentile90Percent ds = Num p90 /\
      percentile95Percent ds = Num p95 /\ percentile99Percent ds = Num p99 /\
      minPercent ds <= p1 /\ p1 <= p5 /\ p5 <= p10 /\ p10 <= p90 /\
      p90 <= p95 /\ p95 <= p99 /\ p99 <= maxPercent ds /\
      Forall (fun p => In p (map deviationPercent (deviationHistory v)))
             [p1; p5; p10; p90; p95; p99].
Proof.
  split.
  { unfold getDeviationStats. destruct (deviationHistory v); split; intros H;
      try reflexivity; discriminate. }
  intros ds H. unfold getDeviationStats in H.
  destruct (deviationHistory v) as [|d0 rest] eqn:Eh; [discriminate|].
  injection H as <-. simpl count. split; [reflexivity|].
  set (l := map deviationPercent (d0 :: rest)).
  assert (Hne : l <> []) by discriminate.
  assert (P : forall p q, 0 <= p -> p <= q ->
              exists a b, percentile (sortAscending l) p = Num a /\
                          percentile (sortAscending l) q = Num b /\
                          a <= b /\ In a l /\ In b l).
  { intros p q. apply percentiles_of_series. exact Hne. }
  destruct (P 1 5) as (p1 & p5 & E1 & E5 & L15 & I1 & I5);
    [unfold Qle; simpl; lia | unfold Qle; simpl; lia|].
  destruct (P 5 10) as (p5' & p10 & E5' & E10 & L510 & _ & I10);
    [unfold Qle; simpl; lia | unfold Qle; simpl; lia|].
  destruct (P 10 90) as (p10' & p90 & E10' & E90 & L1090 & _ & I90);
    [unfold Qle; simpl; lia | unfold Qle; simpl; lia|].
  destruct (P 90 95) as (p90' & p95 & E90' & E95 & L9095 & _ & I95);
    [unfold Qle; simpl; lia | unfold Qle; simpl; lia|].
  destruct (P 95 99) as (p95' & p99 & E95' & E99 & L9599 & _ & I99);
    [unfold Qle; simpl; lia | unfold Qle; simpl; lia|].
  assert (p5' = p5) by congruence. assert (p10' = p10) by congruence.
  assert (p90' = p90) by congruence. assert (p95' = p95) by congruence.
  subst p5' p10' p90' p95'.
  exists p1, p5, p10, p90, p95, p99.
  split; [exact E1|]. split; [exact E5|]. split; [exact E10|].
  split; [exact E90|]. split; [exact E95|]. split; [exact E99|].
  destruct (fold_Qmin_le (map deviationPercent rest) (deviationPercent d0)) as [M1 M2].
  destruct (fold_Qmax_le (map deviationPercent rest) (deviationPercent d0)) as [X1 X2].
  split.
  { destruct I1 as [<-|I1]; [exact M1 | apply M2; exact I1]. }
  split; [exact L15|]. split; [exact L510|]. split; [exact L1090|].
  split; [exact L9095|]. split; [exact L9599|].
  split.
  { destruct I99 as [<-|I99]; [exact X1 | apply X2; exact I99]. }
  repeat (apply Forall_cons; [assumption|]). apply Forall_nil.
Qed.

(** Witness of X6: the history of the percentile example. *)
Lemma deviation_stats_ordered_witness :
  let h := [mkSnapshot 1 99.3 100 (-0.7) 0.7; mkSnapshot 2 99.1 100 (-0.9) (-0.9);
            mkSnapshot 3 100.85 100 0.85 0.85; mkSnapshot 4 99.25 100 (-0.75) (-0.75)] in
  let v := with_deviationHistory h (new 12 72) in
  exists ds : DeviationStats,
    getDeviationStats v = Some ds /\
    percentile10Percent ds = Num (-0.9) /\ percentile90Percent ds = Num 0.85 /\
    count ds = 4%Z.
Proof.
  intros h v.
  destruct (getDeviationStats v) as [ds|] eqn:E; [|vm_compute in E; discriminate E].
  exists ds. split; [reflexivity|].
  pose proof (proj2 (deviation_stats_ordered v) ds E) as [Hc _].
  vm_compute in E. injection E as <-.
  split; [reflexivity|]. split; [reflexivity | exact Hc].
Defined.

(** *** The backfill of the deviation history *)

Lemma windowSums_positive (windowStart : Q) (candleStart : Z) (l : list CandleMsg) :
  Forall positiveBar l ->
  forall acc : Q * Q,
    (0 <= fst acc /\ 0 <= snd acc /\ (0 < snd acc -> 0 < fst acc)) ->
    let r :=
      fold_left
        (fun (acc : Q * Q) (windowCandle : CandleMsg) =>
           let windowCandleStart := m_start windowCandle in
           if Qle_bool windowStart (inject_Z windowCandleStart)
              && (windowCandleStart <=? candleStart)%Z
           then
             let typicalPrice :=
               (m_high windowCandle + m_low windowCandle + m_close windowCandle) / 3 in
             (fst acc + typicalPrice * m_volume windowCandle,
              snd acc + m_volume windowCandle)
           else acc)
        l acc in
    0 <= fst r /\ 0 <= snd r /\ (0 < snd r -> 0 < fst r).
Proof.
  induction 1 as [|c l Hc Hl IH]; simpl; intros acc Hacc; [exact Hacc|].
  apply IH. destruct (_ && _); [|exact Hacc].
  destruct Hc as [Hv Hp]. destruct Hacc as (A1 & A2 & A3). simpl.
  set (tp := (m_high c + m_low c + m_close c) / 3).
  assert (Htp : 0 < tp).
  { unfold tp. apply Qlt_shift_div_l; [reflexivity | lra]. }
  assert (Hprod : 0 <= tp * m_volume c).
  { apply Qmult_le_0_compat; [apply Qlt_le_weak; exact Htp | exact Hv]. }
  split; [lra|]. split; [lra|]. intros Hpos.
  destruct (Qlt_le_dec 0 (m_volume c)) as [Hvp|Hv0].
  - assert (0 < tp * m_volume c) by (apply Qmult_lt_0_compat; assumption). lra.
  - assert (0 < snd acc) by lra. specialize (A3 H). lra.
Qed.

Lemma backfill_sound (wh hst : Q) (input : list CandleMsg) (todo : list CandleMsg) :
  forall (seen : list CandleMsg) (h : list DeviationSnapshot),
    Forall positiveBar (seen ++ todo) -> incl todo input ->
    Forall (soundSnapshot hst input) h ->
    Forall (soundSnapshot hst input) (backfill wh hst seen todo h).
Proof.
  induction todo as [|c todo IH]; simpl; intros seen h Hpos Hincl Hh; [exact Hh|].
  assert (Hpos' : Forall positiveBar ((seen ++ [c]) ++ todo)).
  { rewrite <- app_assoc. exact Hpos. }
  assert (Hincl' : incl todo input).
  { intros x Hx. apply Hincl. right. exact Hx. }
  destruct (Qltb (inject_Z (m_start c)) hst) eqn:Eold; [apply IH; assumption|].
  apply Qltb_false_iff in Eold.
  assert (Hseen : Forall positiveBar (seen ++ [c])).
  { apply Forall_app in Hpos'. tauto. }
  pose proof (windowSums_positive (inject_Z (m_start c) - wh * 60 * 60) (m_start c)
                (seen ++ [c]) Hseen (0, 0)) as Hw.
  simpl in Hw.
  assert (H00 : 0 <= 0 /\ 0 <= 0 /\ (0 < 0 -> 0 < 0)).
  { split; [apply Qle_refl|]. split; [apply Qle_refl | tauto]. }
  specialize (Hw H00).
  unfold windowSums.
  destruct (fold_left _ (seen ++ [c]) (0, 0)) as [wpv wv] eqn:Ew.
  simpl in Hw. destruct Hw as (W1 & W2 & W3).
  destruct (Qltb 0 wv) eqn:Ev; [|apply IH; assumption].
  apply Qltb_iff in Ev.
  apply IH; [assumption | assumption|].
  apply Forall_app. split; [exact Hh|]. constructor; [|constructor].
  unfold soundSnapshot. simpl.
  split.
  { apply Qlt_shift_div_l; [exact Ev|]. specialize (W3 Ev). lra. }
  split; [reflexivity|]. split; [reflexivity|]. split; [exact Eold|].
  exists c. split; [apply Hincl; left; reflexivity | split; reflexivity].
Qed.

Lemma sortByStart_In (c : CandleMsg) (l : list CandleMsg) :
  In c (sortByStart l) <-> In c l.
Proof.
  split; apply Permutation_in;
    [apply sortByStart_perm | apply Permutation_sym; apply sortByStart_perm].
Qed.

(** X7. When every historical bar has a volume that is not negative and
    prices whose sum is positive, every snapshot of the backfill has a
    positive VWAP, carries [deviation = price - vwap] and
    [deviationPercent = deviation / vwap * 100], lies inside the history
    window, and takes its timestamp and price from one of the bars; there
    are at most as many snapshots as bars. *)
Theorem backfill_snapshots_sound (allCandles : list CandleMsg) (nowMs : Z) (v : t) :
  Forall positiveBar allCandles ->
  Forall (soundSnapshot (cutoffTime (deviationHistoryWindowHours v) nowMs) allCandles)
         (deviationHistory (initializeDeviationHistory allCandles nowMs v)) /\
  Forall nonzeroVwap (deviationHistory (initializeDeviationHistory allCandles nowMs v)) /\
  (length (deviationHistory (initializeDeviationHistory allCandles nowMs v))
   <= length allCandles)%nat.
Proof.
  intros Hpos.
  assert (Hs : Forall (soundSnapshot (cutoffTime (deviationHistoryWindowHours v) nowMs)
                         allCandles)
                 (deviationHistory (initializeDeviationHistory allCandles nowMs v))).
  { unfold initializeDeviationHistory. simpl. apply Forall_sortByTimestamp.
    apply backfill_sound.
    - simpl. apply Forall_forall. intros c Hc.
      apply (proj1 (sortByStart_In c allCandles)) in Hc.
      rewrite Forall_forall in Hpos. apply Hpos. exact Hc.
    - intros c Hc. apply (proj1 (sortByStart_In c allCandles)). exact Hc.
    - constructor. }
  split; [exact Hs|]. split.
  - rewrite Forall_forall in Hs |- *. intros d Hd.
    destruct (Hs d Hd) as [Hv _]. unfold nonzeroVwap. lra.
  - unfold initializeDeviationHistory. simpl.
    assert (Hlen : forall l, length (sortByTimestamp l) = length l).
    { unfold sortByTimestamp. induction l as [|d l IH]; simpl; [reflexivity|].
      rewrite <- IH. generalize (fold_right insertByTimestamp [] l). intros m.
      induction m as [|e m IHm]; simpl; [reflexivity|].
      destruct (timestamp d <=? timestamp e)%Z; simpl; [reflexivity|].
      rewrite IHm. reflexivity. }
    rewrite Hlen.
    assert (Hb : forall todo seen h,
               (length (backfill (windowHours v)
                          (inject_Z (nowSeconds nowMs)
                           - deviationHistoryWindowHours v * 60 * 60) seen todo h)
                <= length h + length todo)%nat).
    { induction todo as [|c todo IH]; simpl; intros seen h; [lia|].
      destruct (Qltb _ _); [specialize (IH (seen ++ [c]) h); lia|].
      destruct (windowSums _ _ _) as [wpv wv].
      destruct (Qltb 0 wv).
      - specialize (IH (seen ++ [c]) (h ++ [ {| timestamp := m_start c;
            price := m_close c; vwap := wpv / wv;
            deviation := m_close c - wpv / wv;
            deviationPercent := (m_close c - wpv / wv) / (wpv / wv) * 100 |} ])).
        rewrite length_app in IH. simpl in IH. lia.
      - specialize (IH (seen ++ [c]) h). lia. }
    specialize (Hb (sortByStart allCandles) [] []). simpl in Hb.
    rewrite (Permutation_length (sortByStart_perm allCandles)) in Hb. exact Hb.
Qed.

(** Witness of X7: two bars, the second seen with the first in its
    window. *)
Lemma backfill_snapshots_sound_witness :
  let bars := [mkCandleMsg 1300 120 120 120 1; mkCandleMsg 1000 100 100 100 3] in
  Forall positiveBar bars /\
  map timestamp
    (deviationHistory (initializeDeviationHistory bars 1400000 (new 12 72)))
  = [1000%Z; 1300%Z] /\
  Forall nonzeroVwap
    (deviationHistory (initializeDeviationHistory bars 1400000 (new 12 72))).
Proof.
  intros bars.
  assert (Hpos : Forall positiveBar bars).
  { repeat constructor; unfold Qle, Qlt; simpl; lia. }
  split; [exact Hpos|]. split; [reflexivity|].
  exact (proj1 (proj2 (backfill_snapshots_sound bars 1400000 (new 12 72) Hpos))).
Defined.

(** *** What [initialize] leaves *)

Lemma sumBar_perm (l l' : list CandleMsg) :
  Permutation l l' ->
  sumBarPriceVolume l == sumBarPriceVolume l' /\ sumBarVolume l == sumBarVolume l'.
Proof.
  unfold sumBarPriceVolume, sumBarVolume.
  induction 1 as [|x l l' Hp [IH1 IH2]|x y l|l l' l'' H1 [IH1 IH2] H2 [IH3 IH4]]; simpl.
  - split; reflexivity.
  - rewrite IH1, IH2. split; reflexivity.
  - split; lra.
  - split; [rewrite IH1; exact IH3 | rewrite IH2; exact IH4].
Qed.

(** The totals after [initialize] are the sums over all the bars given,
    whether or not two of them share a start. *)
Lemma fold_addHistorical_totals (l : list CandleMsg) :
  forall v : t,
    totalPriceVolume (fold_left addHistorical l v)
    == totalPriceVolume v + sumBarPriceVolume l /\
    totalVolume (fold_left addHistorical l v) == totalVolume v + sumBarVolume l.
Proof.
  unfold sumBarPriceVolume, sumBarVolume.
  induction l as [|c l IH]; simpl; intros v.
  - split; lra.
  - destruct (IH (addHistorical v c)) as [H1 H2]. rewrite H1, H2.
    simpl. split; lra.
Qed.

Lemma initialize_totals (historical : list CandleMsg) (nowMs : Z) (v : t) :
  totalPriceVolume (initialize historical nowMs v) == sumBarPriceVolume historical /\
  totalVolume (initialize historical nowMs v) == sumBarVolume historical.
Proof.
  unfold initialize.
  destruct (fold_addHistorical_totals (sortByStart historical)
              (with_totals 0 0 (with_candles [] v))) as [H1 H2].
  destruct (sumBar_perm _ _ (sortByStart_perm historical)) as [P1 P2].
  simpl in H1, H2.
  destruct (sortByStart historical); simpl in *; split; lra.
Qed.

Lemma fold_addHistorical_keys (l : list CandleMsg) :
  forall v : t,
    NoDup (map m_start l) ->
    (forall c, In c l -> ~ In (m_start c) (keys (candles v))) ->
    keys (candles (fold_left addHistorical l v)) = keys (candles v) ++ map m_start l.
Proof.
  induction l as [|c l IH]; simpl; intros v Hnd Hfresh.
  - rewrite app_nil_r. reflexivity.
  - inversion Hnd as [|? ? Hnotin Hnd']; subst.
    assert (Hk : keys (candles (addHistorical v c)) = keys (candles v) ++ [m_start c]).
    { unfold addHistorical. simpl. rewrite mapSet_new.
      - unfold keys. rewrite map_app. reflexivity.
      - apply Hfresh. left. reflexivity. }
    rewrite IH; [rewrite Hk, <- app_assoc; reflexivity | exact Hnd'|].
    intros c' Hc'. rewrite Hk. intros Hin. apply in_app_or in Hin.
    destruct Hin as [Hin|[Hin|[]]].
    + apply (Hfresh c' (or_intror Hc') Hin).
    + apply Hnotin. rewrite Hin. apply in_map. exact Hc'.
Qed.

Lemma insertByStart_sorted (c : CandleMsg) (l : list CandleMsg) :
  StronglySorted (fun a b => (m_start a <= m_start b)%Z) l ->
  StronglySorted (fun a b => (m_start a <= m_start b)%Z) (insertByStart c l).
Proof.
  induction l as [|e l IH]; simpl; intros Hs.
  - constructor; constructor.
  - inversion Hs as [|? ? Hs' Hall]; subst.
    destruct (Z.leb_spec (m_start c) (m_start e)).
    + constructor; [exact Hs|]. constructor; [assumption|].
      rewrite Forall_forall in Hall |- *. intros x Hx. specialize (Hall x Hx). lia.
    + constructor; [apply IH; exact Hs'|].
      apply Forall_forall. intros x Hx.
      apply (Permutation_in _ (insertByStart_perm c l)) in Hx.
      destruct Hx as [<-|Hx]; [lia|].
      rewrite Forall_forall in Hall. apply Hall. exact Hx.
Qed.

Lemma sortByStart_sorted (l : list CandleMsg) :
  StronglySorted (fun a b => (m_start a <= m_start b)%Z) (sortByStart l).
Proof.
  unfold sortByStart. induction l as [|c l IH]; simpl; [constructor|].
  apply insertByStart_sorted. exact IH.
Qed.

Lemma sorted_last_max (l : list CandleMsg) (d : CandleMsg) :
  StronglySorted (fun a b => (m_start a <= m_start b)%Z) l -> l <> [] ->
  In (last l d) l /\ forall c, In c l -> (m_start c <= m_start (last l d))%Z.
Proof.
  induction 1 as [|x l Hs IH Hall]; intros Hne; [congruence|].
  destruct l as [|y l'].
  - simpl. split; [left; reflexivity|]. intros c [<-|[]]. lia.
  - assert (Hne' : y :: l' <> []) by discriminate.
    destruct (IH Hne') as [H1 H2].
    change (last (x :: y :: l') d) with (last (y :: l') d).
    split; [right; exact H1|].
    intros c [<-|Hc]; [|apply H2; exact Hc].
    rewrite Forall_forall in Hall. apply Hall. exact H1.
Qed.

(** X8. [initialize] on bars with distinct starts retains every bar, in
    ascending order of start; its running totals are the sums over the
    bars given; the current price and candle start are those of the bar
    with the greatest start; and the VWAP is the one of the totals. *)
Theorem initialize_state (historical : list CandleMsg) (nowMs : Z) (v : t) :
  NoDup (map m_start historical) -> historical <> [] ->
  keys (candles (initialize historical nowMs v))
  = map m_start (sortByStart historical) /\
  StronglySorted Z.le (keys (candles (initialize historical nowMs v))) /\
  totalPriceVolume (initialize historical nowMs v) == sumBarPriceVolume historical /\
  totalVolume (initialize historical nowMs v) == sumBarVolume historical /\
  currentVWAP (initialize historical nowMs v)
  = vwapOf (totalPriceVolume (initialize historical nowMs v))
           (totalVolume (initialize historical nowMs v)) /\
  exists latest : CandleMsg,
    In latest historical /\
    (forall c, In c historical -> (m_start c <= m_start latest)%Z) /\
    currentCandleStart (initialize historical nowMs v) = Some (m_start latest) /\
    currentPrice (initialize historical nowMs v) = Some (m_close latest).
Proof.
  intros Hnd Hne.
  assert (Hnd' : NoDup (map m_start (sortByStart historical))).
  { eapply Permutation_NoDup; [|exact Hnd].
    apply Permutation_map. apply Permutation_sym. apply sortByStart_perm. }
  assert (Hkeys : keys (candles (initialize historical nowMs v))
                  = map m_start (sortByStart historical)).
  { unfold initialize.
    pose proof (fold_addHistorical_keys (sortByStart historical)
                  (with_totals 0 0 (with_candles [] v)) Hnd') as Hk.
    simpl in Hk.
    assert (Hk' := Hk (fun c _ (F : False) => F)).
    destruct (sortByStart historical); simpl; exact Hk'. }
  split; [exact Hkeys|]. split.
  { rewrite Hkeys. generalize (sortByStart_sorted historical).
    generalize (sortByStart historical). intros l0 Hs.
    induction Hs as [|x l Hs IH Hall]; simpl; constructor; [exact IH|].
    rewrite Forall_forall in Hall |- *. intros z Hz.
    apply in_map_iff in Hz. destruct Hz as [e [<- He]]. apply Hall. exact He. }
  destruct (initialize_totals historical nowMs v) as [T1 T2].
  split; [exact T1|]. split; [exact T2|]. split.
  { unfold initialize. destruct (sortByStart historical); reflexivity. }
  assert (Hne' : sortByStart historical <> []).
  { intros E. apply Hne. apply Permutation_nil. rewrite <- E.
    apply sortByStart_perm. }
  destruct (sortByStart historical) as [|first rest] eqn:Es; [congruence|].
  destruct (sorted_last_max (first :: rest) first) as [L1 L2].
  { rewrite <- Es. apply sortByStart_sorted. }
  { discriminate. }
  exists (last (first :: rest) first).
  split; [|split; [|split]].
  - apply (proj1 (sortByStart_In _ historical)). rewrite Es. exact L1.
  - intros c Hc. apply L2. rewrite <- Es. apply (proj2 (sortByStart_In _ historical)).
    exact Hc.
  - unfold initialize. rewrite Es. reflexivity.
  - unfold initialize. rewrite Es. reflexivity.
Qed.

(** Witness of X8: two bars given newest first. *)
Lemma initialize_state_witness :
  let bars := [mkCandleMsg 1300 120 120 120 1; mkCandleMsg 1000 100 100 100 3] in
  NoDup (map m_start bars) /\ bars <> [] /\
  keys (candles (initialize bars 1400000 (new 12 72))) = [1000%Z; 1300%Z] /\
  currentCandleStart (initialize bars 1400000 (new 12 72)) = Some 1300%Z /\
  totalVolume (initialize bars 1400000 (new 12 72)) == sumBarVolume bars.
Proof.
  intros bars.
  assert (H1 : NoDup (map m_start bars)).
  { repeat constructor; simpl; intuition; discriminate. }
  assert (H2 : bars <> []) by discriminate.
  split; [exact H1|]. split; [exact H2|]. split; [reflexivity|]. split; [reflexivity|].
  exact (proj1 (proj2 (proj2 (proj2 (initialize_state bars 1400000 (new 12 72) H1 H2))))).
Defined.

(** The percent percentiles that the strategy reads, after [|| 0]. *)
Lemma percent_percentiles_ordered (v : t) (ds : DeviationStats) :
  getDeviationStats v = Some ds ->
  orZero (percentile5Percent ds) <= orZero (percentile10Percent ds) /\
  orZero (percentile90Percent ds) <= orZero (percentile95Percent ds).
Proof.
  intros H. unfold getDeviationStats in H.
  destruct (deviationHistory v) as [|d0 rest] eqn:Eh; [discriminate|].
  injection H as <-. cbn [percentile5Percent percentile10Percent
                            percentile90Percent percentile95Percent].
  set (l := map deviationPercent (d0 :: rest)).
  assert (Hne : l <> []) by discriminate.
  destruct (percentiles_of_series l 5 10 Hne) as (a & b & Ea & Eb & Hab & _);
    [unfold Qle; simpl; lia | unfold Qle; simpl; lia|].
  destruct (percentiles_of_series l 90 95 Hne) as (c & d & Ec & Ed & Hcd & _);
    [unfold Qle; simpl; lia | unfold Qle; simpl; lia|].
  change (orZero (percentile (sortAscending l) 5)
          <= orZero (percentile (sortAscending l) 10) /\
          orZero (percentile (sortAscending l) 90)
          <= orZero (percentile (sortAscending l) 95)).
  rewrite Ea, Eb, Ec, Ed. rewrite !orZero_Num. split; assumption.
Qed.


End RollingVWAPFacts.

(** ** The rolling window in double precision *)

Module DoubleFacts.
Import Floats Double.
Local Open Scope float_scope.
Local Set Warnings "-inexact-float".

(** C1 fails in double precision.  Three bars at the price 40003 with the
    volumes 0.1, 0.2 and 0.3 are received; thirteen hours later the
    cleanup timer calls [removeOldCandles] and [updateStats].  The three
    bars are evicted, but subtracting their contributions from the
    running totals in the order of the map does not give back [0]:
    [totalPriceVolume] is left at 2^-38 (about 3.6e-12) and [totalVolume]
    at 2^-53 (about 1.1e-16).  The test [totalVolume > 0] of
    [updateStats] therefore passes and the object reports the VWAP 32768
    for a window without bars, where the VWAP recomputed from the
    retained bars is [null]; with the last price, 40003, still in place
    the deviation it reports is above 22%. *)
Lemma running_totals_residue :
  let bar (start : Z) (volume : float) := mkCandleMsg start 40003 40003 40003 volume in
  let received :=
    [CallUpdateCandle (bar 1699999400%Z 0.1) 1700000000000;
     CallUpdateCandle (bar 1699999700%Z 0.2) 1700000001000;
     CallUpdateCandle (bar 1700000000%Z 0.3) 1700000002000] in
  let cleanup := [CallRemoveOldCandles 1700046800000; CallUpdateStats] in
  exists v v' : t,
    calls received (new 12 72) = Some v /\
    map fst (candles v) = [1699999400; 1699999700; 1700000000]%Z /\
    currentVWAP v = Some 40003 /\
    vwapFromScratch (candles v) = Some 40003 /\
    calls cleanup v = Some v' /\
    candles v' = [] /\
    totalPriceVolume v' = 0x1p-38 /\
    totalVolume v' = 0x1p-53 /\
    currentVWAP v' = Some 32768 /\
    vwapFromScratch (candles v') = None /\
    exists d : float, getDeviationPercent v' = Some d /\ (22 <? d) = true.
Proof.
  intros bar received cleanup.
  destruct (calls received (new 12 72)) as [v|] eqn:E;
    [|vm_compute in E; discriminate E].
  destruct (calls cleanup v) as [v'|] eqn:E';
    [|vm_compute in E; injection E as <-; vm_compute in E'; discriminate E'].
  exists v, v'.
  vm_compute in E. injection E as <-.
  vm_compute in E'. injection E' as <-.
  repeat (split; [reflexivity|]).
  eexists. split; reflexivity.
Qed.

(** C10 fails on the historical backfill.  A bar of volume 1 whose
    prices are all [0] gives its window the VWAP [0 / 1 = 0];
    [initializeDeviationHistory] tests [vwapAtMoment !== null] only, so it
    divides the deviation by that VWAP and pushes a snapshot whose [vwap]
    is [0] and whose [deviationPercent] is [NaN].  The live path refuses
    the same bar: after [updateCandle] the VWAP is [0] as well, but
    [recordDeviation] records nothing and the two getters return [null],
    also once a tick has set a price. *)
Lemma backfill_divides_by_zero_vwap :
  let zeroBar := mkCandleMsg 1000 0 0 0 1 in
  (exists d : DeviationSnapshot,
      deviationHistory (initializeDeviationHistory [zeroBar] 1000000 (new 12 72)) = [d] /\
      timestamp d = 1000%Z /\ vwap d = 0 /\ deviation d = 0 /\
      is_nan (deviationPercent d) = true) /\
  (exists v : t,
      updateCandle zeroBar 1000000 (new 12 72) = Some v /\
      currentVWAP v = Some 0 /\
      deviationHistory v = [] /\
      getDeviation (updatePrice 100 1000001 v) = None /\
      getDeviationPercent (updatePrice 100 1000001 v) = None /\
      recordDeviation 1000002 (updatePrice 100 1000001 v) = updatePrice 100 1000001 v).
Proof.
  intros zeroBar. split.
  - eexists. split; [vm_compute; reflexivity|].
    repeat split; reflexivity.
  - destruct (updateCandle zeroBar 1000000 (new 12 72)) as [v|] eqn:E;
      [|vm_compute in E; discriminate E].
    exists v. vm_compute in E. injection E as <-.
    repeat split; reflexivity.
Qed.

(** The percent deviation and the price of a level round differently: at
    the VWAP 100 the price of the threshold 0.6% is [100 * (1 + 0.6 / 100)
    = 100.6], but the deviation of the price 100.6 is
    [((100.6 - 100) / 100) * 100 = 0.5999999999999943], below 0.6. *)
Example deviation_at_level_price :
  let v := with_current (Some 100.6) (Some 1000%Z) (Some 0%Z)
             (with_currentVWAP (Some 100) (new 12 72)) in
  100 * (1 + 0.6 / 100) = 100.6 /\
  getDeviationPercent v = Some 0.5999999999999943 /\
  (0.5999999999999943 <? 0.6) = true.
Proof. repeat split; reflexivity. Qed.

End DoubleFacts.

(** ** The strategy: entries, exits and the reentry flag *)

Module StrategyFacts.
Import Js JsFacts Strategy.

Lemma with_waiting_twice (w w' : option Side) (s : t) :
  with_waiting w (with_waiting w' s) = with_waiting w s.
Proof. reflexivity. Qed.

Lemma with_waiting_new_None : with_waiting None new = new.
Proof. reflexivity. Qed.

Lemma geq_iff (dev : option Q) (x : Q) : geq dev x = true <-> x <= toNumber dev.
Proof. unfold geq. apply Qle_bool_iff. Qed.

Lemma leq_iff (dev : option Q) (x : Q) : leq dev x = true <-> toNumber dev <= x.
Proof. unfold leq. apply Qle_bool_iff. Qed.

Lemma geq_false_iff (dev : option Q) (x : Q) :
  geq dev x = false <-> ~ x <= toNumber dev.
Proof.
  rewrite <- geq_iff. destruct (geq dev x); split; intros; congruence.
Qed.

Lemma leq_false_iff (dev : option Q) (x : Q) :
  leq dev x = false <-> ~ toNumber dev <= x.
Proof.
  rewrite <- leq_iff. destruct (leq dev x); split; intros; congruence.
Qed.

(** *** Take profit *)




(** *** Entries without a position *)



(** *** The reentry flag *)

(** A call that finds the flag set and a deviation outside the neutral
    band is blocked and leaves the flag set. *)
Lemma evaluateEntry_blocked (side : Side) (st : RollingVWAP.Stats)
  (currentPosition : option Position) (d : Q) :
  RollingVWAP.s_deviationPercent st = Some d -> d < -0.75 \/ 0.6 < d ->
  evaluateEntry st currentPosition (with_waiting (Some side) new)
  = (Normal blocked, with_waiting (Some side) new).
Proof.
  intros Hd Hout. unfold evaluateEntry. simpl waitingForNeutralReentry. cbv iota.
  rewrite Hd.
  change (NEUTRAL_MIN (with_waiting (Some side) new)) with (-0.75).
  change (NEUTRAL_MAX (with_waiting (Some side) new)) with 0.6.
  assert (E : geq (Some d) (-0.75) && leq (Some d) 0.6 = false).
  { apply andb_false_iff. destruct Hout as [H|H].
    - left. apply geq_false_iff. simpl. lra.
    - right. apply leq_false_iff. simpl. lra. }
  rewrite E. reflexivity.
Qed.

(** The first call that finds the deviation inside the band clears the
    flag and goes on with the evaluation proper. *)
Lemma evaluateEntry_cleared (side : Side) (st : RollingVWAP.Stats)
  (currentPosition : option Position) (d : Q) :
  RollingVWAP.s_deviationPercent st = Some d -> -0.75 <= d -> d <= 0.6 ->
  evaluateEntry st currentPosition (with_waiting (Some side) new)
  = (evaluateEntryNormal st currentPosition new, new).
Proof.
  intros Hd Hlo Hhi. unfold evaluateEntry. simpl waitingForNeutralReentry. cbv iota.
  rewrite Hd.
  change (NEUTRAL_MIN (with_waiting (Some side) new)) with (-0.75).
  change (NEUTRAL_MAX (with_waiting (Some side) new)) with 0.6.
  assert (E : geq (Some d) (-0.75) && leq (Some d) 0.6 = true).
  { apply andb_true_iff. split; [apply geq_iff | apply leq_iff]; simpl; assumption. }
  rewrite E. reflexivity.
Qed.

(** [evaluateExit] never clears the flag. *)
Lemma evaluateExit_keeps_flag (side : Side) (st : RollingVWAP.Stats)
  (currentPosition : option Position) :
  exists side' : Side,
    snd (evaluateExit st currentPosition (with_waiting (Some side) new))
    = with_waiting (Some side') new.
Proof.
  unfold evaluateExit.
  destruct currentPosition as [pos|]; [|exists side; reflexivity].
  destruct (RollingVWAP.stats _); [|exists side; reflexivity].
  destruct (Qltb _ _); [exists side; reflexivity|].
  destruct (p_type pos) as [[|]|]; [| |exists side; reflexivity].
  - destruct (leq _ _); [exists long | exists side]; reflexivity.
  - destruct (geq _ _); [exists short | exists side]; reflexivity.
Qed.

Lemma calls_while_flag_set (cs : list Call) :
  Forall outsideBand cs ->
  forall side : Side,
  exists (side' : Side) (rs : list (completion Signal)),
    calls cs (with_waiting (Some side) new) = (rs, with_waiting (Some side') new) /\
    Forall2 blockedOutcome cs rs.
Proof.
  induction 1 as [|c cs Hc Hcs IH]; intros side.
  - exists side, []. split; [reflexivity | constructor].
  - destruct c as [st pos | st pos]; simpl calls.
    + destruct Hc as [d [Hd Hout]].
      rewrite (evaluateEntry_blocked side st pos d Hd Hout).
      destruct (IH side) as (side' & rs & E & HF). rewrite E.
      exists side', (Normal blocked :: rs). split; [reflexivity|].
      constructor; [reflexivity | assumption].
    + destruct (evaluateExit_keeps_flag side st pos) as [side1 E1].
      destruct (evaluateExit st pos (with_waiting (Some side) new)) as [r s1].
      simpl in E1. subst s1.
      destruct (IH side1) as (side' & rs & E & HF). rewrite E.
      exists side', (r :: rs). split; [reflexivity|].
      constructor; [exact I | assumption].
Qed.

Lemma no_entry_while_flag_set (side : Side) (st : RollingVWAP.Stats)
  (currentPosition : option Position) :
  waitingForNeutralReentry
    (snd (evaluateEntry st currentPosition (with_waiting (Some side) new))) <> None ->
  ~ entersOrAdds
      (fst (evaluateEntry st currentPosition (with_waiting (Some side) new))).
Proof.
  unfold evaluateEntry. simpl waitingForNeutralReentry. cbv iota.
  destruct (geq _ _ && leq _ _).
  - destruct (toFixed _); simpl; congruence.
  - intros _. simpl. unfold returning.
    destruct (toFixed _); simpl; [|tauto].
    intros [H|H]; discriminate.
Qed.

(** When the short stop fires: on a short position whose deviation is a
    number, [evaluateExit] returns the stop-loss signal exactly when the
    statistics are available and the deviation is at least 2.25. *)
Lemma short_stop_fires_iff (w : option Side) (st : RollingVWAP.Stats)
  (pos : Position) (d : Q) :
  p_type pos = Some short ->
  RollingVWAP.s_deviationPercent st = Some d ->
  (fst (evaluateExit st (Some pos) (with_waiting w new))
   = Normal (mkSignal (Some close) None None (Some stop_loss) StopLossAbsoluteShort)
   <-> RollingVWAP.stats (RollingVWAP.s_deviationHistory st) <> None /\ 2.25 <= d).
Proof.
  intros Hty Hd. unfold evaluateExit. rewrite Hty, Hd.
  change (TAKE_PROFIT_THRESHOLD (with_waiting w new)) with 0.1.
  change (SHORT_STOP_LOSS_ABSOLUTE (with_waiting w new)) with 2.25.
  destruct (RollingVWAP.stats (RollingVWAP.s_deviationHistory st)) as [pc|].
  - destruct (Qltb (Qabs (toNumber (Some d))) 0.1) eqn:Etp.
    + apply Qltb_iff in Etp. simpl in Etp.
      split; [discriminate|]. intros [_ H].
      pose proof (Qle_Qabs d). lra.
    + destruct (geq (Some d) 2.25) eqn:Eg; simpl.
      * apply geq_iff in Eg. simpl in Eg. split; [|reflexivity].
        intros _. split; [discriminate | exact Eg].
      * apply geq_false_iff in Eg. simpl in Eg.
        split; [discriminate|]. intros [_ H]. contradiction.
  - simpl. split; [discriminate|]. intros [H _]. congruence.
Qed.

(** X30. The reentry lockout while every [evaluateEntry] call carries a
    deviation that is a number.  A short position at a deviation of at
    least 2.25% (statistics available) is stopped out: [evaluateExit]
    returns [close / stop_loss] and sets the reentry flag.  From then on,
    through any sequence of further calls in which every [evaluateEntry]
    call sees a number outside [[-0.75, 0.6]], each of those calls returns
    the [none] signal and the flag stays set; no call that leaves the flag
    set returns an entry or an add; and the first [evaluateEntry] call
    that sees a number inside the band clears the flag and returns, in
    that same call, what the evaluation proper returns with the flag
    clear. *)
Theorem reentry_lockout (w0 : option Side) (st : RollingVWAP.Stats)
  (pc : RollingVWAP.DeviationStats) (pos : Position) (d : Q)
  (cs : list Call) (stIn : RollingVWAP.Stats) (posIn : option Position) (dIn : Q) :
  p_type pos = Some short ->
  RollingVWAP.stats (RollingVWAP.s_deviationHistory st) = Some pc ->
  RollingVWAP.s_deviationPercent st = Some d ->
  2.25 <= d ->
  Forall outsideBand cs ->
  RollingVWAP.s_deviationPercent stIn = Some dIn ->
  -0.75 <= dIn -> dIn <= 0.6 ->
  exists (side : Side) (rs : list (completion Signal)),
    evaluateExit st (Some pos) (with_waiting w0 new)
    = (Normal (mkSignal (Some close) None None (Some stop_loss) StopLossAbsoluteShort),
       with_waiting (Some short) new) /\
    calls cs (with_waiting (Some short) new) = (rs, with_waiting (Some side) new) /\
    Forall2 blockedOutcome cs rs /\
    evaluateEntry stIn posIn (with_waiting (Some side) new)
    = (evaluateEntryNormal stIn posIn new, new) /\
    evaluateEntry stIn posIn (with_waiting (Some side) new)
    = evaluateEntry stIn posIn new /\
    (forall (sd : Side) (st' : RollingVWAP.Stats) (pos' : option Position),
        waitingForNeutralReentry
          (snd (evaluateEntry st' pos' (with_waiting (Some sd) new))) <> None ->
        ~ entersOrAdds (fst (evaluateEntry st' pos' (with_waiting (Some sd) new)))).
Proof.
  intros Hty Hpc Hd Hstop Hcs HdIn Hlo Hhi.
  destruct (calls_while_flag_set cs Hcs short) as (side & rs & Ecalls & HF).
  exists side, rs.
  split; [|split; [exact Ecalls | split; [exact HF | split; [|split]]]].
  - unfold evaluateExit. rewrite Hpc, Hd, Hty.
    change (TAKE_PROFIT_THRESHOLD (with_waiting w0 new)) with 0.1.
    change (SHORT_STOP_LOSS_ABSOLUTE (with_waiting w0 new)) with 2.25.
    assert (E1 : Qltb (Qabs (toNumber (Some d))) 0.1 = false).
    { apply Qltb_false_iff. simpl. pose proof (Qle_Qabs d). lra. }
    assert (E2 : geq (Some d) 2.25 = true) by (apply geq_iff; exact Hstop).
    rewrite E1, E2. reflexivity.
  - apply (evaluateEntry_cleared side stIn posIn dIn HdIn Hlo Hhi).
  - rewrite (evaluateEntry_cleared side stIn posIn dIn HdIn Hlo Hhi). reflexivity.
  - intros sd st' pos'. apply no_entry_while_flag_set.
Qed.

(** Witness of X30: the short stop at 2.25%, then a blocked call at 1.5%,
    a call of [evaluateExit], a blocked call at -1%, and the call at 0.3%
    that clears the flag. *)
Lemma reentry_lockout_witness :
  let pc :=
    RollingVWAP.mkDeviationStats 4 (-1) 1 (-0.9) 0.85 0 0
      (Num (-1)) (Num (-1)) (Num (-1)) (Num 1) (Num 1) (Num 1)
      (Num (-0.9)) (Num (-0.9)) (Num (-0.75)) (Num 0.7) (Num 0.85) (Num 0.85)
      None in
  let at_ (dev : Q) :=
    RollingVWAP.mkStats (Some 100) (Some (100 + dev)) (Some dev) (Some dev)
      (Some RollingVWAP.above) 1 1 (Some 0%Z) 12
      (RollingVWAP.mkHistoryBlock 4 (Some pc) []) in
  let pos := mkPosition (Some short) 1 [Some Short1] in
  let cs := [CallEntry (at_ 1.5) None; CallExit (at_ 1.5) None;
             CallEntry (at_ (-1)) None] in
  (p_type pos = Some short /\
   RollingVWAP.stats (RollingVWAP.s_deviationHistory (at_ 2.25)) = Some pc /\
   RollingVWAP.s_deviationPercent (at_ 2.25) = Some 2.25 /\
   2.25 <= 2.25 /\
   Forall outsideBand cs /\
   RollingVWAP.s_deviationPercent (at_ 0.3) = Some 0.3 /\
   -0.75 <= 0.3 /\ 0.3 <= 0.6) /\
  exists (side : Side) (rs : list (completion Signal)),
    evaluateExit (at_ 2.25) (Some pos) (with_waiting None new)
    = (Normal (mkSignal (Some close) None None (Some stop_loss) StopLossAbsoluteShort),
       with_waiting (Some short) new) /\
    calls cs (with_waiting (Some short) new) = (rs, with_waiting (Some side) new) /\
    Forall2 blockedOutcome cs rs /\
    evaluateEntry (at_ 0.3) None (with_waiting (Some side) new)
    = (evaluateEntryNormal (at_ 0.3) None new, new).
Proof.
  intros pc at_ pos cs.
  assert (H1 : p_type pos = Some short) by reflexivity.
  assert (H2 : RollingVWAP.stats (RollingVWAP.s_deviationHistory (at_ 2.25)) = Some pc)
    by reflexivity.
  assert (H3 : RollingVWAP.s_deviationPercent (at_ 2.25) = Some 2.25) by reflexivity.
  assert (H4 : 2.25 <= 2.25) by (unfold Qle; simpl; lia).
  assert (H5 : Forall outsideBand cs).
  { repeat constructor.
    - exists 1.5. split; [reflexivity | right; reflexivity].
    - exists (-1). split; [reflexivity | left; reflexivity]. }
  assert (H6 : RollingVWAP.s_deviationPercent (at_ 0.3) = Some 0.3) by reflexivity.
  assert (H7 : -0.75 <= 0.3) by (unfold Qle; simpl; lia).
  assert (H8 : 0.3 <= 0.6) by (unfold Qle; simpl; lia).
  split; [tauto|].
  destruct (reentry_lockout None (at_ 2.25) pc pos 2.25 cs (at_ 0.3) None 0.3
              H1 H2 H3 H4 H5 H6 H7 H8)
    as (side & rs & E1 & E2 & E3 & E4 & _).
  exists side, rs. tauto.
Defined.

(** C2 fails on a snapshot without a deviation.  A short position is
    stopped out at 2.3% and the reentry flag is set.  The next
    [evaluateEntry] call receives a snapshot whose [deviationPercent] is
    [null] (the aggregator has a price but no VWAP): [null] compares as
    [0], so [null >= -0.75 && null <= 0.6] holds, the flag is cleared, and
    the log line that formats the deviation throws.  The call after it,
    at 2.3% again and so outside the band, returns [enter short Short1]:
    an entry although no call has seen a deviation inside the band. *)
Lemma reentry_flag_cleared_by_null_deviation :
  let pc :=
    RollingVWAP.mkDeviationStats 4 (-1) 1 (-0.9) 0.85 0 0
      (Num (-1)) (Num (-1)) (Num (-1)) (Num 1) (Num 1) (Num 1)
      (Num (-0.9)) (Num (-0.9)) (Num (-0.75)) (Num 0.7) (Num 0.85) (Num 0.85)
      None in
  let history := RollingVWAP.mkHistoryBlock 4 (Some pc) [] in
  let at2_3 :=
    RollingVWAP.mkStats (Some 100) (Some 102.3) (Some 2.3) (Some 2.3)
      (Some RollingVWAP.above) 1 1 (Some 0%Z) 12 history in
  let noDeviation :=
    RollingVWAP.mkStats None (Some 102.3) None None None 0 0 (Some 0%Z) 12 history in
  let pos := mkPosition (Some short) 1 [Some Short1] in
  evaluateExit at2_3 (Some pos) new
  = (Normal (mkSignal (Some close) None None (Some stop_loss) StopLossAbsoluteShort),
     with_waiting (Some short) new) /\
  RollingVWAP.s_deviationPercent noDeviation = None /\
  evaluateEntry noDeviation None (with_waiting (Some short) new) = (TypeError, new) /\
  RollingVWAP.s_deviationPercent at2_3 = Some 2.3 /\ 0.6 < 2.3 /\
  evaluateEntry at2_3 None new
  = (Normal (mkSignal (Some enter) (Some short) (Some Short1) None Short1Condition),
     new) /\
  calls [CallExit at2_3 (Some pos); CallEntry noDeviation None; CallEntry at2_3 None] new
  = ([Normal (mkSignal (Some close) None None (Some stop_loss) StopLossAbsoluteShort);
      TypeError;
      Normal (mkSignal (Some enter) (Some short) (Some Short1) None Short1Condition)],
     new).
Proof.
  intros pc history at2_3 noDeviation pos.
  split; [reflexivity|]. split; [reflexivity|]. split; [reflexivity|].
  split; [reflexivity|]. split; [reflexivity|]. split; reflexivity.
Qed.

(** *** Adding to a position *)



(** *** The exit decision *)

(** X13. On an open position, with the statistics available and a
    deviation [d] that is a number, [evaluateExit] decides as follows,
    whatever the parameters.  It returns [close / take_profit] exactly
    when [|d| < TAKE_PROFIT_THRESHOLD]; otherwise [close / stop_loss]
    exactly when the position is short and [d >= SHORT_STOP_LOSS_ABSOLUTE]
    or it is long and [d <= LONG_STOP_LOSS_ABSOLUTE]; otherwise no action.
    The reentry flag is set, to the side of the position, exactly on a
    stop loss; in every other case the object is left as it was. *)
Theorem exit_decision_table (s : t) (st : RollingVWAP.Stats)
  (pc : RollingVWAP.DeviationStats) (pos : Position) (d : Q) :
  RollingVWAP.stats (RollingVWAP.s_deviationHistory st) = Some pc ->
  RollingVWAP.s_deviationPercent st = Some d ->
  let tp := Qabs d < TAKE_PROFIT_THRESHOLD s in
  let stopShort := p_type pos = Some short /\ SHORT_STOP_LOSS_ABSOLUTE s <= d in
  let stopLong := p_type pos = Some long /\ d <= LONG_STOP_LOSS_ABSOLUTE s in
  exists (sig : Signal) (s' : t),
    evaluateExit st (Some pos) s = (Normal sig, s') /\
    (sig = mkSignal (Some close) None None (Some take_profit) TakeProfit <-> tp) /\
    (sig = mkSignal (Some close) None None (Some stop_loss) StopLossAbsoluteShort
     <-> ~ tp /\ stopShort) /\
    (sig = mkSignal (Some close) None None (Some stop_loss) StopLossAbsoluteLong
     <-> ~ tp /\ stopLong) /\
    (sig = mkSignal None None None None NoExitConditionsMet
     <-> ~ tp /\ ~ stopShort /\ ~ stopLong) /\
    (exitType sig = Some stop_loss -> s' = with_waiting (p_type pos) s) /\
    (exitType sig <> Some stop_loss -> s' = s).
Proof.
  intros Hpc Hd tp stopShort stopLong.
  unfold evaluateExit. rewrite Hpc, Hd. cbn [toNumber].
  unfold tp, stopShort, stopLong.
  destruct (Qltb (Qabs d) (TAKE_PROFIT_THRESHOLD s)) eqn:Etp.
  { apply Qltb_iff in Etp.
    eexists; eexists; split; [reflexivity|]. cbn [exitType].
    intuition (discriminate || congruence). }
  apply Qltb_false_iff in Etp.
  assert (Hn : ~ Qabs d < TAKE_PROFIT_THRESHOLD s) by (apply Qle_not_lt; exact Etp).
  destruct (p_type pos) as [[|]|] eqn:Et.
  - destruct (leq (Some d) (LONG_STOP_LOSS_ABSOLUTE s)) eqn:El.
    + apply leq_iff in El. cbn [toNumber] in El.
      eexists; eexists; split; [reflexivity|]. cbn [exitType].
      intuition (discriminate || congruence).
    + apply leq_false_iff in El. cbn [toNumber] in El.
      eexists; eexists; split; [reflexivity|]. cbn [exitType].
      intuition (discriminate || congruence).
  - destruct (geq (Some d) (SHORT_STOP_LOSS_ABSOLUTE s)) eqn:El.
    + apply geq_iff in El. cbn [toNumber] in El.
      eexists; eexists; split; [reflexivity|]. cbn [exitType].
      intuition (discriminate || congruence).
    + apply geq_false_iff in El. cbn [toNumber] in El.
      eexists; eexists; split; [reflexivity|]. cbn [exitType].
      intuition (discriminate || congruence).
  - eexists; eexists; split; [reflexivity|]. cbn [exitType].
    intuition (discriminate || congruence).
Qed.

(** Witness of X13: a long position stopped out at -2.4%. *)
Lemma exit_decision_table_witness :
  let pc :=
    RollingVWAP.mkDeviationStats 4 (-1) 1 (-0.9) 0.85 0 0
      (Num (-1)) (Num (-1)) (Num (-1)) (Num 1) (Num 1) (Num 1)
      (Num (-0.9)) (Num (-0.9)) (Num (-0.8)) (Num 0.55) (Num 0.85) (Num 0.85)
      None in
  let st :=
    RollingVWAP.mkStats (Some 100) (Some 97.6) (Some (-2.4)) (Some (-2.4))
      (Some RollingVWAP.below) 1 1 (Some 0%Z) 12
      (RollingVWAP.mkHistoryBlock 4 (Some pc) []) in
  let pos := mkPosition (Some long) 2 [Some Long1; Some Long2] in
  (RollingVWAP.stats (RollingVWAP.s_deviationHistory st) = Some pc /\
   RollingVWAP.s_deviationPercent st = Some (-2.4)) /\
  evaluateExit st (Some pos) new
  = (Normal (mkSignal (Some close) None None (Some stop_loss) StopLossAbsoluteLong),
     with_waiting (Some long) new).
Proof.
  intros pc st pos.
  assert (H1 : RollingVWAP.stats (RollingVWAP.s_deviationHistory st) = Some pc)
    by reflexivity.
  assert (H2 : RollingVWAP.s_deviationPercent st = Some (-2.4)) by reflexivity.
  split; [tauto|].
  destruct (exit_decision_table new st pc pos (-2.4) H1 H2)
    as (sig & s' & E & _ & _ & Hl & _ & Hs & _).
  rewrite E.
  assert (Es : sig = mkSignal (Some close) None None (Some stop_loss)
                       StopLossAbsoluteLong).
  { apply Hl. split; [|split; [reflexivity|]].
    - apply Qle_not_lt. unfold Qle. simpl. lia.
    - unfold Qle. simpl. lia. }
  rewrite (Hs ltac:(rewrite Es; reflexivity)). rewrite Es. reflexivity.
Defined.


(** *** The price levels of [calculateStrategyLevels] *)

(** The price [vwap * (1 + T / 100)] of a deviation threshold [T] grows
    with [T]. *)
Lemma level_price_le (w a b : Q) :
  0 < w -> a <= b -> w * (1 + a / 100) <= w * (1 + b / 100).
Proof.
  intros Hw Hab. apply Qmult_le_l; [exact Hw|].
  assert (Ea : a / 100 == a * (1 # 100)) by field.
  assert (Eb : b / 100 == b * (1 # 100)) by field.
  rewrite Ea, Eb. lra.
Qed.

Lemma level_price_lt (w a b : Q) :
  0 < w -> a < b -> w * (1 + a / 100) < w * (1 + b / 100).
Proof.
  intros Hw Hab. apply Qmult_lt_l; [exact Hw|].
  assert (Ea : a / 100 == a * (1 # 100)) by field.
  assert (Eb : b / 100 == b * (1 # 100)) by field.
  rewrite Ea, Eb. lra.
Qed.

(** X14. [calculateStrategyLevels] on the snapshot of an aggregator
    returns [null] exactly when the VWAP is falsy or the deviation history
    is empty.  When the VWAP is positive and the history is not empty, the
    prices it returns (default parameters) are ordered
    [long2 <= long1 < takeProfit.priceBelow < vwap < takeProfit.priceAbove
     < short1 <= short2], with [longStop < takeProfit.priceBelow] and
    [takeProfit.priceAbove < shortStop]; the Short1 threshold is at least
    0.6 and the Long1 threshold at most -0.75. *)
Theorem strategy_levels_ordered (v : RollingVWAP.t) (cp : option Q)
  (flag : option Side) :
  let st := RollingVWAP.getStats v in
  let s := with_waiting flag new in
  (calculateStrategyLevels st cp s = None
   <-> truthyQ (RollingVWAP.currentVWAP v) = false \/
       RollingVWAP.deviationHistory v = []) /\
  forall w : Q,
    RollingVWAP.currentVWAP v = Some w -> 0 < w ->
    RollingVWAP.deviationHistory v <> [] ->
    exists lv : StrategyLevels,
      calculateStrategyLevels st cp s = Some lv /\
      lv_vwap lv = w /\ lv_currentPrice lv = cp /\
      el_price (long2 lv) <= el_price (long1 lv) /\
      el_price (long1 lv) < tp_priceBelow (takeProfit lv) /\
      tp_priceBelow (takeProfit lv) < w /\
      w < tp_priceAbove (takeProfit lv) /\
      tp_priceAbove (takeProfit lv) < el_price (short1 lv) /\
      el_price (short1 lv) <= el_price (short2 lv) /\
      st_price (longStop lv) < tp_priceBelow (takeProfit lv) /\
      tp_priceAbove (takeProfit lv) < st_price (shortStop lv) /\
      0.6 <= el_deviation (short1 lv) /\ el_deviation (long1 lv) <= -0.75.
Proof.
  intros st s. split.
  { unfold calculateStrategyLevels, st. cbn [RollingVWAP.getStats RollingVWAP.s_vwap
      RollingVWAP.s_deviationHistory RollingVWAP.stats].
    unfold RollingVWAP.getDeviationStats.
    destruct (RollingVWAP.currentVWAP v) as [w|];
      destruct (RollingVWAP.deviationHistory v) as [|d0 rest];
      try (split; [intros _; auto | reflexivity]).
    destruct (truthyQ (Some w)); cbn [negb].
    - split; [discriminate|]. intros [H|H]; discriminate.
    - split; [intros _; left; reflexivity | reflexivity]. }
  intros w Hw Hpos Hne.
  destruct (RollingVWAP.getDeviationStats v) as [pc|] eqn:Epc.
  2:{ unfold RollingVWAP.getDeviationStats in Epc.
      destruct (RollingVWAP.deviationHistory v); [congruence | discriminate]. }
  destruct (RollingVWAPFacts.percent_percentiles_ordered v pc Epc) as [H510 H9095].
  assert (Ht : truthyQ (Some w) = true).
  { apply truthyQ_Some. exists w. split; [reflexivity|].
    intros E. rewrite E in Hpos. apply (Qlt_irrefl 0 Hpos). }
  unfold calculateStrategyLevels, st.
  cbn [RollingVWAP.getStats RollingVWAP.s_vwap RollingVWAP.s_deviationHistory
       RollingVWAP.stats].
  rewrite Epc, Hw, Ht. cbn [negb]. cbv zeta.
  eexists. split; [reflexivity|].
  cbn [lv_vwap lv_currentPrice long1 long2 short1 short2 longStop shortStop
       takeProfit el_price el_deviation st_price tp_priceBelow tp_priceAbove].
  change (SHORT1_THRESHOLD_PERCENT s) with 0.6.
  change (SHORT2_THRESHOLD_PERCENT s) with 0.75.
  change (LONG1_THRESHOLD_PERCENT s) with (-0.75).
  change (LONG2_THRESHOLD_PERCENT s) with (-0.9).
  change (TAKE_PROFIT_THRESHOLD s) with 0.1.
  change (SHORT_STOP_LOSS_ABSOLUTE s) with 2.25.
  change (LONG_STOP_LOSS_ABSOLUTE s) with (-2.4).
  set (p5 := orZero (RollingVWAP.percentile5Percent pc)) in *.
  set (p10 := orZero (RollingVWAP.percentile10Percent pc)) in *.
  set (p90 := orZero (RollingVWAP.percentile90Percent pc)) in *.
  set (p95 := orZero (RollingVWAP.percentile95Percent pc)) in *.
  pose proof (Q.le_max_r p90 0.6) as M1.
  pose proof (Q.le_min_r p10 (-0.75)) as M2.
  assert (M3 : Qmax p90 0.6 <= Qmax p95 0.75).
  { apply Q.max_le_compat; [exact H9095 | unfold Qle; simpl; lia]. }
  assert (M4 : Qmin p5 (-0.9) <= Qmin p10 (-0.75)).
  { apply Q.min_le_compat; [exact H510 | unfold Qle; simpl; lia]. }
  assert (Eb : w * (1 - 0.1 / 100) == w * (1 + (-0.1) / 100)) by field.
  assert (E0 : w == w * (1 + 0 / 100)) by field.
  split; [reflexivity|]. split; [reflexivity|].
  split; [apply level_price_le; assumption|].
  split; [rewrite Eb; apply level_price_lt; [assumption | lra]|].
  split.
  { rewrite Eb. apply (Qlt_le_trans _ (w * (1 + 0 / 100)));
      [apply level_price_lt; [assumption | lra] | rewrite <- E0; apply Qle_refl]. }
  split.
  { apply (Qle_lt_trans _ (w * (1 + 0 / 100)));
      [rewrite <- E0; apply Qle_refl | apply level_price_lt; [assumption | lra]]. }
  split; [apply level_price_lt; [assumption | lra]|].
  split; [apply level_price_le; assumption|].
  split; [rewrite Eb; apply level_price_lt; [assumption | lra]|].
  split; [apply level_price_lt; [assumption | lra]|].
  split; assumption.
Qed.

(** Witness of X14: a VWAP of 100 over a history of four snapshots. *)
Lemma strategy_levels_ordered_witness :
  let h := [RollingVWAP.mkSnapshot 1 99.3 100 (-0.7) (-0.7);
            RollingVWAP.mkSnapshot 2 99.1 100 (-0.9) (-0.9);
            RollingVWAP.mkSnapshot 3 100.85 100 0.85 0.85;
            RollingVWAP.mkSnapshot 4 99.25 100 (-0.75) (-0.75)] in
  let v :=
    RollingVWAP.with_deviationHistory h
      (RollingVWAP.with_currentVWAP (Some 100) (RollingVWAP.new 12 72)) in
  (RollingVWAP.currentVWAP v = Some 100 /\ 0 < 100 /\
   RollingVWAP.deviationHistory v <> []) /\
  exists lv : StrategyLevels,
    calculateStrategyLevels (RollingVWAP.getStats v) (Some 100.2) new = Some lv /\
    el_price (short1 lv) == 100.85 /\ el_price (long1 lv) == 99.1.
Proof.
  intros h v.
  assert (H1 : RollingVWAP.currentVWAP v = Some 100) by reflexivity.
  assert (H2 : 0 < 100) by reflexivity.
  assert (H3 : RollingVWAP.deviationHistory v <> []) by discriminate.
  split; [tauto|].
  destruct (proj2 (strategy_levels_ordered v (Some 100.2) None) 100 H1 H2 H3)
    as (lv & E & _).
  exists lv. split; [exact E|].
  vm_compute in E. injection E as <-. split; reflexivity.
Defined.


(** X15. The deviation thresholds that [calculateStrategyLevels] displays
    are the thresholds at which [evaluateEntry] fires.  For any
    parameters, with the reentry flag clear, a snapshot with a VWAP that
    is not [0], statistics and a deviation [d] that is a number: Short1
    is entered exactly when [d >= short1.deviation]; Long1 exactly when
    that fails and [d <= long1.deviation]; a one-contract short position
    at Short1 is added to exactly when [d >= short2.deviation], a
    one-contract long position at Long1 exactly when
    [d <= long2.deviation].  Each displayed deviation is the [max] (for a
    short level) or [min] (for a long level) of the percentile and the
    absolute threshold displayed beside it, and each displayed price is
    [vwap * (1 + deviation / 100)]. *)
Theorem entry_triggers_match_levels (s : t) (st : RollingVWAP.Stats)
  (cp : option Q) (pc : RollingVWAP.DeviationStats) (w d : Q) :
  waitingForNeutralReentry s = None ->
  RollingVWAP.s_vwap st = Some w -> ~ w == 0 ->
  RollingVWAP.stats (RollingVWAP.s_deviationHistory st) = Some pc ->
  RollingVWAP.s_deviationPercent st = Some d ->
  exists lv : StrategyLevels,
    calculateStrategyLevels st cp s = Some lv /\
    (fst (evaluateEntry st None s)
     = Normal (mkSignal (Some enter) (Some short) (Some Short1) None Short1Condition)
     <-> el_deviation (short1 lv) <= d) /\
    (fst (evaluateEntry st None s)
     = Normal (mkSignal (Some enter) (Some long) (Some Long1) None Long1Condition)
     <-> ~ el_deviation (short1 lv) <= d /\ d <= el_deviation (long1 lv)) /\
    (forall pos : Position,
        p_type pos = Some short -> totalContractCount pos = 1%Z ->
        includes Short1 (entryLevels pos) = true ->
        (fst (evaluateEntry st (Some pos) s)
         = Normal (mkSignal (Some add) (Some short) (Some Short2) None Short2Condition)
         <-> el_deviation (short2 lv) <= d)) /\
    (forall pos : Position,
        p_type pos = Some long -> totalContractCount pos = 1%Z ->
        includes Long1 (entryLevels pos) = true ->
        (fst (evaluateEntry st (Some pos) s)
         = Normal (mkSignal (Some add) (Some long) (Some Long2) None Long2Condition)
         <-> d <= el_deviation (long2 lv))) /\
    el_deviation (short1 lv) = Qmax (el_percentile (short1 lv)) (el_absolute (short1 lv)) /\
    el_deviation (short2 lv) = Qmax (el_percentile (short2 lv)) (el_absolute (short2 lv)) /\
    el_deviation (long1 lv) = Qmin (el_percentile (long1 lv)) (el_absolute (long1 lv)) /\
    el_deviation (long2 lv) = Qmin (el_percentile (long2 lv)) (el_absolute (long2 lv)) /\
    el_price (short1 lv) = lv_vwap lv * (1 + el_deviation (short1 lv) / 100) /\
    el_price (short2 lv) = lv_vwap lv * (1 + el_deviation (short2 lv) / 100) /\
    el_price (long1 lv) = lv_vwap lv * (1 + el_deviation (long1 lv) / 100) /\
    el_price (long2 lv) = lv_vwap lv * (1 + el_deviation (long2 lv) / 100).
Proof.
  intros Hflag Hw Hw0 Hpc Hd.
  assert (Ht : truthyQ (Some w) = true).
  { apply truthyQ_Some. exists w. split; [reflexivity | exact Hw0]. }
  unfold calculateStrategyLevels. rewrite Hw, Hpc, Ht. cbn [negb]. cbv zeta.
  eexists. split; [reflexivity|].
  cbn [lv_vwap long1 long2 short1 short2 el_price el_deviation el_percentile
       el_absolute].
  unfold evaluateEntry. rewrite Hflag. unfold evaluateEntryNormal. rewrite Hpc, Hd.
  set (T1 := Qmax _ (SHORT1_THRESHOLD_PERCENT s)).
  set (T2 := Qmax _ (SHORT2_THRESHOLD_PERCENT s)).
  set (U1 := Qmin _ (LONG1_THRESHOLD_PERCENT s)).
  set (U2 := Qmin _ (LONG2_THRESHOLD_PERCENT s)).
  split; [|split; [|split; [|split; [|repeat split; reflexivity]]]].
  - destruct (geq (Some d) T1) eqn:Es; cbn [fst returning toFixed].
    + apply geq_iff in Es. cbn [toNumber] in Es. tauto.
    + apply geq_false_iff in Es. cbn [toNumber] in Es.
      destruct (leq (Some d) U1); cbn [returning toFixed];
        (split; [discriminate | tauto]).
  - destruct (geq (Some d) T1) eqn:Es; cbn [fst returning toFixed].
    + apply geq_iff in Es. cbn [toNumber] in Es.
      split; [discriminate | tauto].
    + apply geq_false_iff in Es. cbn [toNumber] in Es.
      destruct (leq (Some d) U1) eqn:El; cbn [returning toFixed].
      * apply leq_iff in El. cbn [toNumber] in El. tauto.
      * apply leq_false_iff in El. cbn [toNumber] in El.
        split; [discriminate | tauto].
  - intros pos Hty Hc Hi. rewrite Hty, Hc, Hi. cbn [Z.eqb Pos.eqb andb fst].
    destruct (geq (Some d) T2) eqn:Es; cbn [returning toFixed].
    + apply geq_iff in Es. cbn [toNumber] in Es. tauto.
    + apply geq_false_iff in Es. cbn [toNumber] in Es.
      split; [discriminate | tauto].
  - intros pos Hty Hc Hi. rewrite Hty, Hc, Hi. cbn [Z.eqb Pos.eqb andb fst].
    destruct (leq (Some d) U2) eqn:Es; cbn [returning toFixed].
    + apply leq_iff in Es. cbn [toNumber] in Es. tauto.
    + apply leq_false_iff in Es. cbn [toNumber] in Es.
      split; [discriminate | tauto].
Qed.

(** Witness of X15: at a VWAP of 100 with [p90 = 0.85], a deviation of
    0.9% reaches the Short1 threshold displayed, 0.85. *)
Lemma entry_triggers_match_levels_witness :
  let pc :=
    RollingVWAP.mkDeviationStats 4 (-1) 1 (-0.9) 0.85 0 0
      (Num (-1)) (Num (-1)) (Num (-1)) (Num 1) (Num 1) (Num 1)
      (Num (-0.9)) (Num (-0.9)) (Num (-0.8)) (Num 0.85) (Num 0.85) (Num 0.85)
      None in
  let st :=
    RollingVWAP.mkStats (Some 100) (Some 100.9) (Some 0.9) (Some 0.9)
      (Some RollingVWAP.above) 1 1 (Some 0%Z) 12
      (RollingVWAP.mkHistoryBlock 4 (Some pc) []) in
  (waitingForNeutralReentry new = None /\
   RollingVWAP.s_vwap st = Some 100 /\ ~ 100 == 0 /\
   RollingVWAP.stats (RollingVWAP.s_deviationHistory st) = Some pc /\
   RollingVWAP.s_deviationPercent st = Some 0.9) /\
  exists lv : StrategyLevels,
    calculateStrategyLevels st (Some 100.9) new = Some lv /\
    el_deviation (short1 lv) == 0.85 /\
    fst (evaluateEntry st None new)
    = Normal (mkSignal (Some enter) (Some short) (Some Short1) None Short1Condition).
Proof.
  intros pc st.
  assert (H1 : waitingForNeutralReentry new = None) by reflexivity.
  assert (H2 : RollingVWAP.s_vwap st = Some 100) by reflexivity.
  assert (H3 : ~ 100 == 0) by discriminate.
  assert (H4 : RollingVWAP.stats (RollingVWAP.s_deviationHistory st) = Some pc)
    by reflexivity.
  assert (H5 : RollingVWAP.s_deviationPercent st = Some 0.9) by reflexivity.
  split; [tauto|].
  destruct (entry_triggers_match_levels new st (Some 100.9) pc 100 0.9 H1 H2 H3 H4 H5)
    as (lv & E & Hs & _).
  exists lv. split; [exact E|].
  assert (E85 : el_deviation (short1 lv) == 0.85).
  { vm_compute in E. injection E as <-. reflexivity. }
  split; [exact E85|].
  apply Hs. rewrite E85. unfold Qle. simpl. lia.
Defined.

(** X16. The deviation thresholds that [calculateStrategyLevels] displays
    for the exits are the thresholds at which [evaluateExit] fires.  For
    any parameters and any state of the flag, on a snapshot with a VWAP
    that is not [0], statistics and a deviation [d] that is a number: a
    position is closed for take profit exactly when
    [|d| < takeProfit.deviation]; otherwise a short position is stopped
    out exactly when [d >= shortStop.deviation] and a long position
    exactly when [d <= longStop.deviation].  Each displayed price is
    [vwap * (1 + deviation / 100)], the lower take-profit price
    [vwap * (1 - deviation / 100)]. *)
Theorem exit_triggers_match_levels (s : t) (st : RollingVWAP.Stats)
  (cp : option Q) (pc : RollingVWAP.DeviationStats) (w d : Q) :
  RollingVWAP.s_vwap st = Some w -> ~ w == 0 ->
  RollingVWAP.stats (RollingVWAP.s_deviationHistory st) = Some pc ->
  RollingVWAP.s_deviationPercent st = Some d ->
  exists lv : StrategyLevels,
    calculateStrategyLevels st cp s = Some lv /\
    (forall pos : Position,
        (fst (evaluateExit st (Some pos) s)
         = Normal (mkSignal (Some close) None None (Some take_profit) TakeProfit)
         <-> Qabs d < tp_deviation (takeProfit lv)) /\
        (p_type pos = Some short ->
         (fst (evaluateExit st (Some pos) s)
          = Normal (mkSignal (Some close) None None (Some stop_loss)
                      StopLossAbsoluteShort)
          <-> ~ Qabs d < tp_deviation (takeProfit lv) /\
              st_deviation (shortStop lv) <= d)) /\
        (p_type pos = Some long ->
         (fst (evaluateExit st (Some pos) s)
          = Normal (mkSignal (Some close) None None (Some stop_loss)
                      StopLossAbsoluteLong)
          <-> ~ Qabs d < tp_deviation (takeProfit lv) /\
              d <= st_deviation (longStop lv)))) /\
    tp_priceAbove (takeProfit lv)
    = lv_vwap lv * (1 + tp_deviation (takeProfit lv) / 100) /\
    tp_priceBelow (takeProfit lv)
    = lv_vwap lv * (1 - tp_deviation (takeProfit lv) / 100) /\
    st_price (shortStop lv) = lv_vwap lv * (1 + st_deviation (shortStop lv) / 100) /\
    st_price (longStop lv) = lv_vwap lv * (1 + st_deviation (longStop lv) / 100).
Proof.
  intros Hw Hw0 Hpc Hd.
  assert (Ht : truthyQ (Some w) = true).
  { apply truthyQ_Some. exists w. split; [reflexivity | exact Hw0]. }
  unfold calculateStrategyLevels. rewrite Hw, Hpc, Ht. cbn [negb]. cbv zeta.
  eexists. split; [reflexivity|].
  cbn [lv_vwap longStop shortStop takeProfit st_price st_deviation tp_priceBelow
       tp_priceAbove tp_deviation].
  split; [|repeat split; reflexivity].
  intros pos. unfold evaluateExit. rewrite Hpc, Hd. cbn [toNumber].
  destruct (Qltb (Qabs d) (TAKE_PROFIT_THRESHOLD s)) eqn:Etp.
  { apply Qltb_iff in Etp. cbn [fst].
    split; [tauto|]. split; intros _; (split; [discriminate | tauto]). }
  apply Qltb_false_iff in Etp.
  assert (Hn : ~ Qabs d < TAKE_PROFIT_THRESHOLD s) by (apply Qle_not_lt; exact Etp).
  split.
  { destruct (p_type pos) as [[|]|];
      [destruct (leq _ _) | destruct (geq _ _) |]; cbn [fst returning toFixed];
      (split; [discriminate | tauto]). }
  split; intros Hty; rewrite Hty.
  - destruct (geq (Some d) (SHORT_STOP_LOSS_ABSOLUTE s)) eqn:Es;
      cbn [fst returning toFixed].
    + apply geq_iff in Es. cbn [toNumber] in Es. tauto.
    + apply geq_false_iff in Es. cbn [toNumber] in Es.
      split; [discriminate | tauto].
  - destruct (leq (Some d) (LONG_STOP_LOSS_ABSOLUTE s)) eqn:Es;
      cbn [fst returning toFixed].
    + apply leq_iff in Es. cbn [toNumber] in Es. tauto.
    + apply leq_false_iff in Es. cbn [toNumber] in Es.
      split; [discriminate | tauto].
Qed.

(** Witness of X16: at a VWAP of 100 a short position is stopped out at a
    deviation of 2.25%, the stop displayed. *)
Lemma exit_triggers_match_levels_witness :
  let pc :=
    RollingVWAP.mkDeviationStats 4 (-1) 1 (-0.9) 0.85 0 0
      (Num (-1)) (Num (-1)) (Num (-1)) (Num 1) (Num 1) (Num 1)
      (Num (-0.9)) (Num (-0.9)) (Num (-0.8)) (Num 0.85) (Num 0.85) (Num 0.85)
      None in
  let st :=
    RollingVWAP.mkStats (Some 100) (Some 102.25) (Some 2.25) (Some 2.25)
      (Some RollingVWAP.above) 1 1 (Some 0%Z) 12
      (RollingVWAP.mkHistoryBlock 4 (Some pc) []) in
  let pos := mkPosition (Some short) 1 [Some Short1] in
  (RollingVWAP.s_vwap st = Some 100 /\ ~ 100 == 0 /\
   RollingVWAP.stats (RollingVWAP.s_deviationHistory st) = Some pc /\
   RollingVWAP.s_deviationPercent st = Some 2.25) /\
  exists lv : StrategyLevels,
    calculateStrategyLevels st (Some 102.25) new = Some lv /\
    st_deviation (shortStop lv) == 2.25 /\
    fst (evaluateExit st (Some pos) new)
    = Normal (mkSignal (Some close) None None (Some stop_loss) StopLossAbsoluteShort).
Proof.
  intros pc st pos.
  assert (H2 : RollingVWAP.s_vwap st = Some 100) by reflexivity.
  assert (H3 : ~ 100 == 0) by discriminate.
  assert (H4 : RollingVWAP.stats (RollingVWAP.s_deviationHistory st) = Some pc)
    by reflexivity.
  assert (H5 : RollingVWAP.s_deviationPercent st = Some 2.25) by reflexivity.
  split; [tauto|].
  destruct (exit_triggers_match_levels new st (Some 102.25) pc 100 2.25 H2 H3 H4 H5)
    as (lv & E & Hs & _).
  exists lv. split; [exact E|].
  assert (Ed : st_deviation (shortStop lv) == 2.25 /\
               tp_deviation (takeProfit lv) == 0.1).
  { vm_compute in E. injection E as <-. split; reflexivity. }
  destruct Ed as [E1 E2].
  split; [exact E1|].
  apply (proj1 (proj2 (Hs pos)) eq_refl). rewrite E1, E2. split.
  - apply Qle_not_lt. unfold Qle. simpl. lia.
  - unfold Qle. simpl. lia.
Defined.

End StrategyFacts.

(** ** The ledger *)

Module PaperTradingFacts.
Import Js JsFacts Strategy PaperTrading.

(** *** Insufficient funds *)

(** C7. A long entry or add whose cost, notional plus fee at the fill
    price with slippage, exceeds the cash balance returns the
    insufficient-funds failure with the required and the available
    amounts, and the ledger after the call is the ledger before it: cash
    balance, position, trade history, realized P&L and the arrays of the
    position are all unchanged. *)
Theorem insufficient_funds_no_change (l : t) (signal : Signal) (currentPrice : Q)
  (currentDeviation : option Q) (nowMs : Z) :
  type signal = Some long ->
  let executionPrice := currentPrice * (1 + SLIPPAGE l) in
  let orderValue := (inject_Z 1 * CONTRACT_SIZE l) * executionPrice in
  let fee := orderValue * TRADING_FEE l in
  let totalCost := orderValue + fee in
  cashBalance l < totalCost ->
  enterPosition signal currentPrice currentDeviation nowMs l
  = (EnterFailure InsufficientFunds totalCost (cashBalance l), l).
Proof.
  intros Hty executionPrice orderValue fee totalCost Hcash.
  unfold enterPosition. rewrite Hty. simpl isLong. cbv iota.
  fold executionPrice. fold orderValue. fold fee. fold totalCost.
  apply Qltb_iff in Hcash. rewrite Hcash. reflexivity.
Qed.

(** Witness of C7: a long entry at 90000 on a ledger holding 100. *)
Lemma insufficient_funds_no_change_witness :
  let signal := mkSignal (Some enter) (Some long) (Some Long1) None Long1Condition in
  type signal = Some long /\
  cashBalance (new 100)
  < (inject_Z 1 * 0.01) * (90000 * (1 + 0.0005))
    + (inject_Z 1 * 0.01) * (90000 * (1 + 0.0005)) * 0.00065 /\
  enterPosition signal 90000 (Some (-0.8)) 0 (new 100)
  = (EnterFailure InsufficientFunds
       ((inject_Z 1 * 0.01) * (90000 * (1 + 0.0005))
        + (inject_Z 1 * 0.01) * (90000 * (1 + 0.0005)) * 0.00065)
       100,
     new 100).
Proof.
  intros signal.
  assert (H1 : type signal = Some long) by reflexivity.
  assert (H2 : cashBalance (new 100)
               < (inject_Z 1 * 0.01) * (90000 * (1 + 0.0005))
                 + (inject_Z 1 * 0.01) * (90000 * (1 + 0.0005)) * 0.00065)
    by reflexivity.
  split; [exact H1|]. split; [exact H2|].
  exact (insufficient_funds_no_change (new 100) signal 90000 (Some (-0.8)) 0 H1 H2).
Defined.

(** *** The trade history *)

(** C8 as stated fails on the insufficient-funds branch, which returns
    before the record is built: the call below appends nothing. *)
Lemma failed_entry_appends_nothing :
  let signal := mkSignal (Some enter) (Some long) (Some Long1) None Long1Condition in
  let l := new 100 in
  let '(r, l') := enterPosition signal 90000 (Some (-0.8)) 0 l in
  (exists required available, r = EnterFailure InsufficientFunds required available) /\
  tradeHistory l' = tradeHistory l /\
  length (tradeHistory l') = 0%nat.
Proof.
  simpl. split; [|split; reflexivity].
  eexists. eexists. reflexivity.
Qed.

(** C8 (amended).  A call of [enterPosition] that succeeds, on the
    new-position branch or on the add branch, appends to the trade
    history exactly one record, made of the signal, the entry and the
    position of the result, and keeps the earlier records in place; a call
    that fails for insufficient funds leaves the ledger, hence the trade
    history, as it was. *)
Theorem enterPosition_history (l : t) (signal : Signal) (currentPrice : Q)
  (currentDeviation : option Q) (nowMs : Z) :
  match enterPosition signal currentPrice currentDeviation nowMs l with
  | (EnterSuccess position entry, l') =>
      tradeHistory l' = tradeHistory l ++ [EnterLog signal entry position nowMs] /\
      currentPosition l' = Some position
  | (EnterFailure error required available, l') =>
      l' = l /\ error = InsufficientFunds /\ type signal = Some long /\
      available = cashBalance l /\ available < required
  end.
Proof.
  unfold enterPosition.
  destruct (isLong (type signal)) eqn:El; simpl andb.
  - destruct (Qltb (cashBalance l) _) eqn:Ec.
    + apply Qltb_iff in Ec.
      repeat split; try assumption.
      unfold isLong in El. destruct (type signal) as [[|]|]; congruence.
    + destruct (currentPosition l); simpl; split; reflexivity.
  - destruct (currentPosition l); simpl; split; reflexivity.
Qed.

(** The copy of the position kept in a record shares the two arrays of
    the live position: after an entry and an add, the first record still
    says one contract, but the [entries] array read through it has
    two. *)
Example record_shares_position_arrays :
  let s1 := mkSignal (Some enter) (Some short) (Some Short1) None Short1Condition in
  let s2 := mkSignal (Some add) (Some short) (Some Short2) None Short2Condition in
  let l1 := snd (enterPosition s1 90000 (Some 0.7) 1 (new 10000)) in
  let l2 := snd (enterPosition s2 90500 (Some 0.9) 2 l1) in
  exists first second : TradeLog,
    tradeHistory l1 = [first] /\
    tradeHistory l2 = [first; second] /\
    totalContractCount (logPosition first) = 1%Z /\
    length (logEntries l1 first) = 1%nat /\
    length (logEntries l2 first) = 2%nat.
Proof.
  simpl. eexists. eexists. repeat split.
Qed.

(** *** The P&L of a round trip *)

(** C6. On a ledger with the default contract size, fee and slippage, no
    open position and enough cash, a long entry of one contract at 90000
    followed by a close at 91000 both succeed, and the close realizes
    [0.01 * (91000 * 0.9995 - 90000 * 1.0005) - entryFee - exitFee] with
    [entryFee = 0.01 * 90000 * 1.0005 * 0.00065] and
    [exitFee = 0.01 * 91000 * 0.9995 * 0.00065], that is 7.91850325
    (numbers being exact); the fills are 90045 and 90954.5. *)
Theorem long_round_trip_pnl (l : t) (signal exitSignal : Signal)
  (dev1 dev2 : option Q) (now1 now2 : Z) :
  CONTRACT_SIZE l = 0.01 -> TRADING_FEE l = 0.00065 -> SLIPPAGE l = 0.0005 ->
  currentPosition l = None ->
  type signal = Some long ->
  901.0352925 <= cashBalance l ->
  let entryFee := 0.01 * 90000 * 1.0005 * 0.00065 in
  let exitFee := 0.01 * 91000 * 0.9995 * 0.00065 in
  let expected := 0.01 * ((91000 * 0.9995) - (90000 * 1.0005)) - entryFee - exitFee in
  exists (position closed : Position) (entry : Entry) (exit : Exit) (l1 l2 : t)
         (realizedPnL : Q),
    enterPosition signal 90000 dev1 now1 l = (EnterSuccess position entry, l1) /\
    closePosition exitSignal 91000 dev2 now2 l1
    = (CloseSuccess closed exit realizedPnL, l2) /\
    entryPrice entry == 90045 /\ fee entry == entryFee /\
    exitPrice exit == 90954.5 /\ PaperTrading.exitFee exit == exitFee /\
    realizedPnL == expected /\ netPnL exit == expected /\ expected == 7.91850325 /\
    totalRealizedPnL l2 == totalRealizedPnL l + expected /\
    currentPosition l2 = None.
Proof.
  intros Hcs Hfee Hslip Hpos Hty Hcash entryFee exitFee expected.
  unfold enterPosition. rewrite Hcs, Hfee, Hslip, Hpos, Hty. simpl isLong. cbv iota.
  assert (Ec : Qltb (cashBalance l)
                 (inject_Z 1 * 0.01 * (90000 * (1 + 0.0005))
                  + inject_Z 1 * 0.01 * (90000 * (1 + 0.0005)) * 0.00065) = false).
  { apply Qltb_false_iff.
    assert (E : inject_Z 1 * 0.01 * (90000 * (1 + 0.0005))
                + inject_Z 1 * 0.01 * (90000 * (1 + 0.0005)) * 0.00065
                == 901.0352925) by reflexivity.
    rewrite E. exact Hcash. }
  rewrite Ec. simpl andb. cbv iota.
  do 7 eexists.
  split; [reflexivity|].
  unfold closePosition. simpl currentPosition. cbv iota. simpl p_type. simpl isLong.
  cbv iota. simpl CONTRACT_SIZE. simpl TRADING_FEE. simpl SLIPPAGE.
  rewrite Hfee, Hslip.
  split; [reflexivity|].
  simpl.
  repeat split; reflexivity.
Qed.

(** Witness of C6: the ledger as constructed with a balance of 10000. *)
Lemma long_round_trip_pnl_witness :
  let signal := mkSignal (Some enter) (Some long) (Some Long1) None Long1Condition in
  let exitSignal := mkSignal (Some close) None None (Some take_profit) TakeProfit in
  (901.0352925 <= cashBalance (new 10000)) /\
  exists (closed : Position) (exit : Exit) (l2 : t) (realizedPnL : Q),
    closePosition exitSignal 91000 (Some 0.05) 2
      (snd (enterPosition signal 90000 (Some (-0.8)) 1 (new 10000)))
    = (CloseSuccess closed exit realizedPnL, l2) /\
    realizedPnL == 7.91850325.
Proof.
  intros signal exitSignal.
  assert (Hcash : 901.0352925 <= cashBalance (new 10000))
    by (unfold Qle; simpl; lia).
  split; [exact Hcash|].
  destruct (long_round_trip_pnl (new 10000) signal exitSignal (Some (-0.8)) (Some 0.05)
              1 2 eq_refl eq_refl eq_refl eq_refl eq_refl Hcash)
    as (position & closed & entry & exit & l1 & l2 & pnl & E1 & E2 & _ & _ & _ & _
        & Hp & _ & Hv & _).
  exists closed, exit, l2, pnl.
  rewrite E1. simpl snd. split; [exact E2|].
  rewrite Hp. exact Hv.
Defined.


(** *** The store of the position arrays *)

Lemma store_length (hp : list PositionArrays) (r : nat) (a : PositionArrays) :
  length (store hp r a) = length hp.
Proof.
  unfold store. revert r. induction hp as [|y hp IH]; intros r; destruct r; simpl; auto.
Qed.

Lemma deref_store_same (hp : list PositionArrays) (r : nat) (a : PositionArrays) :
  (r < length hp)%nat -> deref (store hp r a) r = a.
Proof.
  unfold deref, store. revert r.
  induction hp as [|y hp IH]; intros r H; simpl in H; [lia|].
  destruct r; simpl; [reflexivity|]. apply IH. lia.
Qed.

Lemma deref_app_new (hp : list PositionArrays) (a : PositionArrays) :
  deref (hp ++ [a]) (length hp) = a.
Proof.
  unfold deref. rewrite app_nth2 by lia. rewrite Nat.sub_diag. reflexivity.
Qed.

(** *** Sums over appended lists *)

Lemma sumValue_app (es : list Entry) (e : Entry) :
  sumValue (es ++ [e]) = sumValue es + entryPrice e * sizeInBTC e.
Proof. unfold sumValue. rewrite fold_left_app. reflexivity. Qed.

Lemma sumFees_app (es : list Entry) (e : Entry) :
  sumFees (es ++ [e]) = sumFees es + fee e.
Proof. unfold sumFees. rewrite fold_left_app. reflexivity. Qed.

Lemma sumNetPnL_app (h : list TradeLog) (tl : TradeLog) :
  sumNetPnL (h ++ [tl]) = sumNetPnL h + logNetPnL tl.
Proof. unfold sumNetPnL. rewrite fold_left_app. reflexivity. Qed.

Lemma shortCredit_app (h : list TradeLog) (tl : TradeLog) :
  shortCredit (h ++ [tl]) = shortCredit h + shortExitValue tl.
Proof. unfold shortCredit. rewrite fold_left_app. reflexivity. Qed.

Lemma lengthQ_app1 {A : Type} (l : list A) (x : A) :
  RollingVWAP.lengthQ (l ++ [x]) == RollingVWAP.lengthQ l + 1.
Proof.
  unfold RollingVWAP.lengthQ. rewrite length_app. simpl length.
  rewrite Nat.add_1_r. rewrite Nat2Z.inj_succ. unfold Z.succ.
  rewrite inject_Z_plus. reflexivity.
Qed.

Lemma lengthQ_nonneg {A : Type} (l : list A) : 0 <= RollingVWAP.lengthQ l.
Proof.
  unfold RollingVWAP.lengthQ. change 0 with (inject_Z 0). rewrite <- Zle_Qle. lia.
Qed.

(** *** The ledger operations keep the parameters *)

Lemma applyOp_parameters (o : Op) (l : t) :
  initialBalance (applyOp o l) = initialBalance l /\
  CONTRACT_SIZE (applyOp o l) = CONTRACT_SIZE l /\
  TRADING_FEE (applyOp o l) = TRADING_FEE l /\
  SLIPPAGE (applyOp o l) = SLIPPAGE l.
Proof.
  destruct o as [sig c dev now | sig c dev now |]; simpl.
  - unfold enterPosition. destruct (_ && _); [tauto|].
    destruct (currentPosition l); simpl; tauto.
  - unfold closePosition. destruct (currentPosition l); simpl; tauto.
  - tauto.
Qed.

Lemma applyAll_parameters (ops : list Op) :
  forall l : t,
    initialBalance (applyAll ops l) = initialBalance l /\
    CONTRACT_SIZE (applyAll ops l) = CONTRACT_SIZE l.
Proof.
  unfold applyAll. induction ops as [|o ops IH]; intros l; simpl; [tauto|].
  destruct (IH (applyOp o l)) as [H1 H2].
  destruct (applyOp_parameters o l) as (P1 & P2 & _).
  rewrite H1, H2, P1, P2. tauto.
Qed.

(** *** The aggregates of the position *)

Lemma enterPosition_sound (sig : Signal) (c : Q) (dev : option Q) (now : Z) (l : t) :
  0 < CONTRACT_SIZE l -> soundPosition l ->
  soundPosition (snd (enterPosition sig c dev now l)).
Proof.
  intros Hcs Hs. unfold enterPosition.
  destruct (_ && _); [exact Hs|].
  unfold soundPosition in *.
  destruct (currentPosition l) as [p|] eqn:Ep; cbn [snd with_state currentPosition heap
    CONTRACT_SIZE arrays totalContractCount totalSizeInBTC avgEntryPrice totalEntryFees].
  - destruct Hs as (Hr & Hne & Hc & Hl & Hsz & Hav & Hf).
    set (a := deref (heap l) (arrays p)) in *.
    rewrite store_length, (deref_store_same _ _ _ Hr).
    cbn [entries entryLevels].
    assert (Hpos : 0 < totalSizeInBTC p + inject_Z 1 * CONTRACT_SIZE l).
    { rewrite Hsz. pose proof (lengthQ_nonneg (entries a)).
      change (inject_Z 1) with 1. nra. }
    split; [exact Hr|]. split; [destruct (entries a); discriminate|].
    split; [rewrite length_app; simpl length; lia|].
    split; [rewrite map_app, Hl; reflexivity|].
    split; [rewrite lengthQ_app1, Hsz; change (inject_Z 1) with 1; ring|].
    split.
    + fold (sumValue (entries a ++
        [{| e_level := level sig; contractCount := 1;
            sizeInBTC := inject_Z 1 * CONTRACT_SIZE l;
            entryPrice :=
              c * (if isLong (type sig) then 1 + SLIPPAGE l else 1 - SLIPPAGE l);
            entryDeviation := dev; entryTime := now;
            fee :=
              inject_Z 1 * CONTRACT_SIZE l
              * (c * (if isLong (type sig) then 1 + SLIPPAGE l else 1 - SLIPPAGE l))
              * TRADING_FEE l |}])).
      rewrite Qmult_comm. apply Qmult_div_r.
      intros E. rewrite E in Hpos. apply (Qlt_irrefl 0 Hpos).
    + rewrite sumFees_app, Hf. reflexivity.
  - rewrite deref_app_new. cbn [entries entryLevels].
    split; [rewrite length_app; simpl; lia|].
    split; [discriminate|]. split; [reflexivity|]. split; [reflexivity|].
    split; [reflexivity|].
    split; [unfold sumValue; simpl; ring | unfold sumFees; simpl; ring].
Qed.

Lemma applyOp_sound (o : Op) (l : t) :
  0 < CONTRACT_SIZE l -> soundPosition l -> soundPosition (applyOp o l).
Proof.
  intros Hcs Hs. destruct o as [sig c dev now | sig c dev now |]; simpl.
  - apply enterPosition_sound; assumption.
  - unfold closePosition. destruct (currentPosition l) eqn:E; [exact I | exact Hs].
  - exact I.
Qed.

Lemma applyAll_sound (ops : list Op) :
  forall l : t,
    0 < CONTRACT_SIZE l -> soundPosition l -> soundPosition (applyAll ops l).
Proof.
  unfold applyAll. induction ops as [|o ops IH]; intros l Hcs Hs; simpl; [exact Hs|].
  apply IH.
  - destruct (applyOp_parameters o l) as (_ & P & _). rewrite P. exact Hcs.
  - apply applyOp_sound; assumption.
Qed.

(** X17. Through any sequence of entries, closes and resets on a ledger
    as constructed, the aggregates of the open position agree with its
    [entries] array: [totalContractCount] is the number of entries,
    [entryLevels] lists their levels in order, [totalSizeInBTC] is that
    number times the contract size, [avgEntryPrice] is the mean of the
    entry prices weighted by size, and [totalEntryFees] is the sum of the
    entry fees. *)
Theorem position_aggregates (balance : Q) (ops : list Op) :
  let l := applyAll ops (new balance) in
  forall p : Position,
    currentPosition l = Some p ->
    let a := deref (heap l) (arrays p) in
    entries a <> [] /\
    totalContractCount p = Z.of_nat (length (entries a)) /\
    entryLevels a = map e_level (entries a) /\
    totalSizeInBTC p == RollingVWAP.lengthQ (entries a) * 0.01 /\
    avgEntryPrice p * totalSizeInBTC p == sumValue (entries a) /\
    avgEntryPrice p == sumValue (entries a) / totalSizeInBTC p /\
    totalEntryFees p == sumFees (entries a).
Proof.
  intros l p Hp a.
  assert (Hs : soundPosition l).
  { apply applyAll_sound; [reflexivity | exact I]. }
  assert (Hcs : CONTRACT_SIZE l = 0.01).
  { apply (proj2 (applyAll_parameters ops (new balance))). }
  unfold soundPosition in Hs. rewrite Hp in Hs. fold a in Hs. rewrite Hcs in Hs.
  destruct Hs as (_ & Hne & Hc & Hl & Hsz & Hav & Hf).
  split; [exact Hne|]. split; [exact Hc|]. split; [exact Hl|].
  split; [exact Hsz|]. split; [exact Hav|]. split; [|exact Hf].
  assert (Hpos : 0 < totalSizeInBTC p).
  { rewrite Hsz. assert (1 <= RollingVWAP.lengthQ (entries a)).
    { unfold RollingVWAP.lengthQ. change 1 with (inject_Z 1). rewrite <- Zle_Qle.
      destruct (entries a); [congruence | simpl length; lia]. }
    lra. }
  rewrite <- Hav. field. intros E. rewrite E in Hpos. apply (Qlt_irrefl 0 Hpos).
Qed.


(** Witness of X17: a short entry at 90000 and the add at 90500. *)
Lemma position_aggregates_witness :
  let s1 := mkSignal (Some enter) (Some short) (Some Short1) None Short1Condition in
  let s2 := mkSignal (Some add) (Some short) (Some Short2) None Short2Condition in
  let ops := [OpEnter s1 90000 (Some 0.7) 1; OpEnter s2 90500 (Some 0.9) 2] in
  let l := applyAll ops (new 10000) in
  exists p : Position,
    currentPosition l = Some p /\
    totalContractCount p = 2%Z /\
    entryLevels (deref (heap l) (arrays p)) = [Some Short1; Some Short2] /\
    avgEntryPrice p * totalSizeInBTC p
    == 90000 * (1 - 0.0005) * 0.01 + 90500 * (1 - 0.0005) * 0.01.
Proof.
  intros s1 s2 ops l.
  destruct (currentPosition l) as [p|] eqn:Ep; [|vm_compute in Ep; discriminate Ep].
  exists p. split; [reflexivity|].
  destruct (position_aggregates 10000 ops p Ep) as (_ & Hc & Hl & _ & Hav & _).
  fold l in Hc, Hl, Hav.
  assert (Ea : entries (deref (heap l) (arrays p))
               = [mkEntry (Some Short1) 1 (inject_Z 1 * 0.01) (90000 * (1 - 0.0005))
                    (Some 0.7) 1
                    (inject_Z 1 * 0.01 * (90000 * (1 - 0.0005)) * 0.00065);
                  mkEntry (Some Short2) 1 (inject_Z 1 * 0.01) (90500 * (1 - 0.0005))
                    (Some 0.9) 2
                    (inject_Z 1 * 0.01 * (90500 * (1 - 0.0005)) * 0.00065)]).
  { assert (Ep' : currentPosition l = Some p) by exact Ep.
    vm_compute in Ep'. injection Ep' as <-. reflexivity. }
  rewrite Ea in Hc, Hl, Hav.
  split; [exact Hc|]. split; [exact Hl|].
  rewrite Hav. unfold sumValue. simpl. ring.
Defined.

(** *** The cash balance *)

Lemma enterPosition_balanced (sig : Signal) (c : Q) (dev : option Q) (now : Z) (l : t) :
  0 < CONTRACT_SIZE l -> soundPosition l -> balanced l ->
  sameDirection (OpEnter sig c dev now) l = true ->
  balanced (snd (enterPosition sig c dev now l)).
Proof.
  intros Hcs Hs Hb Hd.
  pose proof (enterPosition_sound sig c dev now l Hcs Hs) as Hs'.
  revert Hs'. unfold enterPosition.
  destruct (_ && _); [intros _; exact Hb|].
  unfold balanced, openCost, soundPosition, sameDirection in *.
  destruct (currentPosition l) as [p|] eqn:Ep;
    cbn [snd with_state currentPosition heap cashBalance initialBalance
         totalRealizedPnL tradeHistory CONTRACT_SIZE arrays p_type totalContractCount
         totalSizeInBTC avgEntryPrice totalEntryFees];
    rewrite shortCredit_app; cbn [shortExitValue].
  - destruct Hs as (Hr & _ & _ & _ & _ & Hav & _).
    rewrite (deref_store_same _ _ _ Hr). cbn [entries].
    intros (_ & _ & _ & _ & _ & Hav' & _).
    rewrite sumValue_app in Hav'. cbn [entryPrice sizeInBTC] in Hav'.
    rewrite <- Hav in Hav'.
    apply eqb_prop in Hd. rewrite Hd in *.
    destruct (isLong (p_type p)); [rewrite Hav'|]; rewrite Hb; ring.
  - intros _. destruct (isLong (type sig)); rewrite Hb; ring.
Qed.

Lemma closePosition_balanced (sig : Signal) (c : Q) (dev : option Q) (now : Z) (l : t) :
  balanced l -> balanced (snd (closePosition sig c dev now l)).
Proof.
  intros Hb. unfold closePosition.
  destruct (currentPosition l) as [p|] eqn:Ep; [|exact Hb].
  unfold balanced, openCost in *. rewrite Ep in Hb.
  cbn [snd with_state currentPosition cashBalance initialBalance totalRealizedPnL
       tradeHistory].
  rewrite shortCredit_app. cbn [shortExitValue x_sizeInBTC exitPrice].
  destruct (isLong (p_type p)); rewrite Hb; ring.
Qed.



Lemma new_balanced (b : Q) : balanced (new b).
Proof. unfold balanced, openCost, shortCredit. simpl. ring. Qed.



(** *** Closing realizes the unrealized P&L *)




(** *** The performance summary *)

Lemma winners_and_losers (h : list TradeLog) :
  (length (filter (fun t => Qltb 0 (logNetPnL t)) h)
   + length (filter (fun t => Qle_bool (logNetPnL t) 0) h))%nat = length h.
Proof.
  induction h as [|tl h IH]; simpl; [reflexivity|].
  unfold Qltb at 1. destruct (Qle_bool (logNetPnL tl) 0); simpl; lia.
Qed.

Lemma filter_length_le {A : Type} (f : A -> bool) (l : list A) :
  (length (filter f l) <= length l)%nat.
Proof.
  induction l as [|x l IH]; simpl; [lia|]. destruct (f x); simpl; lia.
Qed.

Lemma applyOp_realized (o : Op) (l : t) :
  totalRealizedPnL l == sumNetPnL (tradeHistory l) ->
  totalRealizedPnL (applyOp o l) == sumNetPnL (tradeHistory (applyOp o l)).
Proof.
  intros H. destruct o as [sig c dev now | sig c dev now |]; simpl.
  - unfold enterPosition. destruct (_ && _); [exact H|].
    destruct (currentPosition l); simpl; rewrite sumNetPnL_app, H; simpl; ring.
  - unfold closePosition. destruct (currentPosition l); [|exact H].
    simpl. rewrite sumNetPnL_app, H. reflexivity.
  - reflexivity.
Qed.

Lemma applyAll_realized (ops : list Op) :
  forall l : t,
    totalRealizedPnL l == sumNetPnL (tradeHistory l) ->
    totalRealizedPnL (applyAll ops l) == sumNetPnL (tradeHistory (applyAll ops l)).
Proof.
  unfold applyAll. induction ops as [|o ops IH]; intros l H; simpl; [exact H|].
  apply IH. apply applyOp_realized. exact H.
Qed.

(** X20. In the summary of [getPerformance], on any ledger, every closed
    trade is counted once, as winning or as losing
    ([totalTrades = winningTrades + losingTrades]), closed trades are
    records of the history, and [winRate] lies between 0 and 100, being 0
    without closed trades.  On a ledger reached from the constructor by
    entries, closes and resets, [totalRealizedPnL] is the sum of the net
    P&L of the exit records of the history, and [totalReturn] is that sum
    in percent of the initial balance. *)
Theorem performance_summary (balance : Q) (ops : list Op) :
  (forall l : t,
      let pf := getPerformance l in
      totalTrades pf = (winningTrades pf + losingTrades pf)%nat /\
      (totalTrades pf <= length (tradeHistory l))%nat /\
      0 <= winRate pf /\ winRate pf <= 100 /\
      (totalTrades pf = 0%nat -> winRate pf = 0)) /\
  let l := applyAll ops (new balance) in
  pf_totalRealizedPnL (getPerformance l) == sumNetPnL (tradeHistory l) /\
  currentCashBalance (getPerformance l) = cashBalance l /\
  (~ balance == 0 ->
   exists r : Q,
     totalReturn (getPerformance l) = Some r /\
     r == (sumNetPnL (tradeHistory l) / balance) * 100).
Proof.
  split.
  { intros l pf. unfold pf, getPerformance.
    cbn [totalTrades winningTrades losingTrades winRate].
    set (closed := filter isExit (tradeHistory l)).
    pose proof (winners_and_losers closed) as Hwl.
    set (win := filter (fun t0 => Qltb 0 (logNetPnL t0)) closed) in *.
    split; [lia|]. split; [apply filter_length_le|].
    destruct (Nat.ltb_spec 0 (length closed)) as [Hc|Hc].
    - assert (Hcq : 0 < RollingVWAP.lengthQ closed).
      { unfold RollingVWAP.lengthQ. change 0 with (inject_Z 0).
        rewrite <- Zlt_Qlt. lia. }
      assert (Hwq : RollingVWAP.lengthQ win <= RollingVWAP.lengthQ closed).
      { unfold RollingVWAP.lengthQ. rewrite <- Zle_Qle. lia. }
      pose proof (lengthQ_nonneg win) as Hw0.
      assert (L : 0 <= RollingVWAP.lengthQ win / RollingVWAP.lengthQ closed).
      { apply Qle_shift_div_l; [exact Hcq|]. lra. }
      assert (U : RollingVWAP.lengthQ win / RollingVWAP.lengthQ closed <= 1).
      { apply Qle_shift_div_r; [exact Hcq|]. lra. }
      split; [lra|]. split; [lra|]. intros E. lia.
    - split; [apply Qle_refl|]. split; [unfold Qle; simpl; lia|]. reflexivity. }
  intros l.
  assert (Hr : totalRealizedPnL l == sumNetPnL (tradeHistory l)).
  { apply applyAll_realized. reflexivity. }
  pose proof (proj1 (applyAll_parameters ops (new balance))) as Ei. fold l in Ei.
  change (initialBalance (new balance)) with balance in Ei.
  unfold getPerformance. cbn [pf_totalRealizedPnL currentCashBalance totalReturn].
  split; [exact Hr|]. split; [reflexivity|].
  intros Hb. rewrite Ei.
  destruct (Qeq_bool balance 0) eqn:E.
  - apply Qeq_bool_iff in E. contradiction.
  - eexists. split; [reflexivity|]. rewrite Hr. reflexivity.
Qed.

(** Witness of X20: after a long round trip that wins 7.91850325 on a
    balance of 10000. *)
Lemma performance_summary_witness :
  let s1 := mkSignal (Some enter) (Some long) (Some Long1) None Long1Condition in
  let x := mkSignal (Some close) None None (Some take_profit) TakeProfit in
  let ops := [OpEnter s1 90000 (Some (-0.8)) 1; OpClose x 91000 (Some 0.05) 2] in
  let l := applyAll ops (new 10000) in
  ~ 10000 == 0 /\
  totalTrades (getPerformance l) = 1%nat /\
  winningTrades (getPerformance l) = 1%nat /\
  exists r : Q,
    totalReturn (getPerformance l) = Some r /\ r == 0.0791850325.
Proof.
  intros s1 x ops l.
  assert (Hb : ~ 10000 == 0) by discriminate.
  split; [exact Hb|].
  destruct (proj2 (performance_summary 10000 ops)) as (_ & _ & Hr).
  destruct (Hr Hb) as (r & Er & Hv).
  split; [reflexivity|]. split; [reflexivity|].
  exists r. split; [exact Er|]. rewrite Hv. vm_compute. reflexivity.
Defined.

(** *** The total equity *)




(** *** What a call appends and what it does to the position *)

Lemma enterPosition_effect (sig : Signal) (c : Q) (dev : option Q) (now : Z) (l : t) :
  let l' := snd (enterPosition sig c dev now l) in
  l' = l \/
  exists (p' : Position) (tl : TradeLog),
    currentPosition l' = Some p' /\
    tradeHistory l' = tradeHistory l ++ [tl] /\
    match currentPosition l with
    | None =>
        p_type p' = type sig /\
        entryLevels (deref (heap l') (arrays p')) = [level sig]
    | Some p =>
        p_type p' = p_type p /\
        ((arrays p < length (heap l))%nat ->
         entryLevels (deref (heap l') (arrays p'))
         = entryLevels (deref (heap l) (arrays p)) ++ [level sig])
    end.
Proof.
  unfold enterPosition. destruct (_ && _); [left; reflexivity|]. right.
  destruct (currentPosition l) as [p|];
    cbn [snd with_state currentPosition tradeHistory heap];
    eexists; eexists; (split; [reflexivity|]); (split; [reflexivity|]);
    cbn [p_type arrays]; (split; [reflexivity|]).
  - intros Hr. rewrite (deref_store_same _ _ _ Hr). reflexivity.
  - rewrite deref_app_new. reflexivity.
Qed.

Lemma closePosition_effect (sig : Signal) (c : Q) (dev : option Q) (now : Z) (l : t) :
  let l' := snd (closePosition sig c dev now l) in
  currentPosition l' = None /\
  match currentPosition l with
  | None => l' = l
  | Some _ => exists tl : TradeLog, tradeHistory l' = tradeHistory l ++ [tl]
  end.
Proof.
  unfold closePosition. destruct (currentPosition l) eqn:E; simpl.
  - split; [reflexivity|]. eexists. reflexivity.
  - split; [exact E | reflexivity].
Qed.

End PaperTradingFacts.

(** ** The pipeline: strategy and ledger behind the update handler *)

Module ServerFacts.
Import Js JsFacts Server.

Lemma length_setAt {A : Type} (i : nat) (x : A) (l : list A) :
  length (RollingVWAP.setAt i x l) = length l.
Proof.
  revert i. induction l as [|y l IH]; intros i; destruct i; simpl; auto.
Qed.

Lemma nth_setAt_same {A : Type} (i : nat) (x d : A) (l : list A) :
  (i < length l)%nat -> nth i (RollingVWAP.setAt i x l) d = x.
Proof.
  revert i. induction l as [|y l IH]; intros i H; simpl in H; [lia|].
  destruct i; simpl; [reflexivity|]. apply IH. lia.
Qed.

(** *** What the strategy asks for, and when *)

Lemma evaluateEntryNormal_enter (st : RollingVWAP.Stats)
  (cp : option Strategy.Position) (s : Strategy.t) (sig : Strategy.Signal) :
  Strategy.evaluateEntryNormal st cp s = Normal sig ->
  Strategy.action sig = Some Strategy.enter -> cp = None.
Proof.
  unfold Strategy.evaluateEntryNormal, Strategy.returning.
  destruct (RollingVWAP.stats _); [|intros E; injection E as <-; discriminate].
  destruct cp as [pos|]; [|reflexivity].
  intros E Ha. exfalso.
  destruct (Strategy.p_type pos) as [[|]|];
    repeat match type of E with
           | context [if ?b then _ else _] => destruct b
           | context [toFixed ?x] => destruct (toFixed x)
           end;
    try discriminate; injection E as <-; discriminate.
Qed.

Lemma evaluateEntryNormal_add (st : RollingVWAP.Stats)
  (cp : option Strategy.Position) (s : Strategy.t) (sig : Strategy.Signal) :
  Strategy.evaluateEntryNormal st cp s = Normal sig ->
  Strategy.action sig = Some Strategy.add ->
  exists pos : Strategy.Position,
    cp = Some pos /\ Strategy.totalContractCount pos = 1%Z.
Proof.
  unfold Strategy.evaluateEntryNormal, Strategy.returning.
  destruct (RollingVWAP.stats _); [|intros E; injection E as <-; discriminate].
  destruct cp as [pos|].
  - intros E Ha. exists pos. split; [reflexivity|].
    destruct (Strategy.totalContractCount pos =? 1)%Z eqn:Ec;
      [apply Z.eqb_eq; assumption|].
    exfalso. simpl in E.
    destruct (Strategy.p_type pos) as [[|]|]; injection E as <-; discriminate.
  - intros E Ha. exfalso.
    repeat match type of E with
           | context [if ?b then _ else _] => destruct b
           | context [toFixed ?x] => destruct (toFixed x)
           end;
      try discriminate; injection E as <-; discriminate.
Qed.

Lemma evaluateEntry_normal_cases (st : RollingVWAP.Stats)
  (cp : option Strategy.Position) (s : Strategy.t) (sig : Strategy.Signal)
  (s' : Strategy.t) :
  Strategy.evaluateEntry st cp s = (Normal sig, s') ->
  sig = Strategy.blocked \/ Strategy.evaluateEntryNormal st cp s' = Normal sig.
Proof.
  unfold Strategy.evaluateEntry, Strategy.returning.
  destruct (Strategy.waitingForNeutralReentry s).
  - destruct (_ && _).
    + destruct (toFixed _); intros E; [|discriminate].
      injection E as E1 E2. subst s'. right. assumption.
    + destruct (toFixed _); intros E; [|discriminate].
      injection E as E1 E2. left. symmetry. exact E1.
  - intros E. injection E as E1 E2. subst s'. right. assumption.
Qed.

(** *** The ledger operations keep the invariant *)

Lemma closePosition_invariant (sig : Strategy.Signal) (price : Q)
  (dev : option Q) (nowMs : Z) (l : PaperTrading.t) :
  positionInvariant l ->
  positionInvariant (snd (PaperTrading.closePosition sig price dev nowMs l)).
Proof.
  unfold PaperTrading.closePosition. intros H.
  destruct (PaperTrading.currentPosition l) eqn:E; simpl; [exact I | assumption].
Qed.

Lemma enterPosition_invariant (sig : Strategy.Signal) (price : Q)
  (dev : option Q) (nowMs : Z) (l : PaperTrading.t) :
  positionInvariant l ->
  (forall p, PaperTrading.currentPosition l = Some p ->
             PaperTrading.totalContractCount p = 1%Z) ->
  positionInvariant (snd (PaperTrading.enterPosition sig price dev nowMs l)).
Proof.
  intros Hinv Hone. unfold PaperTrading.enterPosition.
  destruct (_ && _); [assumption|].
  unfold positionInvariant in *.
  destruct (PaperTrading.currentPosition l) as [p|] eqn:E; simpl.
  - destruct Hinv as (Hr & Hlen & _). specialize (Hone p eq_refl).
    unfold PaperTrading.store, PaperTrading.deref.
    rewrite length_setAt. split; [assumption|].
    rewrite nth_setAt_same by assumption. simpl.
    rewrite length_app. simpl.
    unfold PaperTrading.deref in Hlen. lia.
  - unfold PaperTrading.deref. rewrite length_app. simpl.
    split; [lia|].
    rewrite app_nth2 by lia. rewrite Nat.sub_diag. simpl. lia.
Qed.

Lemma checkExit_invariant (stats : RollingVWAP.Stats) (nowMs : Z) (st : t) :
  positionInvariant (paperTrading st) ->
  positionInvariant (paperTrading (snd (checkExit stats nowMs st))).
Proof.
  intros H. unfold checkExit, PaperTrading.getPosition.
  destruct (PaperTrading.currentPosition (paperTrading st)) as [p|] eqn:E;
    [|assumption].
  destruct (Strategy.evaluateExit _ _ _) as [[sig|] s']; simpl; [|assumption].
  destruct (actionIs Strategy.close sig); simpl; [|assumption].
  pose proof (closePosition_invariant sig
                (toNumber (RollingVWAP.s_currentPrice stats))
                (RollingVWAP.s_deviationPercent stats) nowMs (paperTrading st) H) as Hc.
  destruct (PaperTrading.closePosition _ _ _ _ _) as [r l']. exact Hc.
Qed.

Lemma actionIs_enter (sig : Strategy.Signal) :
  actionIs Strategy.enter sig = true -> Strategy.action sig = Some Strategy.enter.
Proof.
  unfold actionIs. destruct (Strategy.action sig) as [[| | |]|]; congruence.
Qed.

Lemma actionIs_add (sig : Strategy.Signal) :
  actionIs Strategy.add sig = true -> Strategy.action sig = Some Strategy.add.
Proof.
  unfold actionIs. destruct (Strategy.action sig) as [[| | |]|]; congruence.
Qed.

Lemma checkEntry_invariant (stats : RollingVWAP.Stats) (nowMs : Z) (st : t) :
  positionInvariant (paperTrading st) ->
  positionInvariant (paperTrading (snd (checkEntry stats nowMs st))).
Proof.
  intros H. unfold checkEntry, PaperTrading.getPosition.
  destruct (Strategy.evaluateEntry _ _ _) as [[sig|] s'] eqn:Ee; simpl; [|assumption].
  destruct (actionIs Strategy.enter sig || actionIs Strategy.add sig) eqn:Ea;
    simpl; [|assumption].
  assert (Hone : forall p,
             PaperTrading.currentPosition (paperTrading st) = Some p ->
             PaperTrading.totalContractCount p = 1%Z).
  { intros p Ep. rewrite Ep in Ee. simpl in Ee.
    apply evaluateEntry_normal_cases in Ee.
    destruct Ee as [-> | En]; [discriminate Ea|].
    apply orb_true_iff in Ea. destruct Ea as [Ha | Ha].
    - apply actionIs_enter in Ha.
      pose proof (evaluateEntryNormal_enter _ _ _ _ En Ha). discriminate.
    - apply actionIs_add in Ha.
      destruct (evaluateEntryNormal_add _ _ _ _ En Ha) as (pos & Epos & Hc).
      injection Epos as <-. exact Hc. }
  pose proof (enterPosition_invariant sig
                (toNumber (RollingVWAP.s_currentPrice stats))
                (RollingVWAP.s_deviationPercent stats) nowMs (paperTrading st) H Hone)
    as Hc.
  destruct (PaperTrading.enterPosition _ _ _ _ _) as [r l']. exact Hc.
Qed.

Lemma step_invariant (e : Event) (st : t) :
  positionInvariant (paperTrading st) ->
  positionInvariant (paperTrading (step e st)).
Proof.
  intros H. destruct e as [stats nowMs | | stats nowMs | stats nowMs]; simpl.
  - unfold onUpdate. destruct (algorithmRunning st); [|assumption].
    pose proof (checkExit_invariant stats nowMs st H) as H1.
    destruct (checkExit stats nowMs st) as [[u|] st1]; simpl in *; [|assumption].
    apply checkEntry_invariant. assumption.
  - assumption.
  - unfold PaperTrading.getPosition.
    destruct (PaperTrading.currentPosition (paperTrading st)) eqn:E; [|assumption].
    apply closePosition_invariant. assumption.
  - unfold PaperTrading.getPosition.
    destruct (PaperTrading.currentPosition (paperTrading st)) eqn:E; [|assumption].
    apply closePosition_invariant. assumption.
Qed.

Lemma run_invariant (es : list Event) :
  forall st : t,
    positionInvariant (paperTrading st) ->
    positionInvariant (paperTrading (run es st)).
Proof.
  unfold run. induction es as [|e es IH]; simpl; intros st H; [assumption|].
  apply IH. apply step_invariant. assumption.
Qed.

(** C9. In every state reached from the initial one by update events and
    by the start, stop and restart requests, a position of the ledger has
    a [totalContractCount] equal to the number of its entries, and that
    number is at most 2 (and at least 1). *)
Theorem position_count_bounded (es : list Event) :
  match PaperTrading.currentPosition (paperTrading (run es init)) with
  | None => True
  | Some p =>
      PaperTrading.totalContractCount p
      = Z.of_nat
          (length
             (PaperTrading.entries
                (PaperTrading.deref (PaperTrading.heap (paperTrading (run es init)))
                   (PaperTrading.arrays p)))) /\
      (PaperTrading.totalContractCount p <= 2)%Z /\
      (1 <= PaperTrading.totalContractCount p)%Z
  end.
Proof.
  pose proof (run_invariant es init I) as H. unfold positionInvariant in H.
  destruct (PaperTrading.currentPosition (paperTrading (run es init)));
    [|exact I].
  destruct H as (_ & H1 & H2). split; [exact H1 | lia].
Qed.

(** The bound is reached, and kept: a first short entry at 0.7%, the add
    at 0.9%, and a further rise to 1.2% that adds nothing; then the stop at
    2.3% closes the two contracts and sets the reentry flag. *)
Example position_count_reaches_two :
  let pc :=
    RollingVWAP.mkDeviationStats 4 (-1) 1 (-0.9) 0.85 0 0
      (Num (-1)) (Num (-1)) (Num (-1)) (Num 1) (Num 1) (Num 1)
      (Num (-0.9)) (Num (-0.9)) (Num (-0.75)) (Num 0.55) (Num 0.85) (Num 0.85)
      None in
  let at_ (dev : Q) :=
    RollingVWAP.mkStats (Some 90000) (Some (90000 + 900 * dev)) (Some (900 * dev))
      (Some dev) (Some RollingVWAP.above) 1 1 (Some 0%Z) 12
      (RollingVWAP.mkHistoryBlock 4 (Some pc) []) in
  let show (st : t) :=
    (Strategy.waitingForNeutralReentry (strategy st),
     option_map
       (fun p =>
          (PaperTrading.totalContractCount p,
           length (PaperTrading.entries
                     (PaperTrading.deref (PaperTrading.heap (paperTrading st))
                        (PaperTrading.arrays p)))))
       (PaperTrading.currentPosition (paperTrading st)),
     length (PaperTrading.tradeHistory (paperTrading st))) in
  let demo := [Start; Update (at_ 0.7) 1; Update (at_ 0.9) 2; Update (at_ 1.2) 3] in
  show (run (firstn 2 demo) init) = (None, Some (1%Z, 1%nat), 1%nat) /\
  show (run demo init) = (None, Some (2%Z, 2%nat), 2%nat) /\
  show (run (demo ++ [Update (at_ 2.3) 4]) init)
  = (Some Strategy.short, None, 3%nat).
Proof. vm_compute. repeat split. Qed.


(** *** The states the server reaches *)

(** [evaluateExit] with the default parameters: no close, a take profit
    within 0.1% of the VWAP, or a stop loss at a deviation outside the
    neutral band, which sets the flag. *)
Lemma evaluateExit_default_cases (w : option Strategy.Side) (st : RollingVWAP.Stats)
  (pos : Strategy.Position) :
  let s := Strategy.with_waiting w Strategy.new in
  (exists sig : Strategy.Signal,
      Strategy.evaluateExit st (Some pos) s = (Normal sig, s) /\
      actionIs Strategy.close sig = false) \/
  (exists sig : Strategy.Signal,
      Strategy.evaluateExit st (Some pos) s = (Normal sig, s) /\
      actionIs Strategy.close sig = true /\
      Qabs (toNumber (RollingVWAP.s_deviationPercent st)) < 0.1) \/
  (exists (sig : Strategy.Signal) (side : Strategy.Side) (d : Q),
      Strategy.evaluateExit st (Some pos) s
      = (Normal sig, Strategy.with_waiting (Some side) Strategy.new) /\
      actionIs Strategy.close sig = true /\
      RollingVWAP.s_deviationPercent st = Some d /\ (d < -0.75 \/ 0.6 < d)).
Proof.
  intros s. unfold Strategy.evaluateExit.
  destruct (RollingVWAP.stats _) as [pc|]; [|left; eexists; split; reflexivity].
  change (Strategy.TAKE_PROFIT_THRESHOLD s) with 0.1.
  change (Strategy.SHORT_STOP_LOSS_ABSOLUTE s) with 2.25.
  change (Strategy.LONG_STOP_LOSS_ABSOLUTE s) with (-2.4).
  destruct (Qltb (Qabs (toNumber (RollingVWAP.s_deviationPercent st))) 0.1) eqn:Etp.
  { right; left. eexists. split; [reflexivity|]. split; [reflexivity|].
    apply Qltb_iff. exact Etp. }
  destruct (RollingVWAP.s_deviationPercent st) as [d|];
    [|vm_compute in Etp; discriminate Etp].
  destruct (Strategy.p_type pos) as [[|]|]; [| |left; eexists; split; reflexivity].
  - destruct (Strategy.leq (Some d) (-2.4)) eqn:El;
      [|left; eexists; split; reflexivity].
    apply StrategyFacts.leq_iff in El. cbn [toNumber] in El.
    right; right. eexists. exists Strategy.long, d.
    split; [reflexivity|]. split; [reflexivity|]. split; [reflexivity|]. left. lra.
  - destruct (Strategy.geq (Some d) 2.25) eqn:El;
      [|left; eexists; split; reflexivity].
    apply StrategyFacts.geq_iff in El. cbn [toNumber] in El.
    right; right. eexists. exists Strategy.short, d.
    split; [reflexivity|]. split; [reflexivity|]. split; [reflexivity|]. right. lra.
Qed.

(** Within 0.1% of the VWAP nothing is entered. *)
Lemma evaluateEntry_near_vwap (st : RollingVWAP.Stats) :
  Qabs (toNumber (RollingVWAP.s_deviationPercent st)) < 0.1 ->
  exists sig : Strategy.Signal,
    Strategy.evaluateEntry st None Strategy.new = (Normal sig, Strategy.new) /\
    actionIs Strategy.enter sig || actionIs Strategy.add sig = false.
Proof.
  intros Habs. apply Qabs_Qlt_condition in Habs. destruct Habs as [Hlo Hhi].
  change (- 0.1) with (-0.1) in Hlo.
  unfold Strategy.evaluateEntry. cbn [Strategy.waitingForNeutralReentry Strategy.new].
  unfold Strategy.evaluateEntryNormal.
  destruct (RollingVWAP.stats _) as [pc|]; [|eexists; split; reflexivity].
  change (Strategy.SHORT1_THRESHOLD_PERCENT Strategy.new) with 0.6.
  change (Strategy.LONG1_THRESHOLD_PERCENT Strategy.new) with (-0.75).
  set (p90 := orZero (RollingVWAP.percentile90Percent pc)).
  set (p10 := orZero (RollingVWAP.percentile10Percent pc)).
  pose proof (Q.le_max_r p90 0.6) as M1.
  pose proof (Q.le_min_r p10 (-0.75)) as M2.
  assert (E1 : Strategy.geq (RollingVWAP.s_deviationPercent st) (Qmax p90 0.6) = false).
  { apply StrategyFacts.geq_false_iff. intros H. lra. }
  assert (E2 : Strategy.leq (RollingVWAP.s_deviationPercent st) (Qmin p10 (-0.75))
               = false).
  { apply StrategyFacts.leq_false_iff. intros H. lra. }
  rewrite E1, E2. eexists. split; reflexivity.
Qed.

(** [evaluateEntry] with the default parameters: the flag is kept or
    cleared, and an entry or add signal comes from the evaluation proper,
    with the flag clear. *)
Lemma evaluateEntry_default_cases (w : option Strategy.Side) (st : RollingVWAP.Stats)
  (cp : option Strategy.Position) :
  let r := Strategy.evaluateEntry st cp (Strategy.with_waiting w Strategy.new) in
  (snd r = Strategy.with_waiting w Strategy.new \/ snd r = Strategy.new) /\
  forall sig : Strategy.Signal,
    fst r = Normal sig ->
    actionIs Strategy.enter sig || actionIs Strategy.add sig = true ->
    snd r = Strategy.new /\
    Strategy.evaluateEntryNormal st cp Strategy.new = Normal sig.
Proof.
  unfold Strategy.evaluateEntry.
  destruct w as [side|]; cbn [Strategy.waitingForNeutralReentry Strategy.with_waiting].
  - destruct (_ && _).
    + destruct (toFixed _); cbn [fst snd].
      * split; [right; reflexivity|]. intros sig E _. split; [reflexivity | exact E].
      * split; [right; reflexivity|]. intros sig E. discriminate E.
    + cbn [fst snd]. split; [left; reflexivity|].
      unfold Strategy.returning. destruct (toFixed _); intros sig E; [|discriminate E].
      injection E as <-. intros Ha. discriminate Ha.
  - cbn [fst snd]. split; [left; reflexivity|].
    intros sig E _. split; [reflexivity | exact E].
Qed.

(** The entry and add signals of the evaluation proper. *)
Lemma entry_signal_shapes (st : RollingVWAP.Stats) (cp : option Strategy.Position)
  (sig : Strategy.Signal) :
  Strategy.evaluateEntryNormal st cp Strategy.new = Normal sig ->
  actionIs Strategy.enter sig || actionIs Strategy.add sig = true ->
  (cp = None /\
   ((Strategy.type sig = Some Strategy.short /\
     Strategy.level sig = Some Strategy.Short1) \/
    (Strategy.type sig = Some Strategy.long /\
     Strategy.level sig = Some Strategy.Long1))) \/
  (exists pos : Strategy.Position,
      cp = Some pos /\ Strategy.totalContractCount pos = 1%Z /\
      ((Strategy.p_type pos = Some Strategy.short /\
        Strategy.type sig = Some Strategy.short /\
        Strategy.level sig = Some Strategy.Short2) \/
       (Strategy.p_type pos = Some Strategy.long /\
        Strategy.type sig = Some Strategy.long /\
        Strategy.level sig = Some Strategy.Long2))).
Proof.
  unfold Strategy.evaluateEntryNormal, Strategy.returning.
  destruct (RollingVWAP.stats _) as [pc|];
    [|intros E; injection E as <-; discriminate].
  destruct cp as [pos|].
  - intros E Ha. right. exists pos. split; [reflexivity|].
    destruct (Z.eqb_spec (Strategy.totalContractCount pos) 1) as [Ec|Ec].
    + split; [exact Ec|].
      destruct (Strategy.p_type pos) as [[|]|]; cbn [andb] in E;
        repeat match type of E with
               | context [if ?b then _ else _] => destruct b
               | context [toFixed ?x] => destruct (toFixed x)
               end;
        try discriminate E; injection E as <-; try discriminate Ha;
        [right | left]; (split; [reflexivity | split; reflexivity]).
    + exfalso. cbn [andb] in E.
      destruct (Strategy.p_type pos) as [[|]|]; injection E as <-; discriminate Ha.
  - intros E Ha. left. split; [reflexivity|].
    repeat match type of E with
           | context [if ?b then _ else _] => destruct b
           | context [toFixed ?x] => destruct (toFixed x)
           end;
      try discriminate E; injection E as <-; try discriminate Ha;
      [left | right]; split; reflexivity.
Qed.


Lemma init_reachable : reachableInvariant init.
Proof.
  unfold reachableInvariant. split; [exists None; reflexivity|].
  split; [reflexivity|]. split; [reflexivity|]. split; [exact I|].
  split; [apply PaperTradingFacts.new_balanced|]. split; [reflexivity|].
  intros p Hp. discriminate Hp.
Qed.

(** Closing the position, whatever becomes of the flag. *)
Lemma close_reachable (w : option Strategy.Side) (sig : Strategy.Signal) (c : Q)
  (dev : option Q) (now : Z) (b : bool) (st : t) :
  reachableInvariant st ->
  reachableInvariant
    (mkServer (Strategy.with_waiting w Strategy.new)
       (snd (PaperTrading.closePosition sig c dev now (paperTrading st))) b).
Proof.
  intros (Hs & Hcs & Hib & Hsound & Hbal & Hreal & Hpos).
  unfold reachableInvariant. cbn [strategy paperTrading].
  destruct (PaperTradingFacts.applyOp_parameters
              (PaperTrading.OpClose sig c dev now) (paperTrading st))
    as (P1 & P2 & _).
  cbn [PaperTrading.applyOp] in P1, P2.
  split; [exists w; reflexivity|].
  split; [rewrite P2; exact Hcs|]. split; [rewrite P1; exact Hib|].
  split.
  { apply (PaperTradingFacts.applyOp_sound (PaperTrading.OpClose sig c dev now));
      [rewrite Hcs; reflexivity | exact Hsound]. }
  split; [apply PaperTradingFacts.closePosition_balanced; exact Hbal|].
  split.
  { apply (PaperTradingFacts.applyOp_realized (PaperTrading.OpClose sig c dev now)).
    exact Hreal. }
  intros p Hp.
  rewrite (proj1 (PaperTradingFacts.closePosition_effect sig c dev now (paperTrading st)))
    in Hp.
  discriminate Hp.
Qed.

(** Keeping the ledger, with the flag kept or cleared. *)
Lemma keep_reachable (s' : Strategy.t) (b : bool) (st : t) :
  reachableInvariant st ->
  s' = strategy st \/ s' = Strategy.new ->
  reachableInvariant (mkServer s' (paperTrading st) b).
Proof.
  intros (Hs & Hcs & Hib & Hsound & Hbal & Hreal & Hpos) Hs'.
  unfold reachableInvariant. cbn [strategy paperTrading].
  split.
  { destruct Hs' as [-> | ->]; [exact Hs | exists None; reflexivity]. }
  split; [exact Hcs|]. split; [exact Hib|]. split; [exact Hsound|].
  split; [exact Hbal|]. split; [exact Hreal|].
  intros p Hp. destruct (Hpos p Hp) as [Hf Hsh]. split; [|exact Hsh].
  destruct Hs' as [-> | ->]; [exact Hf | reflexivity].
Qed.

(** Entering on a signal of the evaluation proper. *)
Lemma enter_reachable (stats : RollingVWAP.Stats) (sig : Strategy.Signal) (c : Q)
  (dev : option Q) (now : Z) (b : bool) (st : t) :
  reachableInvariant st ->
  Strategy.evaluateEntryNormal stats
    (option_map (PaperTrading.view (paperTrading st))
       (PaperTrading.getPosition (paperTrading st))) Strategy.new = Normal sig ->
  actionIs Strategy.enter sig || actionIs Strategy.add sig = true ->
  PaperTrading.sameDirection (PaperTrading.OpEnter sig c dev now) (paperTrading st)
  = true /\
  reachableInvariant
    (mkServer Strategy.new
       (snd (PaperTrading.enterPosition sig c dev now (paperTrading st))) b).
Proof.
  intros (Hs & Hcs & Hib & Hsound & Hbal & Hreal & Hpos) En Ha.
  pose proof (entry_signal_shapes _ _ _ En Ha) as Hsh.
  set (l := paperTrading st) in *.
  unfold PaperTrading.getPosition in Hsh.
  assert (Hdir : PaperTrading.sameDirection (PaperTrading.OpEnter sig c dev now) l
                 = true).
  { unfold PaperTrading.sameDirection.
    destruct (PaperTrading.currentPosition l) as [p|] eqn:Ep; [|reflexivity].
    destruct Hsh as [[Hn _] | (pos & Epos & _ & Hcase)]; [discriminate Hn|].
    cbn [option_map] in Epos. injection Epos as <-.
    cbn [PaperTrading.view Strategy.p_type] in Hcase.
    destruct Hcase as [(Ht & Hty & _) | (Ht & Hty & _)]; rewrite Ht, Hty; reflexivity. }
  split; [exact Hdir|].
  unfold reachableInvariant. cbn [strategy paperTrading].
  destruct (PaperTradingFacts.applyOp_parameters
              (PaperTrading.OpEnter sig c dev now) l) as (P1 & P2 & _).
  cbn [PaperTrading.applyOp] in P1, P2.
  assert (Hcs0 : 0 < PaperTrading.CONTRACT_SIZE l) by (rewrite Hcs; reflexivity).
  split; [exists None; reflexivity|].
  split; [rewrite P2; exact Hcs|]. split; [rewrite P1; exact Hib|].
  split; [apply PaperTradingFacts.enterPosition_sound; assumption|].
  split; [apply PaperTradingFacts.enterPosition_balanced; assumption|].
  split.
  { apply (PaperTradingFacts.applyOp_realized (PaperTrading.OpEnter sig c dev now)).
    exact Hreal. }
  intros p' Hp'. split; [reflexivity|].
  destruct (PaperTradingFacts.enterPosition_effect sig c dev now l)
    as [E | (p'' & tl & Ep'' & _ & Hm)].
  { rewrite E in Hp' |- *. exact (proj2 (Hpos p' Hp')). }
  rewrite Ep'' in Hp'. injection Hp' as <-.
  unfold positionShape.
  destruct (PaperTrading.currentPosition l) as [p|] eqn:Ep.
  - destruct Hm as [Ht Hl].
    unfold PaperTrading.soundPosition in Hsound. rewrite Ep in Hsound.
    destruct Hsound as (Hr & _ & Hc & Hlv & _).
    specialize (Hl Hr). rewrite Hl, Ht.
    destruct (Hpos p eq_refl) as [_ Hshape]. unfold positionShape in Hshape.
    destruct Hsh as [[Hn _] | (pos & Epos & Hone & Hcase)]; [discriminate Hn|].
    cbn [option_map] in Epos. injection Epos as <-.
    cbn [PaperTrading.view Strategy.p_type Strategy.totalContractCount] in Hcase, Hone.
    assert (Hlen : length (PaperTrading.entryLevels
                             (PaperTrading.deref (PaperTrading.heap l)
                                (PaperTrading.arrays p))) = 1%nat).
    { rewrite Hlv, length_map. lia. }
    destruct Hcase as [(Hty & _ & Hlev) | (Hty & _ & Hlev)]; rewrite Hlev.
    + left. split; [exact Hty|]. right.
      destruct Hshape as [[_ [E1 | E2]] | [Hty' _]];
        [rewrite E1; reflexivity | rewrite E2 in Hlen; discriminate Hlen | congruence].
    + right. split; [exact Hty|]. right.
      destruct Hshape as [[Hty' _] | [_ [E1 | E2]]];
        [congruence | rewrite E1; reflexivity | rewrite E2 in Hlen; discriminate Hlen].
  - destruct Hm as [Ht Hl]. rewrite Hl, Ht.
    destruct Hsh as [[_ Hcase] | (pos & Epos & _)]; [|discriminate Epos].
    destruct Hcase as [[Hty Hlev] | [Hty Hlev]]; rewrite Hty, Hlev.
    + left. split; [reflexivity | left; reflexivity].
    + right. split; [reflexivity | left; reflexivity].
Qed.

Lemma checkExit_reachable (stats : RollingVWAP.Stats) (nowMs : Z) (st : t) :
  reachableInvariant st ->
  fst (checkExit stats nowMs st) = Normal tt /\
  reachableInvariant (snd (checkExit stats nowMs st)).
Proof.
  intros Inv. unfold checkExit, PaperTrading.getPosition.
  destruct (PaperTrading.currentPosition (paperTrading st)) as [p|] eqn:Ep;
    [|split; [reflexivity | exact Inv]].
  destruct Inv as (Hs & Hrest). destruct Hs as [w Hw].
  assert (Inv : reachableInvariant st) by (split; [exists w; exact Hw | exact Hrest]).
  rewrite Hw.
  destruct (evaluateExit_default_cases w stats
              (PaperTrading.view (paperTrading st) p))
    as [(sig & E & Ha) | [(sig & E & Ha & _) | (sig & side & d & E & Ha & _)]];
    rewrite E, Ha.
  - split; [reflexivity|]. apply keep_reachable; [exact Inv | left; symmetry; exact Hw].
  - destruct (PaperTrading.closePosition _ _ _ _ _) as [r l'] eqn:Ec.
    split; [reflexivity|].
    replace l' with (snd (PaperTrading.closePosition sig
                            (toNumber (RollingVWAP.s_currentPrice stats))
                            (RollingVWAP.s_deviationPercent stats) nowMs
                            (paperTrading st))) by (rewrite Ec; reflexivity).
    apply close_reachable. exact Inv.
  - destruct (PaperTrading.closePosition _ _ _ _ _) as [r l'] eqn:Ec.
    split; [reflexivity|].
    replace l' with (snd (PaperTrading.closePosition sig
                            (toNumber (RollingVWAP.s_currentPrice stats))
                            (RollingVWAP.s_deviationPercent stats) nowMs
                            (paperTrading st))) by (rewrite Ec; reflexivity).
    apply close_reachable. exact Inv.
Qed.

Lemma checkEntry_reachable (stats : RollingVWAP.Stats) (nowMs : Z) (st : t) :
  reachableInvariant st ->
  reachableInvariant (snd (checkEntry stats nowMs st)).
Proof.
  intros Inv. unfold checkEntry.
  destruct Inv as (Hs & Hrest). destruct Hs as [w Hw].
  assert (Inv : reachableInvariant st) by (split; [exists w; exact Hw | exact Hrest]).
  rewrite Hw.
  destruct (evaluateEntry_default_cases w stats
              (option_map (PaperTrading.view (paperTrading st))
                 (PaperTrading.getPosition (paperTrading st))))
    as [Hflag Hsig].
  destruct (Strategy.evaluateEntry _ _ _) as [[sig|] s'] eqn:Ee; cbn [fst snd] in *.
  - destruct (actionIs Strategy.enter sig || actionIs Strategy.add sig) eqn:Ea.
    + destruct (Hsig sig eq_refl Ea) as [-> En].
      destruct (PaperTrading.enterPosition _ _ _ _ _) as [r l'] eqn:Ec.
      cbn [snd].
      replace l' with (snd (PaperTrading.enterPosition sig
                              (toNumber (RollingVWAP.s_currentPrice stats))
                              (RollingVWAP.s_deviationPercent stats) nowMs
                              (paperTrading st))) by (rewrite Ec; reflexivity).
      apply (enter_reachable stats); assumption.
    + cbn [snd]. apply keep_reachable; [exact Inv|].
      rewrite Hw. exact Hflag.
  - cbn [snd]. apply keep_reachable; [exact Inv|]. rewrite Hw. exact Hflag.
Qed.

Lemma step_reachable (e : Event) (st : t) :
  reachableInvariant st -> reachableInvariant (step e st).
Proof.
  intros Inv. destruct e as [stats nowMs | | stats nowMs | stats nowMs]; cbn [step].
  - unfold onUpdate. destruct (algorithmRunning st); [|exact Inv].
    destruct (checkExit_reachable stats nowMs st Inv) as [Hr Hi].
    destruct (checkExit stats nowMs st) as [[u|] st1]; cbn [fst snd] in *;
      [|exact Hi].
    apply checkEntry_reachable. exact Hi.
  - apply (keep_reachable (strategy st) true st Inv). left. reflexivity.
  - unfold killSwitch, PaperTrading.getPosition.
    destruct (PaperTrading.currentPosition (paperTrading st)) eqn:E.
    + destruct Inv as (Hs & Hrest). destruct Hs as [w Hw]. rewrite Hw.
      apply close_reachable. split; [exists w; exact Hw | exact Hrest].
    + apply (keep_reachable (strategy st) false st Inv). left. reflexivity.
  - unfold killSwitch, PaperTrading.getPosition.
    destruct (PaperTrading.currentPosition (paperTrading st)) eqn:E.
    + destruct Inv as (Hs & Hrest). destruct Hs as [w Hw]. rewrite Hw.
      apply close_reachable. split; [exists w; exact Hw | exact Hrest].
    + apply (keep_reachable (strategy st) false st Inv). left. reflexivity.
Qed.

Lemma run_reachable (es : list Event) :
  forall st : t, reachableInvariant st -> reachableInvariant (run es st).
Proof.
  unfold run. induction es as [|e es IH]; simpl; intros st H; [assumption|].
  apply IH. apply step_reachable. assumption.
Qed.


(** X22. In every state the server reaches from the initial one, the
    strategy still has the parameters of its constructor, and while a
    position is open the reentry flag is clear (a stop loss, the only
    thing that sets it, closes the position in the same update).  So what
    [getStopLossLevels] reports of the flag for the position of the ledger,
    where it is hard-coded as not waiting when a position is open, agrees
    with [getReentryStatus]. *)
Theorem flag_clear_while_position_open (es : list Event) (stats : RollingVWAP.Stats) :
  let st := run es init in
  let position := PaperTrading.getPosition (paperTrading st) in
  let sl :=
    Strategy.getStopLossLevels stats
      (option_map (PaperTrading.view (paperTrading st)) position) (strategy st) in
  let rs := Strategy.getReentryStatus (strategy st) in
  (exists w : option Strategy.Side,
      strategy st = Strategy.with_waiting w Strategy.new) /\
  (position <> None -> Strategy.waitingForNeutralReentry (strategy st) = None) /\
  Strategy.sl_waitingForReentry sl = Strategy.rs_waiting rs /\
  Strategy.sl_lastStopType sl = Strategy.rs_lastStopType rs.
Proof.
  intros st position sl rs.
  destruct (run_reachable es init init_reachable) as (Hs & _ & _ & _ & _ & _ & Hpos).
  fold st in Hs, Hpos.
  split; [exact Hs|].
  unfold sl, rs, position, PaperTrading.getPosition,
    Strategy.getStopLossLevels, Strategy.getReentryStatus.
  destruct (PaperTrading.currentPosition (paperTrading st)) as [p|] eqn:Ep.
  - destruct (Hpos p eq_refl) as [Hf _].
    split; [intros _; exact Hf|].
    cbn [option_map PaperTrading.view Strategy.p_type].
    destruct (PaperTrading.p_type p) as [[|]|];
      cbn [Strategy.sl_waitingForReentry Strategy.sl_lastStopType
           Strategy.rs_waiting Strategy.rs_lastStopType];
      rewrite Hf; split; reflexivity.
  - split; [intros H; congruence|]. split; reflexivity.
Qed.

(** Witness of X22: after a start and a short entry at 0.7%. *)
Lemma flag_clear_while_position_open_witness :
  let pc :=
    RollingVWAP.mkDeviationStats 4 (-1) 1 (-0.9) 0.85 0 0
      (Num (-1)) (Num (-1)) (Num (-1)) (Num 1) (Num 1) (Num 1)
      (Num (-0.9)) (Num (-0.9)) (Num (-0.75)) (Num 0.55) (Num 0.85) (Num 0.85)
      None in
  let stats :=
    RollingVWAP.mkStats (Some 90000) (Some 90630) (Some 630) (Some 0.7)
      (Some RollingVWAP.above) 1 1 (Some 0%Z) 12
      (RollingVWAP.mkHistoryBlock 4 (Some pc) []) in
  let st := run [Start; Update stats 1] init in
  PaperTrading.getPosition (paperTrading st) <> None /\
  Strategy.waitingForNeutralReentry (strategy st) = None.
Proof.
  intros pc stats st.
  assert (H : PaperTrading.getPosition (paperTrading st) <> None)
    by (vm_compute; discriminate).
  split; [exact H|].
  exact (proj1 (proj2 (flag_clear_while_position_open [Start; Update stats 1] stats)) H).
Defined.

(** X23. In every state the server reaches, an open position has one of
    four shapes: short with the levels [Short1] (one contract) or
    [Short1, Short2] (two contracts), or long with the levels [Long1] or
    [Long1, Long2]; its entries are as many as its contracts. *)
Theorem position_shapes (es : list Event) :
  let l := paperTrading (run es init) in
  forall p : PaperTrading.Position,
    PaperTrading.currentPosition l = Some p ->
    let a := PaperTrading.deref (PaperTrading.heap l) (PaperTrading.arrays p) in
    let shape (ty : Strategy.Side) (first second : Strategy.Level) :=
      PaperTrading.p_type p = Some ty /\
      ((PaperTrading.entryLevels a = [Some first] /\
        PaperTrading.totalContractCount p = 1%Z) \/
       (PaperTrading.entryLevels a = [Some first; Some second] /\
        PaperTrading.totalContractCount p = 2%Z)) in
    (shape Strategy.short Strategy.Short1 Strategy.Short2 \/
     shape Strategy.long Strategy.Long1 Strategy.Long2) /\
    PaperTrading.entryLevels a = map PaperTrading.e_level (PaperTrading.entries a).
Proof.
  intros l p Hp a shape.
  destruct (run_reachable es init init_reachable) as (_ & _ & _ & Hs & _ & _ & Hpos).
  fold l in Hs, Hpos.
  destruct (Hpos p Hp) as [_ Hsh].
  unfold PaperTrading.soundPosition in Hs. rewrite Hp in Hs. fold a in Hs.
  destruct Hs as (_ & _ & Hc & Hl & _).
  unfold positionShape in Hsh. fold a in Hsh.
  assert (Hn : PaperTrading.totalContractCount p
               = Z.of_nat (length (PaperTrading.entryLevels a))).
  { rewrite Hl, length_map. exact Hc. }
  split; [|exact Hl]. unfold shape.
  destruct Hsh as [[Ht [E | E]] | [Ht [E | E]]]; rewrite E in Hn |- *;
    [left; split; [exact Ht|]; left | left; split; [exact Ht|]; right
     | right; split; [exact Ht|]; left | right; split; [exact Ht|]; right];
    (split; [reflexivity | exact Hn]).
Qed.

(** Witness of X23: after a start, a short entry at 0.7% and the add at
    0.9%. *)
Lemma position_shapes_witness :
  let pc :=
    RollingVWAP.mkDeviationStats 4 (-1) 1 (-0.9) 0.85 0 0
      (Num (-1)) (Num (-1)) (Num (-1)) (Num 1) (Num 1) (Num 1)
      (Num (-0.9)) (Num (-0.9)) (Num (-0.75)) (Num 0.55) (Num 0.85) (Num 0.85)
      None in
  let at_ (dev : Q) :=
    RollingVWAP.mkStats (Some 90000) (Some (90000 + 900 * dev)) (Some (900 * dev))
      (Some dev) (Some RollingVWAP.above) 1 1 (Some 0%Z) 12
      (RollingVWAP.mkHistoryBlock 4 (Some pc) []) in
  let es := [Start; Update (at_ 0.7) 1; Update (at_ 0.9) 2] in
  let l := paperTrading (run es init) in
  exists p : PaperTrading.Position,
    PaperTrading.currentPosition l = Some p /\
    PaperTrading.entryLevels
      (PaperTrading.deref (PaperTrading.heap l) (PaperTrading.arrays p))
    = map PaperTrading.e_level
        (PaperTrading.entries
           (PaperTrading.deref (PaperTrading.heap l) (PaperTrading.arrays p))).
Proof.
  intros pc at_ es l.
  destruct (PaperTrading.currentPosition l) as [p|] eqn:Ep;
    [|vm_compute in Ep; discriminate Ep].
  exists p. split; [reflexivity|].
  exact (proj2 (position_shapes es p Ep)).
Defined.



(** *** One record per event *)

Lemma checkEntry_history (stats : RollingVWAP.Stats) (nowMs : Z) (st : t) :
  exists rest : list PaperTrading.TradeLog,
    PaperTrading.tradeHistory (paperTrading (snd (checkEntry stats nowMs st)))
    = PaperTrading.tradeHistory (paperTrading st) ++ rest /\
    (length rest <= 1)%nat.
Proof.
  unfold checkEntry.
  destruct (Strategy.evaluateEntry _ _ _) as [[sig|] s'];
    [|exists []; rewrite app_nil_r; split; [reflexivity | simpl; lia]].
  destruct (actionIs Strategy.enter sig || actionIs Strategy.add sig);
    [|exists []; rewrite app_nil_r; split; [reflexivity | simpl; lia]].
  destruct (PaperTradingFacts.enterPosition_effect sig
              (toNumber (RollingVWAP.s_currentPrice stats))
              (RollingVWAP.s_deviationPercent stats) nowMs (paperTrading st))
    as [E | (p' & tl & _ & Eh & _)];
    destruct (PaperTrading.enterPosition _ _ _ _ _) as [r l']; cbn [snd] in *.
  - exists []. rewrite app_nil_r, E. split; [reflexivity | simpl; lia].
  - exists [tl]. split; [exact Eh | simpl; lia].
Qed.

(** An update that closes the position enters nothing. *)
Lemma checkExit_history (stats : RollingVWAP.Stats) (nowMs : Z) (st : t) :
  reachableInvariant st ->
  let st1 := snd (checkExit stats nowMs st) in
  paperTrading st1 = paperTrading st \/
  (exists tl : PaperTrading.TradeLog,
      PaperTrading.tradeHistory (paperTrading st1)
      = PaperTrading.tradeHistory (paperTrading st) ++ [tl]) /\
  paperTrading (snd (checkEntry stats nowMs st1)) = paperTrading st1.
Proof.
  intros Inv. unfold checkExit, PaperTrading.getPosition.
  destruct (PaperTrading.currentPosition (paperTrading st)) as [p|] eqn:Ep;
    [|left; reflexivity].
  destruct Inv as (Hs & Hrest). destruct Hs as [w Hw].
  destruct Hrest as (_ & _ & _ & _ & _ & Hpos).
  destruct (Hpos p Ep) as [Hf _]. rewrite Hw in Hf.
  cbn [Strategy.waitingForNeutralReentry Strategy.with_waiting] in Hf. subst w.
  rewrite Hw.
  destruct (evaluateExit_default_cases None stats
              (PaperTrading.view (paperTrading st) p))
    as [(sig & E & Ha) | [(sig & E & Ha & Hnear) | (sig & side & d & E & Ha & Hd & Hout)]];
    rewrite E, Ha; [left; reflexivity | |];
    pose proof (PaperTradingFacts.closePosition_effect sig
                  (toNumber (RollingVWAP.s_currentPrice stats))
                  (RollingVWAP.s_deviationPercent stats) nowMs (paperTrading st))
      as Hc;
    cbv zeta in Hc; rewrite Ep in Hc; destruct Hc as [Hnone [tl Eh]];
    destruct (PaperTrading.closePosition _ _ _ _ _) as [r l']; cbn [snd] in *;
    right; (split; [exists tl; exact Eh|]);
    unfold checkEntry, PaperTrading.getPosition; cbn [paperTrading strategy];
    rewrite Hnone; cbn [option_map].
  - destruct (evaluateEntry_near_vwap stats Hnear) as (sig' & E' & Ha').
    change (Strategy.with_waiting None Strategy.new) with Strategy.new.
    rewrite E', Ha'. reflexivity.
  - rewrite (StrategyFacts.evaluateEntry_blocked side stats None d Hd Hout).
    reflexivity.
Qed.

(** X25. An event appends at most one record to the trade history of a
    state the server has reached, and removes none: in one update the
    exit check and the entry check never both trade (after a take profit
    the deviation is within 0.1% of the VWAP, where nothing is entered;
    after a stop loss the reentry flag blocks the entry), and a stop or a
    restart closes at most the one open position. *)
Theorem one_record_per_event (es : list Event) (e : Event) :
  let st := run es init in
  exists rest : list PaperTrading.TradeLog,
    PaperTrading.tradeHistory (paperTrading (step e st))
    = PaperTrading.tradeHistory (paperTrading st) ++ rest /\
    (length rest <= 1)%nat.
Proof.
  intros st.
  pose proof (run_reachable es init init_reachable) as Inv. fold st in Inv.
  assert (Hkill : forall why stats nowMs,
             exists rest : list PaperTrading.TradeLog,
               PaperTrading.tradeHistory (paperTrading (killSwitch why stats nowMs st))
               = PaperTrading.tradeHistory (paperTrading st) ++ rest /\
               (length rest <= 1)%nat).
  { intros why stats nowMs. unfold killSwitch, PaperTrading.getPosition.
    cbn [paperTrading].
    destruct (PaperTrading.currentPosition (paperTrading st)) eqn:Ep.
    - match goal with
      | |- context [PaperTrading.closePosition ?s ?c ?d ?n ?l] =>
          pose proof (PaperTradingFacts.closePosition_effect s c d n l) as Hc
      end.
      cbv zeta in Hc. rewrite Ep in Hc. destruct Hc as [_ [tl Eh]].
      exists [tl]. split; [exact Eh | simpl; lia].
    - exists []. rewrite app_nil_r. split; [reflexivity | simpl; lia]. }
  destruct e as [stats nowMs | | stats nowMs | stats nowMs]; cbn [step].
  - unfold onUpdate.
    destruct (algorithmRunning st);
      [|exists []; rewrite app_nil_r; split; [reflexivity | simpl; lia]].
    destruct (checkExit_reachable stats nowMs st Inv) as [Hr _].
    pose proof (checkExit_history stats nowMs st Inv) as Hx. cbv zeta in Hx.
    destruct (checkExit stats nowMs st) as [[u|] st1]; cbn [fst snd] in *;
      [|discriminate Hr].
    destruct Hx as [E | [[tl Eh] Ekeep]].
    + rewrite <- E. apply checkEntry_history.
    + exists [tl]. rewrite Ekeep. split; [exact Eh | simpl; lia].
  - exists []. rewrite app_nil_r. split; [reflexivity | simpl; lia].
  - apply Hkill.
  - apply Hkill.
Qed.

End ServerFacts.

(** ** The one-shot VWAP of [calculate-vwap.js] *)

Module CalculateVWAPFacts.
Import Js JsFacts RollingVWAP RollingVWAPFacts CalculateVWAP.

Lemma calculate_fold (cs : list CandleMsg) :
  forall acc : Q * Q,
    let r :=
      fold_left
        (fun (acc : Q * Q) (candle : CandleMsg) =>
           let low := m_low candle in
           let high := m_high candle in
           let close := m_close candle in
           let volume := m_volume candle in
           let typicalPrice := (high + low + close) / 3 in
           (fst acc + typicalPrice * volume, snd acc + volume))
        cs acc in
    fst r == fst acc + sumBarPriceVolume cs /\ snd r == snd acc + sumBarVolume cs.
Proof.
  unfold sumBarPriceVolume, sumBarVolume.
  induction cs as [|c cs IH]; simpl; intros acc.
  - split; lra.
  - destruct (IH (fst acc + (m_high c + m_low c + m_close c) / 3 * m_volume c,
                  snd acc + m_volume c)) as [H1 H2].
    simpl in H1, H2. rewrite H1, H2. split; lra.
Qed.





(** Bars already in ascending order of start are left in place by the
    stable sort. *)
Lemma sortByStart_ascending (l : list CandleMsg) :
  StronglySorted (fun a b => (m_start a <= m_start b)%Z) l -> sortByStart l = l.
Proof.
  unfold sortByStart. induction 1 as [|c l Hs IH Hall]; simpl; [reflexivity|].
  rewrite IH. destruct l as [|e l']; [reflexivity|]. simpl.
  inversion Hall as [|? ? Hce _]; subst.
  apply Z.leb_le in Hce. rewrite Hce. reflexivity.
Qed.

(** The loop of [initialize] performs on the running totals the very
    additions that the loop of [calculateVWAP] performs on its two
    sums. *)
Lemma fold_addHistorical_additions (l : list CandleMsg) :
  forall v : t,
    (totalPriceVolume (fold_left addHistorical l v),
     totalVolume (fold_left addHistorical l v))
    = fold_left
        (fun (acc : Q * Q) (candle : CandleMsg) =>
           let low := m_low candle in
           let high := m_high candle in
           let close := m_close candle in
           let volume := m_volume candle in
           let typicalPrice := (high + low + close) / 3 in
           (fst acc + typicalPrice * volume, snd acc + volume))
        l (totalPriceVolume v, totalVolume v).
Proof.
  induction l as [|c l IH]; intros v; [reflexivity|].
  cbn [fold_left]. rewrite IH. reflexivity.
Qed.

(** X10. On bars given in ascending order of start, none with a negative
    volume, the one-shot calculator returns the very value that
    [initialize] leaves as the current VWAP of the rolling object, or
    both return none: the two functions then add the same terms in the
    same order, also when two bars share a start. *)
Theorem calculateVWAP_agrees_with_initialize (cs : list CandleMsg) (nowMs : Z) (v : t) :
  StronglySorted (fun a b => (m_start a <= m_start b)%Z) cs ->
  Forall (fun c => 0 <= m_volume c) cs ->
  calculateVWAP (Some cs) = currentVWAP (initialize cs nowMs v).
Proof.
  intros Hsorted Hvol.
  assert (S0 : 0 <= sumBarVolume cs).
  { clear Hsorted. unfold sumBarVolume.
    induction Hvol as [|c l Hc Hl IH]; simpl; [apply Qle_refl | lra]. }
  assert (Ev : currentVWAP (initialize cs nowMs v)
               = vwapOf (totalPriceVolume (initialize cs nowMs v))
                        (totalVolume (initialize cs nowMs v))).
  { unfold initialize. destruct (sortByStart cs); reflexivity. }
  assert (Et : (totalPriceVolume (initialize cs nowMs v),
                totalVolume (initialize cs nowMs v))
               = (totalPriceVolume (fold_left addHistorical cs
                                      (with_totals 0 0 (with_candles [] v))),
                  totalVolume (fold_left addHistorical cs
                                 (with_totals 0 0 (with_candles [] v))))).
  { unfold initialize. rewrite (sortByStart_ascending cs Hsorted).
    destruct cs; reflexivity. }
  rewrite fold_addHistorical_additions in Et.
  cbn [with_totals totalPriceVolume totalVolume] in Et.
  pose proof (f_equal fst Et) as E1. pose proof (f_equal snd Et) as E2.
  cbn [fst snd] in E1, E2. rewrite Ev, E1, E2. clear Ev Et E1 E2.
  unfold calculateVWAP.
  destruct cs as [|c cs']; [reflexivity|].
  set (cs := c :: cs') in *. change (length cs =? 0)%nat with false. cbv iota.
  pose proof (calculate_fold cs (0, 0)) as Hf. cbv zeta in Hf.
  destruct (fold_left _ cs (0, 0)) as [tpv tv] eqn:E. cbn [fst snd] in Hf |- *.
  assert (Htv : 0 <= tv) by (destruct Hf as [_ H2]; lra).
  unfold vwapOf.
  destruct (Qeq_bool tv 0) eqn:Ez.
  - apply Qeq_bool_iff in Ez.
    assert (En : Qltb 0 tv = false) by (apply Qltb_false_iff; lra).
    rewrite En. reflexivity.
  - assert (Hnz : ~ tv == 0).
    { intros Hz. apply Qeq_bool_iff in Hz. congruence. }
    assert (Ep : Qltb 0 tv = true) by (apply Qltb_iff; lra).
    rewrite Ep. reflexivity.
Qed.

(** Witness of X10: two bars, oldest first. *)
Lemma calculateVWAP_agrees_with_initialize_witness :
  let cs := [mkCandleMsg 1000 101 99 100 3; mkCandleMsg 1300 121 119 120 1] in
  (StronglySorted (fun a b => (m_start a <= m_start b)%Z) cs /\
   Forall (fun c => 0 <= m_volume c) cs) /\
  calculateVWAP (Some cs) = currentVWAP (initialize cs 1400000 (new 12 72)) /\
  calculateVWAP (Some cs) = Some ((0 + 300 / 3 * 3 + 360 / 3 * 1) / (0 + 3 + 1)).
Proof.
  intros cs.
  assert (H1 : StronglySorted (fun a b => (m_start a <= m_start b)%Z) cs).
  { repeat constructor. simpl. lia. }
  assert (H2 : Forall (fun c => 0 <= m_volume c) cs).
  { repeat constructor; unfold Qle; simpl; lia. }
  split; [tauto|]. split; [|reflexivity].
  exact (calculateVWAP_agrees_with_initialize cs 1400000 (new 12 72) H1 H2).
Defined.

End CalculateVWAPFacts.

(** ** The tracker: historical fetch, start and live events *)

Module VWAPTrackerFacts.
Import Js JsFacts VWAPTracker.
Import String.StringSyntax.
Delimit Scope string_scope with string.

(** *** The batches of [fetchHistoricalCandles] *)

Lemma batch_span : hoursForThisCall * 60 * 60 == 104400.
Proof. reflexivity. Qed.

Lemma fetchBatches_spec (api : Api) (end_ : Q) (fuel : nat) :
  forall (k : nat) (cs : Q) (acc : Fetch),
    cs <= end_ ->
    end_ - cs <= inject_Z (Z.of_nat fuel) * 104400 ->
    exists (f : Fetch) (ws : list (Q * Q)) (b : Q),
      fetchBatches fuel api k cs end_ acc = Some f /\
      requests f = requests acc ++ ws /\
      allCandles f = allCandles acc ++ collected api k ws /\
      contiguous cs ws b /\ b <= end_ /\
      Forall withinLimit ws /\
      (length ws <= fuel)%nat /\
      (b == end_ \/ lastThrew api k ws) /\
      (b == end_ -> end_ - cs <= RollingVWAP.lengthQ ws * 104400).
Proof.
  pose proof batch_span as Hspan.
  induction fuel as [|n IH]; intros k cs acc Hle Hfuel.
  - change (inject_Z (Z.of_nat 0)) with 0 in Hfuel.
    assert (E : Qltb cs end_ = false) by (apply Qltb_false_iff; lra).
    exists acc, [], cs. simpl. rewrite E.
    split; [reflexivity|]. split; [rewrite app_nil_r; reflexivity|].
    split; [rewrite app_nil_r; reflexivity|]. split; [reflexivity|].
    split; [exact Hle|]. split; [constructor|]. split; [lia|].
    split; [left; lra|]. intros _.
    change (RollingVWAP.lengthQ (@nil (Q * Q))) with 0. lra.
  - cbn [fetchBatches].
    destruct (Qltb cs end_) eqn:E.
    + apply Qltb_iff in E.
      set (ce := Qmin (cs + hoursForThisCall * 60 * 60) end_).
      assert (Hce1 : ce <= cs + hoursForThisCall * 60 * 60) by apply Q.le_min_l.
      assert (Hce2 : ce <= end_) by apply Q.le_min_r.
      assert (Hce3 : ce == cs + hoursForThisCall * 60 * 60 \/ ce == end_).
      { unfold ce.
        destruct (Q.min_spec (cs + hoursForThisCall * 60 * 60) end_) as [[_ H]|[_ H]];
          [left | right]; exact H. }
      assert (Hce4 : cs < ce) by (destruct Hce3 as [H|H]; rewrite H; lra).
      assert (Hw : withinLimit (cs, ce)).
      { unfold withinLimit, COINBASE_CANDLE_LIMIT. cbn [fst snd].
        split; [exact Hce4|]. split; [lra|].
        apply Qle_shift_div_r; [reflexivity | lra]. }
      assert (HS : inject_Z (Z.of_nat (S n)) == inject_Z (Z.of_nat n) + 1).
      { rewrite Nat2Z.inj_succ. unfold Z.succ. rewrite inject_Z_plus. reflexivity. }
      destruct (api k cs ce) as [|r] eqn:Eapi.
      * exists (mkFetch (requests acc ++ [(cs, ce)]) (allCandles acc)), [(cs, ce)], ce.
        cbn [requests allCandles collected fst snd contiguous length].
        rewrite Eapi, app_nil_r.
        split; [reflexivity|]. split; [reflexivity|]. split; [reflexivity|].
        split; [split; reflexivity|]. split; [exact Hce2|].
        split; [constructor; [exact Hw | constructor]|]. split; [lia|].
        split.
        { right. exists [], (cs, ce). split; [reflexivity|].
          cbn [length fst snd]. rewrite Nat.add_0_r. exact Eapi. }
        intros Hb. change (RollingVWAP.lengthQ [(cs, ce)]) with 1. lra.
      * destruct (IH (S k) ce
                    (mkFetch (requests acc ++ [(cs, ce)]) (allCandles acc ++ candlesOf r))
                    Hce2)
          as (f & ws & b & Ef & Er & Ea & Hc & Hb & Hf & Hl & Hd & Hn).
        { rewrite HS in Hfuel. destruct Hce3 as [H|H]; rewrite H; [lra|].
          assert (0 <= inject_Z (Z.of_nat n)).
          { change 0 with (inject_Z 0). rewrite <- Zle_Qle. lia. }
          lra. }
        exists f, ((cs, ce) :: ws), b.
        cbn [requests allCandles] in Er, Ea.
        split; [exact Ef|].
        split; [rewrite Er, <- app_assoc; reflexivity|].
        split.
        { rewrite Ea, <- app_assoc. cbn [collected fst snd]. rewrite Eapi. reflexivity. }
        split; [split; [reflexivity | exact Hc]|]. split; [exact Hb|].
        split; [constructor; assumption|]. split; [simpl; lia|].
        split.
        { destruct Hd as [Hd | (ws' & w & Ews & Ew)]; [left; exact Hd|].
          right. exists ((cs, ce) :: ws'), w. split; [rewrite Ews; reflexivity|].
          cbn [length]. rewrite Nat.add_succ_r. exact Ew. }
        intros Hbe. specialize (Hn Hbe).
        assert (HL : RollingVWAP.lengthQ ((cs, ce) :: ws) == RollingVWAP.lengthQ ws + 1).
        { unfold RollingVWAP.lengthQ. cbn [length]. rewrite Nat2Z.inj_succ.
          unfold Z.succ. rewrite inject_Z_plus. reflexivity. }
        rewrite HL. lra.
    + apply Qltb_false_iff in E.
      exists acc, [], cs. simpl.
      split; [reflexivity|]. split; [rewrite app_nil_r; reflexivity|].
      split; [rewrite app_nil_r; reflexivity|]. split; [reflexivity|].
      split; [exact Hle|]. split; [constructor|]. split; [lia|].
      split; [left; lra|]. intros _.
    change (RollingVWAP.lengthQ (@nil (Q * Q))) with 0. lra.
Qed.

Lemma batchesFor_enough (hours : Q) :
  hours * 60 * 60 <= inject_Z (Z.of_nat (batchesFor hours)) * 104400.
Proof.
  unfold batchesFor.
  set (x := hours * 60 * 60 / (hoursForThisCall * 60 * 60)).
  pose proof (Qle_ceiling x) as Hc.
  assert (Hz : inject_Z (Qceiling x) <= inject_Z (Z.of_nat (Z.to_nat (Qceiling x)))).
  { rewrite <- Zle_Qle. lia. }
  assert (Ex : hours * 60 * 60 == x * 104400).
  { unfold x. rewrite batch_span. field. }
  rewrite Ex. apply Qmult_le_compat_r; [lra | discriminate].
Qed.

(** X26. [fetchHistoricalCandles] always returns, with the candles that
    the client returned for the requests made, in order, up to the first
    request that threw.  For at most 350 candles it makes the one request
    [start .. end].  Otherwise its requests are contiguous from [start],
    each starting where the one before ended, each spanning more than
    nothing and at most 29 hours (348 candles, within the limit of 350);
    they reach [end] unless the last one threw, and are then as many as
    the span needs, no more. *)
Theorem fetch_batches_tile (hours : Q) (nowMs : Z) (api : Api) :
  let end_ := inject_Z (RollingVWAP.nowSeconds nowMs) in
  let start := end_ - hours * 60 * 60 in
  exists f : Fetch,
    fetchHistoricalCandles hours nowMs api = Some f /\
    allCandles f = collected api 1 (requests f) /\
    (hours * 12 <= 350 -> requests f = [(start, end_)]) /\
    (350 < hours * 12 ->
     exists b : Q,
       contiguous start (requests f) b /\ b <= end_ /\
       Forall withinLimit (requests f) /\
       (length (requests f) <= batchesFor hours)%nat /\
       (b == end_ \/ lastThrew api 1 (requests f)) /\
       (b == end_ ->
        hours * 60 * 60 <= RollingVWAP.lengthQ (requests f) * 104400)).
Proof.
  intros end_ start. unfold fetchHistoricalCandles. fold end_. fold start.
  unfold candlesPerHour, COINBASE_CANDLE_LIMIT.
  destruct (Qle_bool (hours * 12) 350) eqn:E.
  - apply Qle_bool_iff in E.
    destruct (api 1%nat start end_) as [|r] eqn:Eapi; eexists;
      (split; [reflexivity|]); cbn [requests allCandles collected fst snd];
      rewrite Eapi; (split; [try rewrite app_nil_r; reflexivity|]);
      (split; [reflexivity|]); intros H; lra.
  - assert (Hh : 350 < hours * 12).
    { destruct (Qlt_le_dec 350 (hours * 12)) as [H|H]; [exact H|].
      apply Qle_bool_iff in H. congruence. }
    destruct (fetchBatches_spec api end_ (batchesFor hours) 1 start (mkFetch [] []))
      as (f & ws & b & Ef & Er & Ea & Hc & Hb & Hf & Hl & Hd & Hn).
    { unfold start. lra. }
    { pose proof (batchesFor_enough hours). unfold start. lra. }
    cbn [requests allCandles app] in Er, Ea. subst ws.
    exists f. split; [exact Ef|]. split; [exact Ea|].
    split; [intros H; lra|]. intros _. exists b.
    split; [exact Hc|]. split; [exact Hb|]. split; [exact Hf|].
    split; [exact Hl|]. split; [exact Hd|].
    intros Hbe. specialize (Hn Hbe). unfold start in Hn. lra.
Qed.

(** Witness of X26: the 144 hours of [start()], with a client that
    returns no candles: five requests, four of 29 hours and one of 28. *)
Lemma fetch_batches_tile_witness :
  let api : Api := fun _ _ _ => Returns None in
  350 < 144 * 12 /\
  exists f : Fetch,
    fetchHistoricalCandles 144 1700000000000 api = Some f /\
    length (requests f) = 5%nat /\
    Forall withinLimit (requests f).
Proof.
  intros api.
  assert (H : 350 < 144 * 12) by reflexivity.
  split; [exact H|].
  destruct (fetch_batches_tile 144 1700000000000 api) as (f & Ef & _ & _ & Hm).
  destruct (Hm H) as (b & _ & _ & Hf & _).
  exists f. split; [exact Ef|]. split; [|exact Hf].
  vm_compute in Ef. injection Ef as <-. reflexivity.
Defined.


(** *** The candles that [start()] hands to [initialize] *)

Lemma NoDup_map_filter {A B : Type} (g : A -> B) (p : A -> bool) (l : list A) :
  NoDup (map g l) -> NoDup (map g (filter p l)).
Proof.
  induction l as [|x l IH]; simpl; intros H; [constructor|].
  inversion H as [|? ? Hn Hd]; subst.
  destruct (p x); simpl; [|apply IH; exact Hd].
  constructor; [|apply IH; exact Hd].
  intros Hin. apply Hn. apply in_map_iff in Hin. destruct Hin as (y & Ey & Hy).
  apply filter_In in Hy. apply in_map_iff. exists y. tauto.
Qed.

Lemma filter_none {A : Type} (p : A -> bool) (l : list A) :
  Forall (fun x => p x = false) l -> filter p l = [].
Proof.
  induction 1 as [|x l Hx Hl IH]; simpl; [reflexivity|]. rewrite Hx. exact IH.
Qed.

Lemma fetchBatches_done (api : Api) (fuel k : nat) (cs end_ : Q) (acc : Fetch) :
  Qltb cs end_ = false -> fetchBatches fuel api k cs end_ acc = Some acc.
Proof. intros E. destruct fuel; simpl; rewrite E; reflexivity. Qed.

(** When every boundary between two batches lies before [T], the
    candles that start at or after [T] all come from the last batch, and
    their starts are distinct. *)
Lemma fetchBatches_recent (api : Api) (end_ T : Q) :
  answersWindow api ->
  forall (fuel k : nat) (cs : Q) (acc f : Fetch),
    (forall j : nat,
        cs + (inject_Z (Z.of_nat j) + 1) * 104400 < end_ ->
        cs + (inject_Z (Z.of_nat j) + 1) * 104400 < T) ->
    filter (recent T) (allCandles acc) = [] ->
    fetchBatches fuel api k cs end_ acc = Some f ->
    NoDup (map RollingVWAP.m_start (filter (recent T) (allCandles f))).
Proof.
  intros Hapi. pose proof batch_span as Hspan.
  induction fuel as [|n IH]; intros k cs acc f Hb Hacc Ef.
  - simpl in Ef. destruct (Qltb cs end_); [discriminate Ef|].
    injection Ef as <-. rewrite Hacc. constructor.
  - cbn [fetchBatches] in Ef.
    destruct (Qltb cs end_) eqn:E;
      [|injection Ef as <-; rewrite Hacc; constructor].
    set (ce := Qmin (cs + hoursForThisCall * 60 * 60) end_) in *.
    assert (Hce3 : ce == cs + hoursForThisCall * 60 * 60 \/ ce == end_).
    { unfold ce.
      destruct (Q.min_spec (cs + hoursForThisCall * 60 * 60) end_) as [[_ H]|[_ H]];
        [left | right]; exact H. }
    destruct (api k cs ce) as [|r] eqn:Eapi;
      [injection Ef as <-; cbn [allCandles]; rewrite Hacc; constructor|].
    assert (Hr : NoDup (map RollingVWAP.m_start (candlesOf r)) /\
                 Forall (fun c => inject_Z (RollingVWAP.m_start c) <= ce) (candlesOf r)).
    { destruct r as [cands|]; cbn [candlesOf]; [|split; constructor].
      destruct (Hapi k cs ce cands Eapi) as [Hn Hw]. split; [exact Hn|].
      rewrite Forall_forall in Hw |- *. intros c Hc. apply (Hw c Hc). }
    destruct Hr as [Hn Hw].
    destruct (Qltb ce end_) eqn:Ece.
    + apply Qltb_iff in Ece.
      assert (Hce : ce == cs + 104400).
      { destruct Hce3 as [H|H]; [rewrite H, Hspan; reflexivity | lra]. }
      assert (HceT : ce < T).
      { specialize (Hb 0%nat). change (inject_Z (Z.of_nat 0)) with 0 in Hb.
        rewrite Hce. rewrite Hce in Ece.
        assert (E1 : cs + (0 + 1) * 104400 == cs + 104400) by ring.
        rewrite E1 in Hb. apply Hb. exact Ece. }
      apply (IH (S k) ce
               (mkFetch (requests acc ++ [(cs, ce)]) (allCandles acc ++ candlesOf r)) f);
        [| |exact Ef].
      * intros j Hj.
        assert (HS : inject_Z (Z.of_nat (S j)) == inject_Z (Z.of_nat j) + 1).
        { rewrite Nat2Z.inj_succ. unfold Z.succ. rewrite inject_Z_plus. reflexivity. }
        specialize (Hb (S j)). rewrite HS in Hb.
        assert (E2 : cs + (inject_Z (Z.of_nat j) + 1 + 1) * 104400
                     == ce + (inject_Z (Z.of_nat j) + 1) * 104400).
        { rewrite Hce. ring. }
        rewrite E2 in Hb. apply Hb. exact Hj.
      * cbn [allCandles]. rewrite filter_app, Hacc. cbn [app].
        apply filter_none. rewrite Forall_forall in Hw |- *.
        intros c Hc. specialize (Hw c Hc). unfold recent.
        destruct (Qle_bool T (inject_Z (RollingVWAP.m_start c))) eqn:Eq;
          [|reflexivity].
        apply Qle_bool_iff in Eq. lra.
    + rewrite (fetchBatches_done api n (S k) ce end_ _ Ece) in Ef.
      injection Ef as <-. cbn [allCandles].
      rewrite filter_app, Hacc. cbn [app].
      apply NoDup_map_filter. exact Hn.
Qed.

(** *** The invariant of a started tracker *)

Lemma recordDeviation_fresh (nowMs : Z) (v : RollingVWAP.t) :
  freshVWAP v -> freshVWAP (RollingVWAP.recordDeviation nowMs v).
Proof.
  intros H.
  assert (H0 : forall h, freshVWAP (RollingVWAP.with_deviationHistory h v))
    by (intros h; exact H).
  unfold RollingVWAP.recordDeviation.
  destruct (_ || _); [exact H|].
  destruct (RollingVWAP.currentVWAP v); [|exact H].
  destruct (RollingVWAP.currentPrice v); [|exact H].
  destruct (RollingVWAP.currentCandleStart v); [|exact H].
  apply H0.
Qed.

Lemma updateCandle_fresh (candle : RollingVWAP.CandleMsg) (nowMs : Z)
  (v v' : RollingVWAP.t) :
  RollingVWAP.updateCandle candle nowMs v = Some v' -> freshVWAP v'.
Proof.
  unfold RollingVWAP.updateCandle.
  destruct (if RollingVWAP.mapHas _ _ then _ else _) as [v1|]; [|discriminate].
  intros E. injection E as <-. apply recordDeviation_fresh. reflexivity.
Qed.

Lemma handle_invariant (e : Event) (tr : t) :
  RollingVWAP.Consistent (rollingVWAP tr) ->
  0 <= RollingVWAP.maxCandles (rollingVWAP tr) ->
  freshVWAP (rollingVWAP tr) ->
  exists tr' : t,
    handle e tr = Some tr' /\
    RollingVWAP.Consistent (rollingVWAP tr') /\
    0 <= RollingVWAP.maxCandles (rollingVWAP tr') /\
    freshVWAP (rollingVWAP tr').
Proof.
  intros Hc Hm Hf. destruct e as [ticker nowMs | candle nowMs | nowMs]; cbn [handle].
  - unfold onTicker. destruct (String.eqb _ _); eexists; (split; [reflexivity|]);
      cbn [emitUpdate with_rollingVWAP rollingVWAP]; [|tauto].
    split; [apply (RollingVWAPFacts.Consistent_frame (rollingVWAP tr)); auto | split; [exact Hm | exact Hf]].
  - unfold onCandle. destruct (String.eqb _ _); [|exists tr; tauto].
    destruct (RollingVWAPFacts.updateCandle_total (c_candle candle) nowMs _ Hc Hm)
      as [v' E].
    rewrite E. eexists. split; [reflexivity|].
    cbn [emitUpdate with_rollingVWAP rollingVWAP].
    destruct (RollingVWAPFacts.updateCandle_consistent _ _ _ _ Hc E) as [H1 H2].
    split; [exact H1|]. split; [rewrite H2; exact Hm|].
    apply (updateCandle_fresh _ _ _ _ E).
  - unfold cleanup.
    destruct (RollingVWAPFacts.removeOldCandles_total nowMs _ Hc Hm) as [v' E].
    rewrite E. eexists. split; [reflexivity|].
    cbn [emitUpdate with_rollingVWAP rollingVWAP].
    destruct (RollingVWAPFacts.removeOldCandles_consistent _ _ _ Hc E) as [H1 H2].
    split; [apply (RollingVWAPFacts.Consistent_frame v'); auto|].
    split; [cbn; rewrite H2; exact Hm | reflexivity].
Qed.


Lemma handleAll_invariant (es : list Event) :
  forall tr : t,
    RollingVWAP.Consistent (rollingVWAP tr) ->
    0 <= RollingVWAP.maxCandles (rollingVWAP tr) ->
    freshVWAP (rollingVWAP tr) ->
    exists tr' : t,
      handleAll es tr = Some tr' /\
      RollingVWAP.Consistent (rollingVWAP tr') /\
      freshVWAP (rollingVWAP tr').
Proof.
  induction es as [|e es IH]; intros tr Hc Hm Hf; cbn [handleAll].
  - exists tr. tauto.
  - destruct (handle_invariant e tr Hc Hm Hf) as (tr1 & E & Hc1 & Hm1 & Hf1).
    rewrite E. apply IH; assumption.
Qed.

Lemma start_invariant (fetched : list RollingVWAP.CandleMsg) (now1 now2 now3 : Z)
  (pid : String.string) (wh : Q) :
  0 <= wh ->
  NoDup (map RollingVWAP.m_start
           (filter (recent (inject_Z (RollingVWAP.nowSeconds now2) - wh * 60 * 60))
              fetched)) ->
  let tr := start fetched now1 now2 now3 (new pid wh) in
  RollingVWAP.Consistent (rollingVWAP tr) /\
  0 <= RollingVWAP.maxCandles (rollingVWAP tr) /\
  freshVWAP (rollingVWAP tr).
Proof.
  intros Hwh Hnd tr. unfold tr, start.
  pose proof (RollingVWAPFacts.new_consistent wh 72) as Hc0.
  pose proof (RollingVWAPFacts.new_maxCandles wh 72 Hwh) as Hm0.
  destruct (0 <? length fetched)%nat;
    [|cbn [new rollingVWAP]; split; [exact Hc0 | split; [exact Hm0 | reflexivity]]].
  cbn [new rollingVWAP windowHours].
  fold (recent (inject_Z (RollingVWAP.nowSeconds now2) - wh * 60 * 60)).
  destruct (0 <? length (filter _ fetched))%nat.
  - cbn [emitUpdate with_rollingVWAP rollingVWAP].
    destruct (RollingVWAPFacts.initialize_consistent _ now3
                (RollingVWAP.initializeDeviationHistory fetched now1
                   (RollingVWAP.new wh 72)) Hnd) as [H1 H2].
    split; [exact H1|]. split; [rewrite H2; exact Hm0 | reflexivity].
  - cbn [with_rollingVWAP rollingVWAP].
    split; [|split; [exact Hm0 | reflexivity]].
    apply (RollingVWAPFacts.Consistent_frame (RollingVWAP.new wh 72)); auto.
Qed.

(** X27. The candles that [start()] hands to [initialize], out of the 144
    hours that [fetchHistoricalCandles] collects in batches, have pairwise
    distinct starts.  The batches share their boundaries, so a candle that
    starts on a boundary may be fetched twice; but every boundary lies at
    least 28 hours before the end of the fetch, outside the window
    (shorter than 28 hours) whose candles go to [initialize], provided the
    client answers each request with candles inside the window asked,
    each start once, and the clock does not run backwards between the
    fetch and the start.  The tracker so started then runs through every
    sequence of ticker messages, candle messages and cleanup ticks without
    a throw, its map holds one bar per start, and the VWAP it holds is
    the quotient of the running totals as they stand ([null] when the
    total volume is not positive). *)
Theorem tracker_starts_on_distinct_bars (api : Api) (nowFetch now1 now2 now3 : Z)
  (pid : String.string) (wh : Q) (events : list Event) :
  answersWindow api ->
  0 <= wh -> wh < 28 ->
  (RollingVWAP.nowSeconds nowFetch <= RollingVWAP.nowSeconds now2)%Z ->
  exists (f : Fetch) (tr' : t),
    fetchHistoricalCandles 144 nowFetch api = Some f /\
    NoDup (map RollingVWAP.m_start
             (filter (recent (inject_Z (RollingVWAP.nowSeconds now2) - wh * 60 * 60))
                (allCandles f))) /\
    handleAll events (start (allCandles f) now1 now2 now3 (new pid wh)) = Some tr' /\
    NoDup (RollingVWAP.keys (RollingVWAP.candles (rollingVWAP tr'))) /\
    freshVWAP (rollingVWAP tr').
Proof.
  intros Hapi Hwh Hwh28 Hclock.
  set (end_ := inject_Z (RollingVWAP.nowSeconds nowFetch)).
  set (T := inject_Z (RollingVWAP.nowSeconds now2) - wh * 60 * 60).
  assert (Hend : end_ <= inject_Z (RollingVWAP.nowSeconds now2)).
  { unfold end_. rewrite <- Zle_Qle. exact Hclock. }
  assert (Efetch : fetchHistoricalCandles 144 nowFetch api
                   = fetchBatches (batchesFor 144) api 1 (end_ - 144 * 60 * 60) end_
                       (mkFetch [] [])) by reflexivity.
  destruct (fetchBatches_spec api end_ (batchesFor 144) 1 (end_ - 144 * 60 * 60)
              (mkFetch [] []))
    as (f & ws & b & Ef & _).
  { lra. }
  { pose proof (batchesFor_enough 144). lra. }
  assert (Hnd : NoDup (map RollingVWAP.m_start (filter (recent T) (allCandles f)))).
  { apply (fetchBatches_recent api end_ T Hapi (batchesFor 144) 1
             (end_ - 144 * 60 * 60) (mkFetch [] []) f); [|reflexivity | exact Ef].
    intros j Hj.
    destruct (le_lt_dec 4 j) as [H4|H4].
    - assert (4 <= inject_Z (Z.of_nat j)).
      { change 4 with (inject_Z 4). rewrite <- Zle_Qle. lia. }
      lra.
    - assert (inject_Z (Z.of_nat j) <= 3).
      { change 3 with (inject_Z 3). rewrite <- Zle_Qle. lia. }
      unfold T. lra. }
  destruct (start_invariant (allCandles f) now1 now2 now3 pid wh Hwh Hnd)
    as (Hc & Hm & Hf).
  destruct (handleAll_invariant events _ Hc Hm Hf) as (tr' & Eh & Hc' & Hf').
  exists f, tr'. split; [rewrite Efetch; exact Ef|].
  split; [exact Hnd|]. split; [exact Eh|].
  split; [apply (RollingVWAP.cons_keys _ Hc') | exact Hf'].
Qed.

(** Witness of X27: a client that returns one bar, five minutes before
    the end of the fetch, for every window that contains it; then a bar
    from the feed, a tick of the price and a cleanup. *)
Lemma tracker_starts_on_distinct_bars_witness :
  let bar := RollingVWAP.mkCandleMsg 1699999700 101 99 100 2 in
  let api : Api :=
    fun _ a b =>
      if Qle_bool a 1699999700 && Qle_bool 1699999700 b
      then Returns (Some [bar]) else Returns (Some []) in
  let pid := "BIP-20DEC30-CDE"%string in
  let events :=
    [CandleUpdate (mkCandleEvent pid (RollingVWAP.mkCandleMsg 1700000100 103 101 102 1))
       1700000150000;
     TickerEvent (mkTicker pid 102.5) 1700000160000;
     Cleanup 1700000200000] in
  (answersWindow api /\ 0 <= 12 /\ 12 < 28 /\
   (RollingVWAP.nowSeconds 1700000000000 <= RollingVWAP.nowSeconds 1700000050000)%Z) /\
  exists tr' : t,
    handleAll events
      (start
         (match fetchHistoricalCandles 144 1700000000000 api with
          | Some f => allCandles f
          | None => []
          end)
         1700000040000 1700000050000 1700000060000 (new pid 12)) = Some tr' /\
    freshVWAP (rollingVWAP tr') /\
    length (RollingVWAP.candles (rollingVWAP tr')) = 2%nat.
Proof.
  intros bar api pid events.
  assert (H1 : answersWindow api).
  { intros k a b cs. unfold api.
    destruct (Qle_bool a 1699999700) eqn:Ea;
      destruct (Qle_bool 1699999700 b) eqn:Eb; cbn [andb];
      intros E; injection E as <-.
    - apply Qle_bool_iff in Ea. apply Qle_bool_iff in Eb.
      split; [constructor; [intros [] | constructor]|].
      constructor; [|constructor]. split; [exact Ea | exact Eb].
    - split; constructor.
    - split; constructor.
    - split; constructor. }
  assert (H2 : 0 <= 12) by discriminate.
  assert (H3 : 12 < 28) by reflexivity.
  assert (H4 : (RollingVWAP.nowSeconds 1700000000000
                <= RollingVWAP.nowSeconds 1700000050000)%Z) by discriminate.
  split; [tauto|].
  destruct (tracker_starts_on_distinct_bars api 1700000000000 1700000040000
              1700000050000 1700000060000 pid 12 events H1 H2 H3 H4)
    as (f & tr' & Ef & _ & Eh & _ & Hv).
  exists tr'. rewrite Ef. split; [exact Eh|]. split; [exact Hv|].
  assert (E : fetchHistoricalCandles 144 1700000000000 api = Some f) by exact Ef.
  vm_compute in E. injection E as <-.
  vm_compute in Eh. injection Eh as <-. reflexivity.
Defined.

(** X28. The tracker acts on the cleanup ticks and on the messages for
    its own product, and on nothing else: a message for another product
    leaves it as it was, and a sequence of events that runs to its end has
    emitted one [update] for each event acted on, in order, after the
    updates emitted before.  The update emitted for an event is the
    snapshot of the aggregator as that event left it. *)
Theorem tracker_emits_once_per_event (es : list Event) (tr tr' : t) :
  handleAll es tr = Some tr' ->
  (exists news : list RollingVWAP.Stats,
      emitted tr' = emitted tr ++ news /\
      length news = length (filter (handled tr) es)) /\
  productId tr' = productId tr /\
  (forall (e : Event) (tr1 : t), handled tr1 e = false -> handle e tr1 = Some tr1) /\
  (forall (e : Event) (tr1 tr2 : t),
      handled tr1 e = true -> handle e tr1 = Some tr2 ->
      emitted tr2 = emitted tr1 ++ [RollingVWAP.getStats (rollingVWAP tr2)]).
Proof.
  intros H.
  assert (Hstep : forall (e : Event) (tr1 tr2 : t),
             handle e tr1 = Some tr2 ->
             productId tr2 = productId tr1 /\
             (if handled tr1 e
              then emitted tr2 = emitted tr1 ++ [RollingVWAP.getStats (rollingVWAP tr2)]
              else tr2 = tr1)).
  { intros e tr1 tr2. destruct e as [ticker nowMs | candle nowMs | nowMs];
      cbn [handle handled].
    - unfold onTicker. destruct (String.eqb _ _); intros E; injection E as <-;
        split; reflexivity.
    - unfold onCandle. destruct (String.eqb _ _).
      + destruct (RollingVWAP.updateCandle _ _ _); [|discriminate].
        intros E; injection E as <-. split; reflexivity.
      + intros E; injection E as <-. split; reflexivity.
    - unfold cleanup. destruct (RollingVWAP.removeOldCandles _ _); [|discriminate].
      intros E; injection E as <-. split; reflexivity. }
  split; [|split; [|split]].
  - revert tr H.
    assert (G : forall (pid : String.string) (tr : t),
               productId tr = pid -> handleAll es tr = Some tr' ->
               exists news : list RollingVWAP.Stats,
                 emitted tr' = emitted tr ++ news /\
                 length news
                 = length (filter (fun e => handled (new pid 0) e) es)).
    { intros pid. induction es as [|e es IH]; intros tr Hp H; cbn [handleAll] in H.
      - injection H as <-. exists []. rewrite app_nil_r. split; reflexivity.
      - destruct (handle e tr) as [tr1|] eqn:E; [|discriminate H].
        destruct (Hstep e tr tr1 E) as [Hp1 Hs].
        destruct (IH tr1 (eq_trans Hp1 Hp) H) as (news & En & Hl).
        assert (Hh : handled (new pid 0) e = handled tr e).
        { destruct e; cbn [handled new productId]; try rewrite Hp; reflexivity. }
        cbn [filter]. rewrite Hh.
        destruct (handled tr e).
        + exists (RollingVWAP.getStats (rollingVWAP tr1) :: news).
          rewrite En, Hs, <- app_assoc. split; [reflexivity|].
          cbn [length]. rewrite Hl. reflexivity.
        + subst tr1. exists news. split; [exact En | exact Hl]. }
    intros tr H. destruct (G (productId tr) tr eq_refl H) as (news & En & Hl).
    exists news. split; [exact En | exact Hl].
  - revert tr H. induction es as [|e es IH]; intros tr H; cbn [handleAll] in H.
    + injection H as <-. reflexivity.
    + destruct (handle e tr) as [tr1|] eqn:E; [|discriminate H].
      rewrite (IH tr1 H). apply (Hstep e tr tr1 E).
  - intros e tr1 Hh. destruct e as [ticker nowMs | candle nowMs | nowMs];
      cbn [handle handled] in *.
    + unfold onTicker. rewrite Hh. reflexivity.
    + unfold onCandle. rewrite Hh. reflexivity.
    + discriminate Hh.
  - intros e tr1 tr2 Hh E. destruct (Hstep e tr1 tr2 E) as [_ Hs].
    rewrite Hh in Hs. exact Hs.
Qed.


(** Witness of X28: a tick for another product, then one for the
    product of the tracker. *)
Lemma tracker_emits_once_per_event_witness :
  let pid := "BIP-20DEC30-CDE"%string in
  let other := "ETH-USD"%string in
  let es := [TickerEvent (mkTicker other 3000) 1; TickerEvent (mkTicker pid 90000) 2] in
  exists tr' : t,
    handleAll es (new pid 12) = Some tr' /\
    length (emitted tr') = 1%nat /\
    RollingVWAP.currentPrice (rollingVWAP tr') = Some 90000.
Proof.
  intros pid other es.
  destruct (handleAll es (new pid 12)) as [tr'|] eqn:E; [|vm_compute in E; discriminate E].
  exists tr'. split; [reflexivity|].
  destruct (tracker_emits_once_per_event es (new pid 12) tr' E)
    as ((news & En & Hl) & _).
  split.
  - rewrite En. cbn [new emitted app]. rewrite Hl. reflexivity.
  - vm_compute in E. injection E as <-. reflexivity.
Defined.

End VWAPTrackerFacts.

(** ** The websocket client: reconnection *)

Module CoinbaseWebSocketFacts.
Import CoinbaseWebSocket.

Lemma step_delay_bounds (e : Event) (c : t) :
  maxReconnectDelay c = 30000 ->
  1000 <= reconnectDelay c /\ reconnectDelay c <= 30000 ->
  maxReconnectDelay (fst (step e c)) = 30000 /\
  1000 <= reconnectDelay (fst (step e c)) /\
  reconnectDelay (fst (step e c)) <= 30000.
Proof.
  intros Hm [Hlo Hhi]. destruct e; cbn [step].
  - unfold connect. destruct (_ || _); cbn; tauto.
  - cbn. split; [exact Hm|]. split; [apply Qle_refl | discriminate].
  - unfold onClose, reconnect. cbn. destruct (isConnecting c); cbn; tauto.
  - unfold onReconnectTimer, connect. cbn [isConnecting isConnected].
    assert (H : 1000 <= Qmin (reconnectDelay c * 2) (maxReconnectDelay c) /\
                Qmin (reconnectDelay c * 2) (maxReconnectDelay c) <= 30000).
    { rewrite Hm. split; [apply Q.min_glb; [lra | discriminate] | apply Q.le_min_r]. }
    destruct (_ || _); cbn; tauto.
  - cbn. tauto.
Qed.

Lemma run_delay_bounds (es : list Event) :
  forall c : t,
    maxReconnectDelay c = 30000 ->
    1000 <= reconnectDelay c /\ reconnectDelay c <= 30000 ->
    1000 <= reconnectDelay (fst (run es c)) /\
    reconnectDelay (fst (run es c)) <= 30000.
Proof.
  induction es as [|e es IH]; intros c Hm Hb; cbn [run]; [exact Hb|].
  destruct (step_delay_bounds e c Hm Hb) as [Hm1 Hb1].
  destruct (step e c) as [c1 x1]. cbn [fst] in *.
  specialize (IH c1 Hm1 Hb1).
  destruct (run es c1) as [c2 x2]. exact IH.
Qed.

Lemma step_keeps_connecting (e : Event) (c : t) :
  isConnecting c = true -> keepsConnecting e ->
  isConnecting (fst (step e c)) = true /\ Forall noAttempt (snd (step e c)).
Proof.
  intros Hc [-> | [-> | ->]]; cbn [step].
  - unfold connect. rewrite Hc. cbn. split; [first [reflexivity | exact Hc] | constructor].
  - unfold onClose, reconnect. cbn [isConnecting]. rewrite Hc. cbn.
    split; [first [reflexivity | exact Hc] | repeat constructor].
  - unfold onReconnectTimer, connect. cbn [isConnecting]. rewrite Hc. cbn.
    split; [first [reflexivity | exact Hc] | constructor].
Qed.

Lemma run_keeps_connecting (es : list Event) :
  forall c : t,
    isConnecting c = true -> Forall keepsConnecting es ->
    isConnecting (fst (run es c)) = true /\ Forall noAttempt (snd (run es c)).
Proof.
  induction es as [|e es IH]; intros c Hc Hes; cbn [run].
  - split; [exact Hc | constructor].
  - inversion Hes as [|? ? He Hes']; subst.
    destruct (step_keeps_connecting e c Hc He) as [Hc1 Hx1].
    destruct (step e c) as [c1 x1]. cbn [fst snd] in *.
    destruct (IH c1 Hc1 Hes') as [Hc2 Hx2].
    destruct (run es c1) as [c2 x2]. cbn [fst snd] in *.
    split; [exact Hc2 | apply Forall_app; split; assumption].
Qed.

(** X29. Whatever happens to the client (calls of [connect] and
    [disconnect], [open] and [close] events of its sockets, the
    reconnection timer), its [reconnectDelay] stays between 1000 and
    30000.  And a reconnection attempt that fails is the last one:
    [isConnecting] is cleared only by the [open] handler and by
    [disconnect], so once it is set, and until one of those two, a [close]
    event sets no timer ([reconnect] returns at once), a timer that fires
    opens no socket and neither does a call of [connect]; the only effect
    left is the [disconnected] event.  From the client as constructed,
    [connect()] followed by a [close] before any [open] opens one socket
    and never another. *)
Theorem no_retry_after_failed_attempt (es : list Event) :
  (1000 <= reconnectDelay (fst (run es new)) /\
   reconnectDelay (fst (run es new)) <= 30000) /\
  (forall c : t,
      isConnecting c = true -> Forall keepsConnecting es ->
      isConnecting (fst (run es c)) = true /\ Forall noAttempt (snd (run es c))) /\
  (Forall keepsConnecting es ->
   exists rest : list Effect,
     snd (run (CallConnect :: SocketClose :: es) new)
     = NewWebSocket :: Emit disconnected :: rest /\
     Forall noAttempt rest).
Proof.
  split; [|split].
  - apply run_delay_bounds; [reflexivity|].
    split; [apply Qle_refl | discriminate].
  - intros c. apply run_keeps_connecting.
  - intros Hes.
    set (c := {| reconnectDelay := 1000; maxReconnectDelay := 30000;
                 isConnecting := true; isConnected := false; ws := true |}).
    assert (E1 : step CallConnect new = (c, [NewWebSocket])) by reflexivity.
    assert (E2 : step SocketClose c = (c, [Emit disconnected])) by reflexivity.
    cbn [run]. rewrite E1, E2.
    destruct (run_keeps_connecting es c eq_refl Hes) as [_ Hx].
    destruct (run es c) as [c2 x2]. cbn [snd app] in *.
    exists x2. split; [reflexivity | exact Hx].
Qed.

(** Witness of X29: a first attempt that fails, then the timer, a call
    of [connect], another [close] event and the timer again: one socket
    in all. *)
Lemma no_retry_after_failed_attempt_witness :
  let es := [TimerFires; CallConnect; SocketClose; TimerFires] in
  Forall keepsConnecting es /\
  snd (run (CallConnect :: SocketClose :: es) new)
  = [NewWebSocket; Emit disconnected; Emit disconnected] /\
  isConnecting (fst (run (CallConnect :: SocketClose :: es) new)) = true.
Proof.
  intros es.
  assert (H : Forall keepsConnecting es).
  { repeat constructor; unfold keepsConnecting; tauto. }
  split; [exact H|].
  destruct (proj2 (proj2 (no_retry_after_failed_attempt es)) H) as (rest & E & _).
  split; [|reflexivity].
  rewrite E. f_equal. f_equal.
  assert (E' : snd (run (CallConnect :: SocketClose :: es) new)
               = NewWebSocket :: Emit disconnected :: rest) by exact E.
  vm_compute in E'. injection E' as <-. reflexivity.
Defined.

End CoinbaseWebSocketFacts.
